(** * table-maker and tab-handler: a shallow embedding

    The two custom elements of the repository, [<table-maker>]
    (tablemaker/table-maker.js) and [<tab-handler>] (editor/text_editor.js),
    are embedded as functions over JavaScript values.  What the browser
    supplies (numbers, [Intl], [localeCompare], [Date], [JSON]) is an
    interface: the type classes [Num] and [Host]; every statement holds for
    all instances, and [Demo] gives one instance to run the code on. *)

From Stdlib Require Import ZArith NArith List String Ascii Bool Lia Permutation
  Sorted RelationClasses
  DecimalString.
From Stdlib Require HexadecimalString DecimalNat DecimalFacts.
Import ListNotations.
Local Open Scope string_scope.
Local Open Scope list_scope.
Set Warnings "-register-all".

(** ** JavaScript values *)

Module JS.

(** JavaScript numbers (IEEE doubles) with the operations the code uses. *)
Class Num : Type := {
  num : Type;
  nofZ : Z -> num;                 (* an integer literal *)
  nan : num;                       (* NaN *)
  neg_infinity : num;              (* -Infinity *)
  nadd : num -> num -> num;        (* a + b *)
  nsub : num -> num -> num;        (* a - b *)
  nmul : num -> num -> num;        (* a * b *)
  ndiv : num -> num -> num;        (* a / b *)
  nneg : num -> num;               (* -a *)
  nlt : num -> num -> bool;        (* a < b *)
  neqb : num -> num -> bool;       (* a === b *)
  nsign : num -> Z;                (* sign as Array.prototype.sort reads a
                                      comparator result: NaN counts as 0 *)
  nis_nan : num -> bool;           (* Number.isNaN *)
  nis_finite : num -> bool;        (* Number.isFinite *)
  num_to_string : num -> string;   (* Number::toString *)
  string_to_number : string -> num (* StringToNumber *)
}.

(** The line feed, ['\n'] in a string literal of the source. *)
Definition nl : string := String (ascii_of_nat 10) EmptyString.

(** Exceptions the code can meet. *)
Inductive exn : Type := TypeError | RangeError | SyntaxError.

Inductive result (A : Type) : Type :=
  | Ok (a : A)
  | Throw (e : exn).
Arguments Ok {A} a.
Arguments Throw {A} e.

Definition bind {A B} (r : result A) (k : A -> result B) : result B :=
  match r with
  | Ok a => k a
  | Throw e => Throw e
  end.

(** [xs.map(f)] where [f] may throw, with the index passed along. *)
Fixpoint mapM_idx {A B} (f : A -> Z -> result B) (l : list A) (i : Z)
  : result (list B) :=
  match l with
  | [] => Ok []
  | x :: l' =>
      bind (f x i) (fun y =>
      bind (mapM_idx f l' (i + 1)) (fun ys => Ok (y :: ys)))
  end.

Definition mapM {A B} (f : A -> result B) (l : list A) : result (list B) :=
  mapM_idx (fun x _ => f x) l 0.

(** [o[k]] on an object given by its entries in enumeration order. *)
Fixpoint lookup {A} (k : string) (o : list (string * A)) : option A :=
  match o with
  | [] => None
  | (k', v) :: o' => if String.eqb k' k then Some v else lookup k o'
  end.

(** [a[i]]: [undefined] out of range. *)
Definition index {A} (l : list A) (i : Z) : option A :=
  if (i <? 0)%Z then None else nth_error l (Z.to_nat i).

(** An array index: the canonical decimal form of an integer below
    [2^32 - 1].  Such keys are enumerated first, in ascending order. *)
Definition array_index (s : string) : option N :=
  match NilZero.uint_of_string s with
  | Some u =>
      let n := N.of_uint u in
      if String.eqb (NilZero.string_of_uint (N.to_uint n)) s
         && (n <? 4294967295)%N
      then Some n else None
  | None => None
  end.

(** Where a new key goes in an object's enumeration order: an array index
    before the first key that is no index or a greater one, any other key at
    the end. *)
Fixpoint obj_insert {A} (k : string) (x : A) (o : list (string * A))
  : list (string * A) :=
  match o with
  | [] => [(k, x)]
  | (k', y) :: o' =>
      match array_index k, array_index k' with
      | Some i, Some j =>
          if (i <? j)%N then (k, x) :: o else (k', y) :: obj_insert k x o'
      | Some _, None => (k, x) :: o
      | None, _ => (k', y) :: obj_insert k x o'
      end
  end.

(** Overwrite the value of a key that is there. *)
Fixpoint obj_update {A} (k : string) (x : A) (o : list (string * A))
  : list (string * A) :=
  match o with
  | [] => []
  | (k', y) :: o' =>
      if String.eqb k' k then (k', x) :: o' else (k', y) :: obj_update k x o'
  end.

(** [o[k] = x] *)
Definition obj_set {A} (k : string) (x : A) (o : list (string * A))
  : list (string * A) :=
  match lookup k o with
  | Some _ => obj_update k x o
  | None => obj_insert k x o
  end.

(** [Array.prototype.sort] on the elements that are not [undefined]: a stable
    sort reading the sign of the comparator's result, here by insertion.  For
    a consistent comparator every stable sort gives this result. *)
Section Sort.
Context {N : Num} {A : Type} (c : A -> A -> num).

Fixpoint insert_sorted (x : A) (l : list A) : list A :=
  match l with
  | [] => [x]
  | y :: l' =>
      if (nsign (c x y) <=? 0)%Z then x :: l else y :: insert_sorted x l'
  end.

Definition sort_by (l : list A) : list A := fold_right insert_sorted [] l.

End Sort.


Section Values.
Context {N : Num}.

Inductive value : Type :=
  | VUndef
  | VNull
  | VBool (b : bool)
  | VNum (n : num)
  | VStr (s : string)
  | VArr (l : list value)
  | VObj (o : list (string * value)).

Definition get (o : list (string * value)) (k : string) : value :=
  match lookup k o with
  | Some v => v
  | None => VUndef
  end.

(** [v.k] on any value: [undefined] off an object without that member. *)
Definition member (v : value) (k : string) : value :=
  match v with
  | VObj o => get o k
  | VArr l =>
      match array_index k with
      | Some i => nth (N.to_nat i) l VUndef
      | None => if String.eqb k "length"
                then VNum (nofZ (Z.of_nat (List.length l))) else VUndef
      end
  | VStr s =>
      if String.eqb k "length" then VNum (nofZ (Z.of_nat (String.length s)))
      else VUndef
  | _ => VUndef
  end.

Definition index_value (l : list value) (i : Z) : value :=
  match index l i with
  | Some v => v
  | None => VUndef
  end.

(** [a ?? b] *)
Definition nullish (a b : value) : value :=
  match a with
  | VUndef | VNull => b
  | _ => a
  end.

(** A default parameter value: used when the argument is [undefined]. *)
Definition default_arg (a d : value) : value :=
  match a with
  | VUndef => d
  | _ => a
  end.

Definition truthy (v : value) : bool :=
  match v with
  | VUndef | VNull => false
  | VBool b => b
  | VNum n => negb (nis_nan n) && negb (neqb n (nofZ 0))
  | VStr s => negb (String.eqb s "")
  | VArr _ | VObj _ => true
  end.

Definition isArray (v : value) : bool :=
  match v with
  | VArr _ => true
  | _ => false
  end.

(** [String(v)]; a plain object prints as [[object Object]], an array as its
    elements joined by commas with [null] and [undefined] left empty. *)
Fixpoint ToString (v : value) : string :=
  match v with
  | VUndef => "undefined"
  | VNull => "null"
  | VBool true => "true"
  | VBool false => "false"
  | VNum n => num_to_string n
  | VStr s => s
  | VArr l =>
      String.concat ","
        (map (fun x => match x with
                       | VUndef | VNull => ""
                       | _ => ToString x
                       end) l)
  | VObj _ => "[object Object]"
  end.

(** [Number(v)] *)
Definition ToNumber (v : value) : num :=
  match v with
  | VUndef => nan
  | VNull => nofZ 0
  | VBool true => nofZ 1
  | VBool false => nofZ 0
  | VNum n => n
  | VStr s => string_to_number s
  | VArr _ | VObj _ => string_to_number (ToString v)
  end.

(** [xs.join(sep)]: [null] and [undefined] elements are left empty. *)
Definition join (sep : string) (l : list value) : string :=
  String.concat sep
    (map (fun x => match x with
                   | VUndef | VNull => ""
                   | _ => ToString x
                   end) l).

(** [a + b] for the operands the code adds: numbers add, a string operand
    concatenates. *)
Definition js_add (a b : value) : value :=
  match a, b with
  | (VStr _ | VArr _ | VObj _), _ | _, (VStr _ | VArr _ | VObj _) =>
      VStr (ToString a ++ ToString b)%string
  | _, _ => VNum (nadd (ToNumber a) (ToNumber b))
  end.

(** [typeof v === 'number'] *)
Definition is_number (v : value) : bool :=
  match v with
  | VNum _ => true
  | _ => false
  end.

(** [v.k] where [v] may be [null] or [undefined]. *)
Definition prop (v : value) (k : string) : result value :=
  match v with
  | VUndef | VNull => Throw TypeError
  | _ => Ok (member v k)
  end.

(** [v.k = x] in strict code, on an object. *)
Definition set_member (v : value) (k : string) (x : value) : result value :=
  match v with
  | VObj o => Ok (VObj (obj_set k x o))
  | _ => Throw TypeError
  end.

(** [k in v] *)
Definition has_key (v : value) (k : string) : result bool :=
  match v with
  | VObj o => Ok (match lookup k o with Some _ => true | None => false end)
  | VArr l =>
      Ok (match array_index k with
          | Some i => (i <? N.of_nat (List.length l))%N
          | None => String.eqb k "length"
          end)
  | _ => Throw TypeError
  end.

Fixpoint indexed (l : list value) (i : Z) : list (string * value) :=
  match l with
  | [] => []
  | x :: l' => (num_to_string (nofZ i), x) :: indexed l' (i + 1)
  end.

Fixpoint chars (s : string) : list value :=
  match s with
  | EmptyString => []
  | String c s' => VStr (String c EmptyString) :: chars s'
  end.

(** [Object.entries(v)] *)
Definition entries (v : value) : result (list (string * value)) :=
  match v with
  | VObj o => Ok o
  | VArr l => Ok (indexed l 0)
  | VStr s => Ok (indexed (chars s) 0)
  | VBool _ | VNum _ => Ok []
  | VUndef | VNull => Throw TypeError
  end.

(** The receiver of [.map], [.forEach], [.some], [.join]: an array; the call
    is a [TypeError] on anything else. *)
Definition as_array (v : value) : result (list value) :=
  match v with
  | VArr l => Ok l
  | _ => Throw TypeError
  end.

(** [v.length > 0] *)
Definition length_positive (v : value) : bool :=
  match v with
  | VArr l => negb (Nat.eqb (List.length l) 0)
  | VStr s => negb (String.eqb s "")
  | VObj o => nlt (nofZ 0) (ToNumber (get o "length"))
  | _ => false
  end.

(** SameValueZero, as [Array.prototype.includes] compares: primitives by
    value, an object only with itself (never with a fresh copy). *)
Definition same_value_zero (a b : value) : bool :=
  match a, b with
  | VUndef, VUndef | VNull, VNull => true
  | VBool x, VBool y => Bool.eqb x y
  | VNum x, VNum y => neqb x y || (nis_nan x && nis_nan y)
  | VStr x, VStr y => String.eqb x y
  | _, _ => false
  end.

Definition includes (l : list value) (x : value) : bool :=
  existsb (same_value_zero x) l.

(** [JSON.parse(JSON.stringify(v))] below the top level: a member that is
    [undefined] is dropped, an [undefined] element and a number that is not
    finite become [null]. *)
Fixpoint json_copy (v : value) : value :=
  match v with
  | VUndef => VNull
  | VNum n => if nis_finite n then v else VNull
  | VArr l => VArr (map json_copy l)
  | VObj o =>
      VObj ((fix members (o : list (string * value)) :=
               match o with
               | [] => []
               | (k, VUndef) :: o' => members o'
               | (k, x) :: o' => (k, json_copy x) :: members o'
               end) o)
  | _ => v
  end.

(** [JSON.parse(JSON.stringify(v))]: [JSON.stringify(undefined)] is
    [undefined], which [JSON.parse] rejects. *)
Definition json_clone (v : value) : result value :=
  match v with
  | VUndef => Throw SyntaxError
  | _ => Ok (json_copy v)
  end.

(** [xs.some(f)], stopping at the first hit. *)
Fixpoint someM {A} (f : A -> result bool) (l : list A) : result bool :=
  match l with
  | [] => Ok false
  | x :: l' => bind (f x) (fun b => if b then Ok true else someM f l')
  end.

Definition is_undefined (v : value) : bool :=
  match v with
  | VUndef => true
  | _ => false
  end.

(** [xs.sort(c)]: [undefined] elements go last and are never compared. *)
Definition array_sort (c : value -> value -> num) (l : list value)
  : list value :=
  sort_by c (filter (fun v => negb (is_undefined v)) l)
  ++ filter is_undefined l.

(** [Object.groupBy(xs, key)] as its entries: a new key takes its place in the
    enumeration order, a known key has the element appended to its group. *)
Definition group_add {A} (key : A -> string) (groups : list (string * list A))
  (x : A) : list (string * list A) :=
  match lookup (key x) groups with
  | Some g => obj_update (key x) (g ++ [x]) groups
  | None => obj_insert (key x) [x] groups
  end.

Definition groupBy {A} (key : A -> string) (l : list A)
  : list (string * list A) :=
  fold_left (group_add key) l [].


End Values.

(** Options of [Intl.NumberFormat]. *)
Record nf_options {N : Num} : Type := {
  nf_style : string;
  nf_currency : string;
  nf_minimumFractionDigits : value;
  nf_maximumFractionDigits : value;
  nf_currencyDisplay : option string
}.

(** What the browser supplies besides numbers. *)
Class Host {N : Num} : Type := {
  (* new Intl.NumberFormat(locale, opts).format(amount); may throw *)
  intl_format : option string -> nf_options -> value -> result string;
  (* n.toLocaleString('en-US', {minimumFractionDigits, maximumFractionDigits}) *)
  toLocaleString_enUS : num -> value -> value -> result string;
  (* n.toFixed(digits) *)
  toFixed : num -> value -> result string;
  (* new Date(v): None for an invalid date, else getTime() and toISOString() *)
  new_Date : value -> option (num * string);
  toUpperCase : string -> string;
  toLowerCase : string -> string;
  (* a.localeCompare(b) *)
  localeCompare : string -> string -> num;
  (* a.localeCompare(b, undefined, {numeric: true, sensitivity: 'base'}) *)
  localeCompare_numeric_base : string -> string -> num;
  (* JSON.parse(s): None when it throws *)
  JSON_parse : string -> option value;
  (* JSON.stringify(v, null, '\t') and JSON.stringify(v) *)
  JSON_stringify : value -> string
}.

End JS.

Import JS.

Declare Scope js_scope.
Notation "x <- c ;; k" := (bind c (fun x => k))
  (at level 61, c at next level, right associativity) : js_scope.
Local Open Scope js_scope.

(** ** Formatter *)

Module COL_TYPES.
Definition MONEY := "money".
Definition MONEY2 := "money_2".
Definition FLOAT := "float".
Definition FLOAT5 := "float_5".
Definition PERCENT := "%".
Definition PERCENT1 := "percent".
Definition DATE := "date".
Definition TEXT := "text".
End COL_TYPES.

Module DEFAULTS.
Definition PRECISION : Z := 0.
Definition CURRENCY := "INR".
Definition CSS_TYPE := "default".
End DEFAULTS.

Module Formatter.
Section Formatter.
Context {N : Num} {H : Host}.

(** [Formatter.#formatCurrency] *)
Definition formatCurrency (amount precision currency : value)
  (useNarrow : bool) : result string :=
  match currency with
  | VStr c =>
      let cur := toUpperCase c in
      let opts := {| nf_style := "currency";
                     nf_currency := cur;
                     nf_minimumFractionDigits := precision;
                     nf_maximumFractionDigits := precision;
                     nf_currencyDisplay :=
                       if useNarrow then Some "narrowSymbol" else None |} in
      match intl_format None opts amount with
      | Ok s => Ok s
      | Throw _ =>
          let locale := if String.eqb cur "USD" then Some "en-US" else None in
          intl_format locale
            {| nf_style := "currency";
               nf_currency := cur;
               nf_minimumFractionDigits := precision;
               nf_maximumFractionDigits := precision;
               nf_currencyDisplay := None |} amount
      end
  | _ => Throw TypeError (* currency.toUpperCase is not a function *)
  end.

(** [Formatter.formatMoney(amount, precision = 0, currency = 'INR')]; a
    missing argument is [VUndef]. *)
Definition formatMoney (amount precision currency : value) : result string :=
  formatCurrency amount
    (default_arg precision (VNum (nofZ DEFAULTS.PRECISION)))
    (default_arg currency (VStr DEFAULTS.CURRENCY))
    true.

(** [Formatter.formatMoney2(amounts, precisions, currencies)]; both call
    sites pass arrays. *)
Definition formatMoney2 (amounts precisions currencies : list value)
  : result string :=
  strs <- mapM_idx (fun amt idx =>
            let cur := index_value currencies
                         (Z.min idx (Z.of_nat (List.length currencies) - 1)) in
            let prec := index_value precisions
                          (Z.min idx (Z.of_nat (List.length precisions) - 1)) in
            formatMoney amt prec cur) amounts 0 ;;
  Ok (String.concat "<br>" strs).

(** [Formatter.formatNumber(val, precision = 0)] *)
Definition formatNumber (val precision : value) : result string :=
  let p := default_arg precision (VNum (nofZ DEFAULTS.PRECISION)) in
  toLocaleString_enUS (ToNumber val) p p.

(** [Formatter.formatPercent(val, precision = 0)] *)
Definition formatPercent (val precision : value) : result string :=
  let p := default_arg precision (VNum (nofZ DEFAULTS.PRECISION)) in
  s <- toFixed (nmul (ToNumber val) (nofZ 100)) p ;;
  Ok (s ++ "%")%string.

(** The part of [s] before the first ['T']: [s.split('T')[0]]. *)
Fixpoint before_T (s : string) : string :=
  match s with
  | EmptyString => EmptyString
  | String c s' => if Ascii.eqb c "T"%char then EmptyString
                   else String c (before_T s')
  end.

(** [Formatter.formatDate(val)] *)
Definition formatDate (val : value) : string :=
  match new_Date val with
  | None => ""
  | Some (_, iso) => before_T iso
  end.

End Formatter.
End Formatter.

(** ** TableMaker: cell-display preparation *)

Module TableMaker.
Section TableMaker.
Context {N : Num} {H : Host}.

(** A data frame [{rows, cols}]: [rows] an array, [cols] an object given by
    its entries. *)
Record df : Type := {
  df_rows : list value;
  df_cols : list (string * value)
}.

(** The keys that [createCellDisplayValues] leaves alone. *)
Definition is_detail_key (col : string) : bool :=
  String.eqb col "_DETAILS_TABLE_" || String.eqb col "_DETAILS_OTHER_".

Definition mk_cell (type raw disp : value) : value :=
  VObj [("type", type); ("value", raw); ("disp", disp)].

(** [x === s] for a string constant [s]. *)
Definition is_str (x : value) (s : string) : bool :=
  match x with
  | VStr t => String.eqb t s
  | _ => false
  end.

(** The array [v] when [Array.isArray(v)], else [dflt]. *)
Definition array_or (v : value) (dflt : list value) : list value :=
  match v with
  | VArr l => l
  | _ => dflt
  end.

(** The [switch (type)] of [createCellDisplayValues]: the display value of a
    raw value under a column descriptor. *)
Definition cell_disp (colInfo type precision raw : value) : result value :=
  if is_str type COL_TYPES.MONEY2 then
    let currencies :=
      array_or (member colInfo "currency") [VStr DEFAULTS.CURRENCY] in
    let precisions := array_or (member colInfo "precision") [precision] in
    let amounts := array_or raw [] in
    s <- Formatter.formatMoney2 amounts precisions currencies ;; Ok (VStr s)
  else if is_str type COL_TYPES.MONEY then
    s <- Formatter.formatMoney raw precision VUndef ;; Ok (VStr s)
  else if is_str type COL_TYPES.FLOAT then
    s <- Formatter.formatNumber raw precision ;; Ok (VStr s)
  else if is_str type COL_TYPES.FLOAT5 then
    s <- Formatter.formatNumber
           (VNum (ndiv (ToNumber raw) (nofZ 100000))) precision ;;
    Ok (VStr s)
  else if is_str type COL_TYPES.PERCENT || is_str type COL_TYPES.PERCENT1 then
    s <- Formatter.formatPercent raw precision ;; Ok (VStr s)
  else if is_str type COL_TYPES.DATE then
    Ok (VStr (Formatter.formatDate raw))
  else Ok raw.

(** The body of the [for] loop: the cell stored at [row[col]]. *)
Definition derive_cell (cols : list (string * value)) (col : string)
  (raw : value) : result value :=
  let colInfo := nullish (get cols col) (VObj []) in
  let type := nullish (member colInfo "type") (VStr COL_TYPES.TEXT) in
  let precision :=
    nullish (member colInfo "precision") (VNum (nofZ DEFAULTS.PRECISION)) in
  disp <- cell_disp colInfo type precision raw ;;
  Ok (mk_cell type raw disp).

(** One row: every entry but the detail keys is replaced by its cell, in
    place, so the order of the keys stays. *)
Definition derive_entry (cols : list (string * value))
  (kv : string * value) : result (string * value) :=
  let (col, raw) := kv in
  if is_detail_key col then Ok kv
  else (cell <- derive_cell cols col raw ;; Ok (col, cell)).

(** [Object.entries(row)] followed by [row[col] = cell].  Rows are objects in
    the data model; an array row has its indices as keys, [null] and
    [undefined] have no entries to take, a non-empty string cannot be
    assigned to (the class body is strict code), other primitives have no
    entries. *)
Definition derive_row (cols : list (string * value)) (row : value)
  : result value :=
  match row with
  | VObj o => o' <- mapM (derive_entry cols) o ;; Ok (VObj o')
  | VArr l =>
      l' <- mapM_idx (fun raw i =>
              derive_cell cols (num_to_string (nofZ i)) raw) l 0 ;;
      Ok (VArr l')
  | VUndef | VNull => Throw TypeError
  | VStr s => if String.eqb s "" then Ok row else Throw TypeError
  | VBool _ | VNum _ => Ok row
  end.

(** [TableMaker.createCellDisplayValues(df)] *)
Definition createCellDisplayValues (d : df) : result df :=
  rows <- mapM (derive_row (df_cols d)) (df_rows d) ;;
  Ok {| df_rows := rows; df_cols := df_cols d |}.

End TableMaker.
End TableMaker.

(** ** TableMakerComponent: the [<table-maker>] element *)

Module TableMakerComponent.
Section Component.
Context {N : Num} {H : Host}.

(** Listeners the component attaches. *)
Inductive listener : Type :=
  | ToggleHandler      (* the closure of [#makeToggleHandler] *)
  | HeaderClickHandler (* the delegated click listener on [<thead>] *).

(** A DOM node the component builds: its tag, the attributes and properties
    assigned to it (as assigned, before the DOM turns them into strings),
    its listeners and its children.  A fragment is a node with tag
    ["#fragment"]. *)
Inductive node : Type :=
  | Node (tag : string) (props : list (string * value))
         (listeners : list listener) (children : list node).

Definition el (tag : string) (props : list (string * value))
  (children : list node) : node := Node tag props [] children.

(** The private fields of an instance, its shadow root, the developer
    console and the events it dispatches. *)
Record component : Type := {
  tableData : value;            (* #tableData *)
  style : value;                (* #style *)
  style_shared : bool;          (* #style is the object at #tableData.style *)
  aggregateColumns : list value;(* #aggregateColumns *)
  transpose : bool;             (* #transpose *)
  batchMode : bool;             (* #batchMode *)
  sortedColumn : value * bool;  (* #sortedColumn: colName, sortAsc *)
  shadow : list node;           (* children of the shadow root *)
  console : list (list value);  (* console.error calls, with arguments *)
  dispatched : list value       (* events passed to this.dispatchEvent *)
}.

(** The field initialisers and the constructor. *)
Definition initial : component := {|
  tableData := VObj [("style", VObj [("cssType", VStr DEFAULTS.CSS_TYPE)])];
  style := VObj [("cssType", VStr DEFAULTS.CSS_TYPE)];
  style_shared := false;
  aggregateColumns := [];
  transpose := false;
  batchMode := false;
  sortedColumn := (VNull, true);
  shadow := [];
  console := [];
  dispatched := []
|}.

(** Methods run on the instance and may throw: the state at the throw is
    kept. *)
Definition M (A : Type) : Type := component -> component * result A.

Definition ret {A} (a : A) : M A := fun st => (st, Ok a).

Definition bindM {A B} (m : M A) (k : A -> M B) : M B :=
  fun st =>
    match m st with
    | (st', Ok a) => k a st'
    | (st', Throw e) => (st', Throw e)
    end.

Definition lift {A} (r : result A) : M A := fun st => (st, r).

Definition read {A} (f : component -> A) : M A := fun st => (st, Ok (f st)).

Definition modify (f : component -> component) : M unit :=
  fun st => (f st, Ok tt).

Declare Scope m_scope.
Notation "x <~ c ;; k" := (bindM c (fun x => k))
  (at level 61, c at next level, right associativity) : m_scope.
Notation "c ;;; k" := (bindM c (fun _ => k))
  (at level 61, right associativity) : m_scope.
Local Open Scope m_scope.

(** [this.#style.k = x].  When [#style] is the object stored at
    [#tableData.style], the write is seen through [#tableData] too. *)
Definition write_style (k : string) (x : value) : M unit :=
  fun st =>
    match set_member (style st) k x with
    | Ok s' =>
        ({| tableData :=
              if style_shared st
              then match tableData st with
                   | VObj o => VObj (obj_update "style" s' o)
                   | d => d
                   end
              else tableData st;
            style := s';
            style_shared := style_shared st;
            aggregateColumns := aggregateColumns st;
            transpose := transpose st;
            batchMode := batchMode st;
            sortedColumn := sortedColumn st;
            shadow := shadow st;
            console := console st;
       dispatched := dispatched st |}, Ok tt)
    | Throw e => (st, Throw e)
    end.

(** [this.#style.k ??= d] *)
Definition default_style (k : string) (d : value) : M unit :=
  s <~ read style ;;
  cur <~ lift (prop s k) ;;
  match cur with
  | VUndef | VNull => write_style k d
  | _ => ret tt
  end.

Definition set_tableData (d : value) (shared : bool) : M unit :=
  modify (fun st =>
    {| tableData := d; style := style st; style_shared := shared;
       aggregateColumns := aggregateColumns st; transpose := transpose st;
       batchMode := batchMode st; sortedColumn := sortedColumn st;
       shadow := shadow st; console := console st;
       dispatched := dispatched st |}).

Definition set_style (s : value) (shared : bool) : M unit :=
  modify (fun st =>
    {| tableData := tableData st; style := s; style_shared := shared;
       aggregateColumns := aggregateColumns st; transpose := transpose st;
       batchMode := batchMode st; sortedColumn := sortedColumn st;
       shadow := shadow st; console := console st;
       dispatched := dispatched st |}).

Definition set_aggregateColumns (a : list value) : M unit :=
  modify (fun st =>
    {| tableData := tableData st; style := style st;
       style_shared := style_shared st;
       aggregateColumns := a; transpose := transpose st;
       batchMode := batchMode st; sortedColumn := sortedColumn st;
       shadow := shadow st; console := console st;
       dispatched := dispatched st |}).

Definition set_transpose_field (b : bool) : M unit :=
  modify (fun st =>
    {| tableData := tableData st; style := style st;
       style_shared := style_shared st;
       aggregateColumns := aggregateColumns st; transpose := b;
       batchMode := batchMode st; sortedColumn := sortedColumn st;
       shadow := shadow st; console := console st;
       dispatched := dispatched st |}).

Definition set_batchMode (b : bool) : M unit :=
  modify (fun st =>
    {| tableData := tableData st; style := style st;
       style_shared := style_shared st;
       aggregateColumns := aggregateColumns st; transpose := transpose st;
       batchMode := b; sortedColumn := sortedColumn st;
       shadow := shadow st; console := console st;
       dispatched := dispatched st |}).

Definition set_sortedColumn (c : value * bool) : M unit :=
  modify (fun st =>
    {| tableData := tableData st; style := style st;
       style_shared := style_shared st;
       aggregateColumns := aggregateColumns st; transpose := transpose st;
       batchMode := batchMode st; sortedColumn := c;
       shadow := shadow st; console := console st;
       dispatched := dispatched st |}).

Definition set_shadow (ns : list node) : M unit :=
  modify (fun st =>
    {| tableData := tableData st; style := style st;
       style_shared := style_shared st;
       aggregateColumns := aggregateColumns st; transpose := transpose st;
       batchMode := batchMode st; sortedColumn := sortedColumn st;
       shadow := ns; console := console st;
       dispatched := dispatched st |}).

(** [console.error(...args)] *)
Definition console_error (args : list value) : M unit :=
  modify (fun st =>
    {| tableData := tableData st; style := style st;
       style_shared := style_shared st;
       aggregateColumns := aggregateColumns st; transpose := transpose st;
       batchMode := batchMode st; sortedColumn := sortedColumn st;
       shadow := shadow st; console := console st ++ [args];
       dispatched := dispatched st |}).

(** A loop over an array whose body runs on the instance. *)
Fixpoint forM {A} (f : A -> M unit) (l : list A) : M unit :=
  match l with
  | [] => ret tt
  | x :: l' => f x ;;; forM f l'
  end.

(** [#hasDetailRows(rows)] *)
Definition hasDetailRows (rows : value) : result bool :=
  rs <- as_array rows ;;
  someM (fun r =>
    a <- prop r "_DETAILS_TABLE_" ;;
    if truthy a then Ok true
    else (b <- prop r "_DETAILS_OTHER_" ;; Ok (truthy b))) rs.

(** [#createAggregateColumnArray()] *)
Definition createAggregateColumnArray : M unit :=
  s <~ read style ;;
  agg <~ lift (prop s "aggregateCols") ;;
  (if truthy agg then ret tt
   else
     write_style "aggregateCols" (VObj []) ;;;
     d <~ read tableData ;;
     cols <~ lift (prop d "cols") ;;
     es <~ lift (entries cols) ;;
     forM (fun kv : string * value =>
       let (col, colInfo) := kv in
       b <~ lift (has_key colInfo "aggregate") ;;
       if b then
         s1 <~ read style ;;
         a1 <~ lift (set_member (member s1 "aggregateCols") col
                       (member colInfo "aggregate")) ;;
         write_style "aggregateCols" a1
       else ret tt) es) ;;;
  s2 <~ read style ;;
  d <~ read tableData ;;
  es <~ lift (entries (member s2 "aggregateCols")) ;;
  cols <~ lift (prop d "cols") ;;
  kept <~ lift (mapM (fun kv : string * value =>
            b <- has_key cols (fst kv) ;; Ok (kv, b)) es) ;;
  acs <~ lift (mapM (fun kv : string * value =>
           let (col, dtl) := kv in
           ci <- prop (member cols col) "type" ;;
           Ok (VObj [("col", VStr col);
                     ("type", nullish ci (VStr COL_TYPES.TEXT));
                     ("precision",
                      nullish (member (member cols col) "precision")
                        (VNum (nofZ DEFAULTS.PRECISION)));
                     ("aggregate", dtl)]))
           (map fst (filter snd kept))) ;;
  set_aggregateColumns acs.


(** *** Aggregates *)

Fixpoint foldM {A B} (f : B -> A -> result B) (l : list A) (acc : B)
  : result B :=
  match l with
  | [] => Ok acc
  | x :: l' => b <- f acc x ;; foldM f l' b
  end.

(** [vals.forEach((num, i) => { acc[i] = (acc[i] ?? 0) + Number(num); })] *)
Fixpoint add_elementwise (acc vals : list value) : list value :=
  match vals with
  | [] => acc
  | v :: vs =>
      match acc with
      | [] =>
          js_add (VNum (nofZ 0)) (VNum (ToNumber v)) :: add_elementwise [] vs
      | a :: acc' =>
          js_add (nullish a (VNum (nofZ 0))) (VNum (ToNumber v))
            :: add_elementwise acc' vs
      end
  end.

(** The first [switch] of [calcGroupAggregates]: the aggregate value of one
    column over [rows]. *)
Definition aggregate_value (colInfo : value) (rows : list value)
  : result value :=
  c <- prop colInfo "col" ;;
  let col := ToString c in
  let colType := nullish (member colInfo "type") (VStr COL_TYPES.TEXT) in
  if TableMaker.is_str (member colInfo "aggregate") "sum" then
    if TableMaker.is_str colType COL_TYPES.MONEY2 then
      acc <- foldM (fun acc arr =>
               cell <- prop arr col ;;
               v <- prop cell "value" ;;
               vals <- as_array v ;;
               Ok (add_elementwise acc vals)) rows [] ;;
      Ok (VArr acc)
    else
      foldM (fun acc r =>
        cell <- prop r col ;;
        Ok (js_add acc (if truthy cell then member cell "value"
                        else VNum (nofZ 0)))) rows (VNum (nofZ 0))
  else Ok (member colInfo "aggregate").

(** The second [switch]: the aggregate as stored and as displayed. *)
Definition aggregate_disp (colInfo aggVal : value) : result (value * value) :=
  let colType := nullish (member colInfo "type") (VStr COL_TYPES.TEXT) in
  let precision :=
    nullish (member colInfo "precision") (VNum (nofZ DEFAULTS.PRECISION)) in
  if TableMaker.is_str colType COL_TYPES.MONEY then
    s <- Formatter.formatMoney aggVal precision VUndef ;; Ok (aggVal, VStr s)
  else if TableMaker.is_str colType COL_TYPES.MONEY2 then
    let currencies := TableMaker.array_or (member colInfo "currency")
                        [VStr DEFAULTS.CURRENCY] in
    let precisions :=
      TableMaker.array_or (member colInfo "precision") [precision] in
    let aggVal' := TableMaker.array_or aggVal [] in
    s <- Formatter.formatMoney2 aggVal' precisions currencies ;;
    Ok (VArr aggVal', VStr s)
  else if TableMaker.is_str colType COL_TYPES.FLOAT then
    s <- Formatter.formatNumber aggVal precision ;; Ok (aggVal, VStr s)
  else if TableMaker.is_str colType COL_TYPES.FLOAT5 then
    s <- Formatter.formatNumber
           (VNum (ndiv (ToNumber aggVal) (nofZ 100000))) precision ;;
    Ok (aggVal, VStr s)
  else if TableMaker.is_str colType COL_TYPES.PERCENT
          || TableMaker.is_str colType COL_TYPES.PERCENT1 then
    s <- Formatter.formatPercent aggVal precision ;; Ok (aggVal, VStr s)
  else Ok (aggVal, aggVal).

(** One turn of the [forEach]: [result[col] = {value, disp}]. *)
Definition aggregate_column (rows : list value)
  (res : list (string * value)) (colInfo : value)
  : result (list (string * value)) :=
  aggVal <- aggregate_value colInfo rows ;;
  vd <- aggregate_disp colInfo aggVal ;;
  Ok (obj_set (ToString (member colInfo "col"))
        (VObj [("value", fst vd); ("disp", snd vd)]) res).

(** [TableMakerComponent.calcGroupAggregates(aggregateCols, rows)] *)
Definition calcGroupAggregates (aggregateCols rows : list value)
  : result (list (string * value)) :=
  foldM (aggregate_column rows) aggregateCols [].

(** [#subtotalRow(colsToShow, groupRows, groupLabel)] *)
Definition subtotalRow (st : component) (colsToShow : list (string * value))
  (groupRows : list value) (groupLabel : string) : result node :=
  let newAggCols := map json_copy (aggregateColumns st) in
  let newAggCols :=
    if String.eqb groupLabel "" then newAggCols
    else map (fun aggCol =>
           if TableMaker.is_str (member aggCol "aggregate") "Total"
           then match aggCol with
                | VObj o => VObj (obj_set "aggregate" (VStr groupLabel) o)
                | _ => aggCol
                end
           else aggCol) newAggCols in
  aggInfo <- calcGroupAggregates newAggCols groupRows ;;
  let thArr :=
    map (fun kv : string * value =>
      let (col, colInfo) := kv in
      if truthy (get aggInfo col) then
        el "th" [("data-type",
                  nullish (member colInfo "type") (VStr COL_TYPES.TEXT));
                 ("data-value", member (get aggInfo col) "value");
                 ("innerHTML", member (get aggInfo col) "disp")] []
      else el "th" [("innerHTML", VStr "")] []) colsToShow in
  let thArr :=
    if length_positive (member (style st) "row_buttons")
    then thArr ++ [el "th" [] []] else thArr in
  let thArr :=
    if truthy (member (style st) "expandableRows")
    then el "th" [] [] :: thArr else thArr in
  Ok (el "tr" [] thArr).


(** *** Rows *)

(** [s.includes(t)] on strings. *)
Fixpoint is_infix (t s : string) : bool :=
  String.prefix t s ||
  match s with
  | EmptyString => false
  | String _ s' => is_infix t s'
  end.

(** [val.includes(x)]: on an array or on a string. *)
Definition includes_value (val x : value) : result bool :=
  match val with
  | VArr l => Ok (includes l x)
  | VStr s => Ok (is_infix (ToString x) s)
  | _ => Throw TypeError
  end.

(** [...v] in an argument list. *)
Definition spread (v : value) : result (list value) :=
  match v with
  | VArr l => Ok l
  | VStr s => Ok (chars s)
  | _ => Throw TypeError
  end.

(** [TableMakerComponent._makeToggleCell(expanded)] *)
Definition makeToggleCell (expanded : bool) : node :=
  el "button" [("type", VStr "button"); ("className", VStr "detail-toggle");
               ("textContent", VStr (if expanded then "▼" else "▶︎"))] [].

Definition add_listener (l : listener) (n : node) : node :=
  match n with
  | Node tag props ls ch => Node tag props (ls ++ [l]) ch
  end.

Definition add_class (c : string) (n : node) : node :=
  match n with
  | Node tag props ls ch => Node tag (props ++ [("classList.add", VStr c)]) ls ch
  end.

(** [#computeRowClasses(row)] *)
Definition computeRowClasses (st : component) (row : value)
  : result (list value) :=
  rules <- as_array (member (style st) "row_styles") ;;
  foldM (fun classes rule =>
    criteria <- prop rule "criteria" ;;
    col <- prop criteria "col" ;;
    let val := member criteria "val" in
    cell <- prop row (ToString col) ;;
    if truthy cell then
      hit <- includes_value val (member cell "value") ;;
      if hit then (cs <- spread (member rule "classes") ;; Ok (classes ++ cs))
      else Ok classes
    else Ok classes) rules [].

(** [#buildRowButtons(row)] *)
Definition buildRowButtons (st : component) (row : value)
  : result (list node) :=
  defs <- as_array (member (style st) "row_buttons") ;;
  mapM (fun btnDef =>
    text <- prop btnDef "text" ;;
    let param := nullish (member btnDef "param") (VStr "") in
    has <- has_key row (ToString param) ;;
    args <- (if has
             then prop (member row (ToString param)) "value"
             else Ok (VStr "")) ;;
    ks <- entries btnDef ;;
    Ok (el "button"
          ([("textContent", text); ("dataset.args", args)]
           ++ map (fun kv : string * value =>
                     (("dataset." ++ fst kv)%string, snd kv)) ks
           ++ [("onclick",
                VStr (ToString (member btnDef "onclick") ++ "('"
                      ++ ToString args ++ "', '"
                      ++ JSON_stringify btnDef ++ "')")%string)])
          [])) defs.

(** The test [row._DETAILS_TABLE_ || row._DETAILS_OTHER_]. *)
Definition has_details (row : value) : bool :=
  truthy (member row "_DETAILS_TABLE_") || truthy (member row "_DETAILS_OTHER_").

(** [#buildDataRow(row, cols)] *)
Definition buildDataRow (st : component) (row : value)
  (cols : list (string * value)) : result node :=
  _ <- prop row "" ;;
  let tdArr :=
    map (fun kv : string * value =>
      let cell := nullish (member row (fst kv))
                    (VObj [("type", VStr COL_TYPES.TEXT);
                           ("value", VStr ""); ("disp", VStr "")]) in
      el "td" [("dataset.type", member cell "type");
               ("dataset.value", member cell "value");
               ("innerHTML", member cell "disp")] []) cols in
  classes <- computeRowClasses st row ;;
  let tds :=
    if has_details row
    then el "td" [] [add_listener ToggleHandler (makeToggleCell false)] :: tdArr
    else tdArr in
  btns <- (if length_positive (member (style st) "row_buttons")
           then (bs <- buildRowButtons st row ;; Ok [el "td" [] bs])
           else Ok []) ;;
  Ok (el "tr" [("className", VStr (join " " classes))] (tds ++ btns)).

(** [#buildDetailRow(row)]; [assign_data spec] stands for creating the nested
    [<table-maker>] and assigning [spec] to its [data], which renders the
    nested instance at once and may throw. *)
Definition buildDetailRow (assign_data : value -> result unit)
  (st : component) (row : value) : result node :=
  ks <- entries row ;;
  let colspan :=
    (Z.of_nat (List.length ks)
     + (if length_positive (member (style st) "row_buttons") then 1 else 0)
     + 1)%Z in
  nested <- (if truthy (member row "_DETAILS_TABLE_")
             then (_ <- assign_data (member row "_DETAILS_TABLE_") ;;
                   Ok [el "table-maker"
                         [("data", member row "_DETAILS_TABLE_")] []])
             else Ok []) ;;
  let pre :=
    if truthy (member row "_DETAILS_OTHER_")
    then [el "pre" [("textContent",
                     VStr (JSON_stringify (member row "_DETAILS_OTHER_")))] []]
    else [] in
  Ok (el "tr" [("className", VStr "detail-row"); ("style.display", VStr "none")]
        [el "td" [("colspan", VNum (nofZ colspan)); ("style.padding", VStr "0")]
           (nested ++ pre)]).


(** *** Columns and header *)

(** [#filterVisibleColumns(allCols)] *)
Definition filterVisibleColumns (st : component) (allCols : value)
  : result (list (string * value)) :=
  let groupCols :=
    match member (style st) "group_by" with
    | VArr gs => map (fun g => match g with
                               | VArr _ => member g "0"
                               | _ => g
                               end) gs
    | _ => []
    end in
  es <- entries allCols ;;
  foldM (fun visible (kv : string * value) =>
    let (col, info) := kv in
    s <- prop info "show" ;;
    let show := nullish s (VBool true) in
    if negb (includes groupCols (VStr col)) && truthy show
    then Ok (obj_set col info visible) else Ok visible) es [].

(** [#buildHeader(cols)] *)
Definition buildHeader (st : component) (cols : list (string * value))
  : node :=
  let thArr :=
    map (fun kv : string * value =>
      let (col, info) := kv in
      let sorted := same_value_zero (fst (sortedColumn st)) (VStr col) in
      Node "th"
        ([("dataset.key", VStr col);
          ("dataset.type",
           nullish (member info "type") (VStr COL_TYPES.TEXT));
          ("textContent",
           nullish (member info "disp")
             (nullish (member info "displayName") (VStr col)))]
         ++ (if sorted then [("classList.add", VStr "sorted")] else []))
        []
        [el "span"
           ([("className", VStr "sort-icon")]
            ++ (if sorted
                then [("textContent",
                       VStr (if snd (sortedColumn st) then "↑" else "↓"))]
                else [])) []]) cols in
  let thArr :=
    if truthy (member (style st) "expandableRows")
    then el "th" [] [] :: thArr else thArr in
  let ths :=
    if length_positive (member (style st) "row_buttons")
    then thArr ++ [el "th" [] []] else thArr in
  el "thead" [] [el "tr" [("classList.add", VStr "header")] ths].

(** *** Grouping *)

(** Step a) of [#buildBody]: the group-by column names and, per level,
    whether the direction is ['desc']. *)
Definition group_spec (group_by : list value)
  : result (list (value * bool)) :=
  mapM (fun entry =>
    match entry with
    | VArr _ =>
        let col := member entry "0" in
        let dir := member entry "1" in
        if truthy dir then
          match dir with
          | VStr d => Ok (col, String.eqb (toLowerCase d) "desc")
          | _ => Throw TypeError (* dir.toLowerCase is not a function *)
          end
        else Ok (col, false)
    | _ => Ok (entry, false)
    end) group_by.

(** [a[col]?.value] *)
Definition cell_value (row : value) (col : value) : value :=
  match member row (ToString col) with
  | VUndef | VNull => VUndef
  | cell => member cell "value"
  end.

(** Step b): the comparator handed to [sort]. *)
Fixpoint group_compare (spec : list (value * bool)) (a b : value) : num :=
  match spec with
  | [] => nofZ 0
  | (col, desc) :: spec' =>
      let av := nullish (cell_value a col) (VStr "") in
      let bv := nullish (cell_value b col) (VStr "") in
      let cmp :=
        match av, bv with
        | VNum x, VNum y => nsub x y
        | _, _ => localeCompare (ToString av) (ToString bv)
        end in
      if negb (neqb cmp (nofZ 0))
      then (if desc then nneg cmp else cmp)
      else group_compare spec' a b
  end.

(** Step c): the key of a row, like ["US|Electronics"]. *)
Definition group_key (spec : list (value * bool)) (row : value) : string :=
  join "|" (map (fun cd => cell_value row (fst cd)) spec).

(** Steps b) and c): the rows sorted, then chunked; the groups come in the
    enumeration order of their keys. *)
Definition sortedRows (spec : list (value * bool)) (rows : list value)
  : list value :=
  array_sort (group_compare spec) rows.

Definition groups_of (spec : list (value * bool)) (rows : list value)
  : list (string * list value) :=
  groupBy (group_key spec) (sortedRows spec rows).


Definition text_node (s : string) : node :=
  el "#text" [("data", VStr s)] [].

(** [firstCell.prepend(btn)] with [firstCell = tr.querySelector('td, th')]:
    the button goes first in the first cell of the row, if it has a cell. *)
Definition prepend_to_first_cell (btn : node) (tr : node) : node :=
  match tr with
  | Node tag props ls (Node ctag cprops cls cch :: rest) =>
      Node tag props ls (Node ctag cprops cls (btn :: cch) :: rest)
  | _ => tr
  end.

(** The detail row built inside [#groupTbody]. *)
Definition groupDetailRow (assign_data : value -> result unit)
  (st : component) (colsToShow : list (string * value)) (rowObj : value)
  : result node :=
  let colspan :=
    (Z.of_nat (List.length colsToShow)
     + (if length_positive (member (style st) "row_buttons") then 1 else 0)
     + 1)%Z in
  nested <- (if truthy (member rowObj "_DETAILS_TABLE_")
             then (_ <- assign_data (member rowObj "_DETAILS_TABLE_") ;;
                   Ok [el "table-maker"
                         [("data", member rowObj "_DETAILS_TABLE_")] []])
             else Ok []) ;;
  let pre :=
    if truthy (member rowObj "_DETAILS_OTHER_")
    then [el "pre" [("innerHTML",
                     VStr (JSON_stringify (member rowObj "_DETAILS_OTHER_")))]
            []]
    else [] in
  Ok (el "tr" [("className", VStr "detail-row"); ("style.display", VStr "none")]
        [el "td" [("colspan", VNum (nofZ colspan)); ("style.padding", VStr "0")]
           (nested ++ pre)]).

(** A data row followed by its detail row when it has one. *)
Definition row_with_detail
  (detail : value -> result node) (st : component)
  (cols : list (string * value)) (row : value) : result (list node) :=
  tr <- buildDataRow st row cols ;;
  if has_details row
  then (d <- detail row ;; Ok [tr; d])
  else Ok [tr].

Definition group_toggle : node :=
  add_listener ToggleHandler
    (add_class "group-toggle" (makeToggleCell false)).

(** [#groupTbody(groupRows, groupColNames, sortDirections, colsToShow,
    aggTrClass)] *)
Definition groupTbody (assign_data : value -> result unit) (st : component)
  (groupRows : list value) (spec : list (value * bool))
  (colsToShow : list (string * value)) (aggTrClass : string) : result node :=
  first <- match groupRows with
           | r :: _ => Ok r
           | [] => Throw TypeError
           end ;;
  let groupLabel :=
    String.concat " | "
      (map (fun cd : value * bool =>
         let cell := member first (ToString (fst cd)) in
         let disp :=
           nullish (match cell with
                    | VUndef | VNull => VUndef
                    | _ => member cell "disp"
                    end)
             (nullish (match cell with
                       | VUndef | VNull => VUndef
                       | _ => member cell "value"
                       end) (VStr "")) in
         (ToString (fst cd) ++ ": " ++ ToString disp)%string) spec) in
  trArrs <- mapM (row_with_detail (groupDetailRow assign_data st colsToShow)
                    st colsToShow) groupRows ;;
  let trArr := List.concat trArrs in
  aggTr <- (if negb (Nat.eqb (List.length (aggregateColumns st)) 0)
            then (tr <- subtotalRow st colsToShow groupRows groupLabel ;;
                  Ok (add_class aggTrClass tr))
            else Ok (text_node "")) ;;
  let hasTotalSpecifier :=
    existsb (fun col => TableMaker.is_str (member col "aggregate") "Total")
      (aggregateColumns st) in
  let members (rows : list node) :=
    el "tbody" [("classList.add", VStr "group-member");
                ("style.display", VStr "none")] rows in
  if hasTotalSpecifier then
    Ok (el "#fragment" []
          [prepend_to_first_cell group_toggle aggTr; members trArr])
  else
    let colspan :=
      (Z.of_nat (List.length colsToShow)
       + (if length_positive (member (style st) "row_buttons") then 1 else 0)
      )%Z in
    let headerTr :=
      el "tr" [("classList.add", VStr "group-header")]
        [el "td" [("colspan", VNum (nofZ colspan));
                  ("textContent", VStr groupLabel)] [group_toggle]] in
    Ok (el "#fragment" [] [headerTr; members (trArr ++ [aggTr])]).

(** [#buildBody(prepared)] *)
Definition buildBody (assign_data : value -> result unit) (st : component)
  (prepared : TableMaker.df) : result node :=
  let rows := TableMaker.df_rows prepared in
  let cols := TableMaker.df_cols prepared in
  match member (style st) "group_by" with
  | VArr (g :: gs) =>
      spec <- group_spec (g :: gs) ;;
      frags <- mapM (fun kg : string * list value =>
                 groupTbody assign_data st (snd kg) spec cols "group-footer")
                 (groups_of spec rows) ;;
      Ok (el "#fragment" [] frags)
  | _ =>
      trs <- mapM (row_with_detail (buildDetailRow assign_data st) st cols)
               rows ;;
      Ok (el "tbody" [] (List.concat trs))
  end.


(** *** Tables *)

Definition caption_nodes (st : component) : list node :=
  if truthy (member (tableData st) "caption")
  then [el "caption" [("innerHTML", member (tableData st) "caption")] []]
  else [].

(** The data both builds prepare: a deep copy of the rows with display
    cells, over the visible columns. *)
Definition prepare (st : component) : result TableMaker.df :=
  rows <- prop (tableData st) "rows" ;;
  copy <- json_clone rows ;;
  cols <- prop (tableData st) "cols" ;;
  visible <- filterVisibleColumns st cols ;;
  rs <- as_array copy ;;
  TableMaker.createCellDisplayValues
    {| TableMaker.df_rows := rs; TableMaker.df_cols := visible |}.

(** [#buildStandardTable()] *)
Definition buildStandardTable (assign_data : value -> result unit) : M node :=
  createAggregateColumnArray ;;;
  st <~ read (fun st => st) ;;
  prepared <~ lift (prepare st) ;;
  let thead :=
    add_listener HeaderClickHandler
      (buildHeader st (TableMaker.df_cols prepared)) in
  tbody <~ lift (buildBody assign_data st prepared) ;;
  tfoot <~ lift
    (if negb (Nat.eqb (List.length (aggregateColumns st)) 0)
     then (trFoot <- subtotalRow st (TableMaker.df_cols prepared)
                       (TableMaker.df_rows prepared) "" ;;
           Ok [el "tfoot" [("class", VStr "footer")]
                 [add_class "footer" trFoot]])
     else Ok []) ;;
  ret (el "table"
         [("style", nullish (member (style st) "table_style") (VStr ""))]
         (caption_nodes st ++ [thead; tbody] ++ tfoot)).

(** A transposed cell: [row[col].type] and [row[col].disp]. *)
Definition transposed_cell (tag : string) (col : string) (row : value)
  : result node :=
  cell <- prop row col ;;
  ty <- prop cell "type" ;;
  Ok (el tag [("data-type", ty); ("textContent", member cell "disp")] []).

(** [#transposeTable()]; the unused [columnsToShow] is left out. *)
Definition transposeTable : M node :=
  st <~ read (fun st => st) ;;
  prepared <~ lift (prepare st) ;;
  lift (
    let cols := TableMaker.df_cols prepared in
    let rows := TableMaker.df_rows prepared in
    let colClasses := nullish (member (style st) "col_classes") (VObj []) in
    let colTitlesFrom :=
      nullish (member (style st) "heading_col")
        (match cols with
         | (c, _) :: _ => VStr c
         | [] => VUndef
         end) in
    let key := ToString colTitlesFrom in
    d <- prop (get cols key) "disp" ;;
    let th0 := el "th" [("data-type", VStr COL_TYPES.TEXT);
                        ("textContent", nullish d colTitlesFrom)] [] in
    headCls <- as_array (nullish (member colClasses key) (VArr [])) ;;
    ths <- mapM (transposed_cell "th" key) rows ;;
    let thead :=
      el "thead" [] [el "tr" [("class", VStr (join " " headCls))]
                       (th0 :: ths)] in
    let bodyCols :=
      filter (fun kv : string * value =>
                negb (same_value_zero (VStr (fst kv)) colTitlesFrom)) cols in
    trs <- mapM (fun kv : string * value =>
             let (col, colInfo) := kv in
             let th := el "th" [("data-type", VStr COL_TYPES.TEXT);
                                ("textContent",
                                 nullish (member colInfo "disp") (VStr col))]
                         [] in
             tds <- mapM (transposed_cell "td" col) rows ;;
             trCls <- as_array (nullish (member colClasses col) (VArr [])) ;;
             Ok (el "tr" [("class", VStr (join " " trCls))] (th :: tds)))
             bodyCols ;;
    Ok (el "table"
          [("style", nullish (member (style st) "table_style") (VStr ""))]
          (caption_nodes st ++ [thead; el "tbody" [] trs]))).

Definition CSS_ALLOWED_TYPES : list string := ["default"; "blueTable"].

(** [TableMakerComponent.styles(cssType)]: the style sheet of a theme, named
    here by the theme it is assembled for. *)
Definition styles (cssType : value) : string :=
  match cssType with
  | VStr c => if existsb (String.eqb c) CSS_ALLOWED_TYPES
              then c else DEFAULTS.CSS_TYPE
  | _ => DEFAULTS.CSS_TYPE
  end.

(** [#render()] *)
Definition render (assign_data : value -> result unit) : M unit :=
  set_shadow [] ;;;
  d <~ read tableData ;;
  if negb (truthy d) then ret tt
  else
    default_style "row_buttons" (VArr []) ;;;
    default_style "row_styles" (VArr []) ;;;
    b <~ lift (rows <- prop d "rows" ;; hasDetailRows rows) ;;
    write_style "expandableRows" (VBool b) ;;;
    t <~ read transpose ;;
    tableEl <~ (if t then transposeTable else buildStandardTable assign_data) ;;
    s <~ read style ;;
    set_shadow [el "style" [("textContent", VStr (styles (member s "cssType")))]
                  []; tableEl].


(** *** Properties and methods *)

(** [get data()] *)
Definition get_data (st : component) : value := tableData st.

(** [set data(v)] *)
Definition set_data_with (assign_data : value -> result unit) (v : value)
  : M unit :=
  match v with
  | VStr s =>
      match JSON_parse s with
      | Some d =>
          set_tableData d false ;;;
          b <~ read batchMode ;;
          if b then ret tt else render assign_data
      | None =>
          (* this.#tableData = previous *)
          console_error
            [VStr ("Invalid JSON supplied to <table-maker> “data” attribute:"
              ++ nl)%string;
             VStr s] ;;;
          console_error [VStr "Parse error:"; VStr "SyntaxError"]
      end
  | _ =>
      set_tableData v false ;;;
      sty <~ lift (prop v "style") ;;
      (match sty with
       | VUndef | VNull => set_style (VObj []) false
       | _ => set_tableData v true ;;; set_style sty true
       end) ;;;
      default_style "cssType" (VStr DEFAULTS.CSS_TYPE) ;;;
      b <~ read batchMode ;;
      if b then ret tt else render assign_data
  end.

(** [get styleConfig()] *)
Definition get_styleConfig (st : component) : value := style st.

(** [set styleConfig(v)]; an object handed in is taken to be another object
    than the one at [#tableData.style]. *)
Definition set_styleConfig_with (assign_data : value -> result unit)
  (v : value) : M unit :=
  match v with
  | VStr s =>
      match JSON_parse s with
      | Some sty =>
          set_style sty false ;;;
          default_style "cssType" (VStr DEFAULTS.CSS_TYPE) ;;;
          b <~ read batchMode ;;
          if b then ret tt else render assign_data
      | None =>
          (* this.#style = previous *)
          console_error
            [VStr ("Invalid JSON supplied to <table-maker> “style-config” attribute:"
              ++ nl)%string;
             VStr s] ;;;
          console_error [VStr "Parse error:"; VStr "SyntaxError"]
      end
  | _ =>
      set_style v false ;;;
      default_style "cssType" (VStr DEFAULTS.CSS_TYPE) ;;;
      b <~ read batchMode ;;
      if b then ret tt else render assign_data
  end.

(** [set transpose(v)] *)
Definition set_transpose_with (assign_data : value -> result unit)
  (v : value) : M unit :=
  set_transpose_field (truthy v) ;;;
  b <~ read batchMode ;;
  if b then ret tt else render assign_data.

(** [beginBatch()] *)
Definition beginBatch : M unit := set_batchMode true.

(** [refresh()] *)
Definition refresh_with (assign_data : value -> result unit) : M unit :=
  set_batchMode false ;;; render assign_data.

(** Assigning [data] on a fresh nested instance, [depth] levels of nesting
    being allowed before the call stack gives out. *)
Fixpoint assign_nested (depth : nat) (spec : value) : result unit :=
  match depth with
  | O => Throw RangeError
  | S n => snd (set_data_with (assign_nested n) spec initial)
  end.

Section Depth.
(** How deep detail tables may nest. *)
Variable depth : nat.

Definition set_data : value -> M unit := set_data_with (assign_nested depth).
Definition set_styleConfig : value -> M unit :=
  set_styleConfig_with (assign_nested depth).
Definition set_transpose : value -> M unit :=
  set_transpose_with (assign_nested depth).
Definition refresh : M unit := refresh_with (assign_nested depth).
Definition rerender : M unit := render (assign_nested depth).

(** [attributeChangedCallback(name, oldV, newV)]; [hasTranspose] is
    [this.hasAttribute('transpose')]. *)
Definition attributeChangedCallback (name : string) (oldV newV : value)
  (hasTranspose : bool) : M unit :=
  if same_value_zero oldV newV then ret tt
  else if String.eqb name "data" then set_data newV
  else if String.eqb name "style-config" then set_styleConfig newV
  else if String.eqb name "transpose" then set_transpose (VBool hasTranspose)
  else ret tt.

(** [connectedCallback()], given the attributes that are present. *)
Definition connectedCallback (data styleConfig : option string)
  (hasTranspose : bool) : M unit :=
  (match data with Some s => set_data (VStr s) | None => ret tt end) ;;;
  (match styleConfig with
   | Some s => set_styleConfig (VStr s)
   | None => ret tt
   end) ;;;
  (if hasTranspose then set_transpose (VBool true) else ret tt) ;;;
  rerender.

(** *** Sorting *)

(** [normalize] inside [#sortBy], for a column of type [type]. *)
Definition normalize (type : string) (v : value) : value :=
  if String.eqb type COL_TYPES.MONEY2 && isArray v then
    let first := match v with
                 | VArr (x :: _) => ToNumber x
                 | _ => nofZ 0
                 end in
    VNum (if nis_finite first then first else nofZ 0)
  else if String.eqb type COL_TYPES.DATE then
    match new_Date v with
    | None => VNum neg_infinity
    | Some (t, _) => VNum t
    end
  else if negb (nis_nan (ToNumber v)) then VNum (ToNumber v)
  else match v with
       | VUndef | VNull => VStr ""
       | _ => VStr (ToString v)
       end.

(** [comparator] inside [#sortBy]. *)
Definition comparator (type : string) (columnKey : string) (a b : value)
  : num :=
  let na := normalize type (member a columnKey) in
  let nb := normalize type (member b columnKey) in
  match na, nb with
  | VStr x, VStr y => localeCompare_numeric_base x y
  | _, _ =>
      if nlt (ToNumber na) (ToNumber nb) then nofZ (-1)
      else if nlt (ToNumber nb) (ToNumber na) then nofZ 1
      else nofZ 0
  end.

(** The function handed to [sort]. *)
Definition sort_compare (type columnKey : string) (asc : bool) (a b : value)
  : num :=
  if asc then comparator type columnKey a b
  else nneg (comparator type columnKey a b).

(** The column type [#sortBy] goes by:
    [(colDef.type ?? '').toString().toLowerCase()]. *)
Definition column_sort_type (cols : value) (columnKey : string) : string :=
  let colDef :=
    nullish (match cols with
             | VUndef | VNull => VUndef
             | _ => member cols columnKey
             end) (VObj []) in
  toLowerCase (ToString (nullish (member colDef "type") (VStr ""))).

(** The rows as [#sortBy] leaves them. *)
Definition sorted_rows (cols : value) (columnKey : string) (asc : bool)
  (rows : list value) : list value :=
  array_sort (sort_compare (column_sort_type cols columnKey) columnKey asc)
    rows.

Definition is_null (v : value) : bool :=
  match v with
  | VNull => true
  | _ => false
  end.

(** [this.#tableData.rows.sort(...)]: the array held by the data object is
    sorted in place. *)
Definition sort_rows (columnKey : string) (asc : bool) : M unit :=
  modify (fun st =>
    {| tableData :=
         match tableData st with
         | VObj o =>
             match get o "rows" with
             | VArr rs =>
                 VObj (obj_update "rows"
                         (VArr (sorted_rows (get o "cols") columnKey asc rs))
                         o)
             | _ => tableData st
             end
         | d => d
         end;
       style := style st; style_shared := style_shared st;
       aggregateColumns := aggregateColumns st; transpose := transpose st;
       batchMode := batchMode st; sortedColumn := sortedColumn st;
       shadow := shadow st; console := console st;
       dispatched := dispatched st |}).

(** [#sortBy(columnKey, asc)].  The comparator reads [a[columnKey]], which
    throws on a [null] row as soon as two rows are compared; the array is
    then taken to be as it was. *)
Definition sortBy (columnKey : string) (asc : bool) : M unit :=
  d <~ read tableData ;;
  let rows := match d with
              | VUndef | VNull => VUndef
              | _ => member d "rows"
              end in
  if negb (truthy rows) then ret tt
  else
    rs <~ lift (as_array rows) ;;
    let compared := filter (fun v => negb (is_undefined v)) rs in
    (if (2 <=? List.length compared)%nat && existsb is_null compared
     then lift (Throw TypeError)
     else ret tt) ;;;
    sort_rows columnKey asc ;;;
    set_sortedColumn (VStr columnKey, asc) ;;;
    rerender.

(** The click listener of [#attachHeaderClickHandler], for a click on the
    header cell of column [col]. *)
Definition header_click (col : string) : M unit :=
  if String.eqb col "" then ret tt
  else
    sc <~ read sortedColumn ;;
    let newAsc :=
      if same_value_zero (fst sc) (VStr col) then negb (snd sc) else true in
    sortBy col newAsc.

End Depth.


(** *** Expand and collapse *)

Fixpoint set_prop (k : string) (x : value) (props : list (string * value))
  : list (string * value) :=
  match props with
  | [] => [(k, x)]
  | (k', y) :: props' =>
      if String.eqb k' k then (k', x) :: props'
      else (k', y) :: set_prop k x props'
  end.

Definition node_prop (k : string) (n : node) : value :=
  match n with
  | Node _ props _ _ => get props k
  end.

Definition node_set (k : string) (x : value) (n : node) : node :=
  match n with
  | Node tag props ls ch => Node tag (set_prop k x props) ls ch
  end.

Definition has_toggle (n : node) : bool :=
  match n with
  | Node _ _ ls _ => existsb (fun l => match l with
                                       | ToggleHandler => true
                                       | _ => false
                                       end) ls
  end.

(** The toggle button inside a row gets a new caret. *)
Fixpoint set_caret (caret : string) (n : node) : node :=
  match n with
  | Node tag props ls ch =>
      if has_toggle n
      then Node tag (set_prop "textContent" (VStr caret) props) ls ch
      else Node tag props ls (map (set_caret caret) ch)
  end.

(** An element's [style.display]; never assigned, it is the empty string. *)
Definition display (n : node) : value :=
  match node_prop "style.display" n with
  | VUndef => VStr ""
  | d => d
  end.

(** The handler of [#makeToggleHandler(toggleBtn)], for the button in the
    [i]-th of the sibling nodes [siblings]: the next sibling is shown or
    hidden and the caret swapped.  Nothing else happens. *)
Fixpoint toggle_click (siblings : list node) (i : nat)
  : result (list node) :=
  match siblings, i with
  | tr :: detailTr :: rest, O =>
      let expanded := TableMaker.is_str (display detailTr) "" in
      Ok (set_caret (if expanded then "▶︎" else "▼") tr
          :: node_set "style.display" (VStr (if expanded then "none" else ""))
               detailTr
          :: rest)
  | [_], O => Throw TypeError (* tr.nextElementSibling is null *)
  | [], _ => Throw TypeError
  | n :: rest, S j => ns <- toggle_click rest j ;; Ok (n :: ns)
  end.

(** The children of the node reached by [path], rewritten by [f]. *)
Fixpoint at_path (path : list nat)
  (f : list node -> result (list node)) (ns : list node) {struct path}
  : result (list node) :=
  match path with
  | [] => f ns
  | i :: path' =>
      (fix child (ns : list node) (i : nat) {struct ns} :=
         match ns, i with
         | [], _ => Throw TypeError
         | Node tag props ls ch :: rest, O =>
             ch' <- at_path path' f ch ;; Ok (Node tag props ls ch' :: rest)
         | n :: rest, S j => r <- child rest j ;; Ok (n :: r)
         end) ns i
  end.

(** A click on the toggle button of the [i]-th child of the node at [path]
    below the shadow root. *)
Definition click_toggle (path : list nat) (i : nat) : M unit :=
  ns <~ read shadow ;;
  ns' <~ lift (at_path path (fun sib => toggle_click sib i) ns) ;;
  set_shadow ns'.

End Component.

Declare Scope m_scope.
Notation "x <~ c ;; k" := (bindM c (fun x => k))
  (at level 61, c at next level, right associativity) : m_scope.
Notation "c ;;; k" := (bindM c (fun _ => k))
  (at level 61, right associativity) : m_scope.

End TableMakerComponent.

(** ** TabHandlerComponent: the [<tab-handler>] element *)

Module TabHandlerComponent.

(** A tab specification [{id?, title, tabs?, ...}]: [tabs] is there when
    [Array.isArray(spec.tabs)]. *)
Inductive tabSpec : Type :=
  | TabSpec (id : option string) (title : string)
            (tabs : option (list tabSpec)).

Definition spec_id (t : tabSpec) : option string :=
  match t with TabSpec id _ _ => id end.
Definition spec_title (t : tabSpec) : string :=
  match t with TabSpec _ title _ => title end.
Definition spec_tabs (t : tabSpec) : option (list tabSpec) :=
  match t with TabSpec _ _ tabs => tabs end.

(** The characters [a-zA-Z0-9_-]. *)
Definition css_char (c : ascii) : bool :=
  let n := nat_of_ascii c in
  (((97 <=? n) && (n <=? 122)) || ((65 <=? n) && (n <=? 90))
   || ((48 <=? n) && (n <=? 57)) || (n =? 95) || (n =? 45))%nat.

Definition is_digit (c : ascii) : bool :=
  let n := nat_of_ascii c in ((48 <=? n) && (n <=? 57))%nat.

(** [s.replace(/[^a-zA-Z0-9_-]/g, '_')] *)
Fixpoint replace_illegal (s : string) : string :=
  match s with
  | EmptyString => EmptyString
  | String c s' =>
      String (if css_char c then c else "_"%char) (replace_illegal s')
  end.

(** [s.replace(/_+/g, '_')] *)
Fixpoint collapse_underscores (s : string) : string :=
  match s with
  | EmptyString => EmptyString
  | String c s' =>
      match s' with
      | String c' _ =>
          if Ascii.eqb c "_"%char && Ascii.eqb c' "_"%char
          then collapse_underscores s'
          else String c (collapse_underscores s')
      | EmptyString => String c EmptyString
      end
  end.

(** [TabHandlerComponent._cssSafe(raw)] *)
Definition cssSafe (raw : string) : string :=
  let s := collapse_underscores (replace_illegal raw) in
  match s with
  | String c _ => if is_digit c then String "_"%char s else s
  | EmptyString => s
  end.

(** [('id' in t) ? t.id : t.title] *)
Definition entry_id (t : tabSpec) : string :=
  match spec_id t with
  | Some i => i
  | None => spec_title t
  end.

(** [('id' in t) ? t.id : _cssSafe(t.title)] *)
Definition leaf_id (t : tabSpec) : string :=
  match spec_id t with
  | Some i => i
  | None => cssSafe (spec_title t)
  end.

(** The detail of a [renderTab] event. *)
Record event : Type := {
  ev_path : list string;
  ev_tabID : string;
  ev_tabSpec : tabSpec
}.

(** A handler element with what [_renderTabs] put in its shadow root: one
    button and one content pane per entry.  [path] is [dataset.path] parsed,
    [None] when the attribute is missing. *)
Inductive handler : Type :=
  | Handler (id : string) (path : option (list string))
            (tabData : list tabSpec) (panes : list pane)
with pane : Type :=
  | Pane (entry : string)        (* the safe entry id in both element ids *)
         (active : bool)         (* the button has class [active] *)
         (display : string)      (* style.display of the content div *)
         (unrendered : bool)     (* dataset.unrendered === 'true' *)
         (spec : tabSpec)        (* dataset.tabSpec, parsed *)
         (children : list handler) (* nested handlers appended to the div *).

Definition h_id (h : handler) : string :=
  match h with Handler id _ _ _ => id end.
Definition h_path (h : handler) : option (list string) :=
  match h with Handler _ path _ _ => path end.
Definition h_tabData (h : handler) : list tabSpec :=
  match h with Handler _ _ tabData _ => tabData end.
Definition h_panes (h : handler) : list pane :=
  match h with Handler _ _ _ panes => panes end.

Definition p_entry (p : pane) : string :=
  match p with Pane e _ _ _ _ _ => e end.
Definition p_active (p : pane) : bool :=
  match p with Pane _ a _ _ _ _ => a end.
Definition p_display (p : pane) : string :=
  match p with Pane _ _ d _ _ _ => d end.
Definition p_unrendered (p : pane) : bool :=
  match p with Pane _ _ _ u _ _ => u end.
Definition p_spec (p : pane) : tabSpec :=
  match p with Pane _ _ _ _ s _ => s end.
Definition p_children (p : pane) : list handler :=
  match p with Pane _ _ _ _ _ c => c end.

(** What a call leaves: the handler, the events dispatched, and whether it
    returned or threw. *)
Definition outcome : Type := handler * list event * result unit.

(** The two [querySelectorAll(...).forEach] of [openTab]: every pane hidden,
    every button inactive. *)
Definition hide (p : pane) : pane :=
  match p with
  | Pane e _ _ u s c => Pane e false "none" u s c
  end.

(** [_populateTabWithoutOpening(id)] on the pane found for [id]. *)
Definition populate (path : option (list string)) (id : string) (p : pane)
  : pane * list event * result unit :=
  match p with
  | Pane e a d u s c =>
      if negb u then (p, [], Ok tt)
      else
        match path with
        | None => (p, [], Throw SyntaxError)
        | Some pth =>
            (Pane e a d false s c,
             [{| ev_path := pth; ev_tabID := id; ev_tabSpec := s |}],
             Ok tt)
        end
  end.

(** The body of [openTab(id)] over the panes, [open] being [openTab] on a
    nested handler: every pane is hidden and every button made inactive, the
    first pane with the content id of [id] is shown and its button made
    active; a nested handler in it has its first tab opened, a pane without
    one is populated.  Without such a pane [getElementById] gives [null] and
    the call throws. *)
Fixpoint select (open : handler -> string -> outcome)
  (path : option (list string)) (id : string) (ps : list pane)
  : list pane * list event * result unit :=
  match ps with
  | [] => ([], [], Throw TypeError)
  | Pane e a d u s c :: ps' =>
      if String.eqb e id then
        match c with
        | nested :: c' =>
            match h_tabData nested with
            | [] => (Pane e true "block" u s c :: map hide ps', [], Ok tt)
            | firstSpec :: _ =>
                match open nested (leaf_id firstSpec) with
                | (nested', evs, r) =>
                    (Pane e true "block" u s (nested' :: c') :: map hide ps',
                     evs, r)
                end
            end
        | [] =>
            match populate path id (Pane e true "block" u s c) with
            | (p', evs, r) => (p' :: map hide ps', evs, r)
            end
        end
      else
        match select open path id ps' with
        | (ps'', evs, r) => (hide (Pane e a d u s c) :: ps'', evs, r)
        end
  end.

(** [openTab(id)] *)
Fixpoint openTab (h : handler) (id : string) {struct h} : outcome :=
  match h with
  | Handler hid path tabData panes =>
      match select openTab path id panes with
      | (panes', evs, r) => (Handler hid path tabData panes', evs, r)
      end
  end.

(** The button and the placeholder content div of one entry. *)
Definition new_pane (t : tabSpec) : pane :=
  Pane (cssSafe (entry_id t)) false "none" true t [].

(** [parentContentDiv.appendChild(nested)], the div being the first element
    with the entry's content id. *)
Fixpoint append_child (e : string) (nested : handler) (ps : list pane)
  : list pane :=
  match ps with
  | [] => []
  | Pane e' a d u s c :: ps' =>
      if String.eqb e' e then Pane e' a d u s (c ++ [nested]) :: ps'
      else Pane e' a d u s c :: append_child e nested ps'
  end.

(** The second loop of [_renderTabs()], given [_createNestedHandlers] as
    [create parentId accumulatedPath spec]: the nested handler it made,
    rendered, for the entry's pane to take, or [None] when the entry has no
    child tabs.  [JSON.parse(this.dataset.path)] throws without a path. *)
Fixpoint nest (create : string -> list string -> tabSpec -> option outcome)
  (hid : string) (path : option (list string)) (specs : list tabSpec)
  (panes : list pane) : list pane * list event * result unit :=
  match specs with
  | [] => (panes, [], Ok tt)
  | spec :: specs' =>
      match spec_tabs spec with
      | Some (_ :: _) =>
          match path with
          | None => (panes, [], Throw SyntaxError)
          | Some accumulatedPath =>
              match create hid accumulatedPath spec with
              | Some (nested, evs, Ok _) =>
                  match
                    nest create hid path specs'
                      (append_child (cssSafe (entry_id spec)) nested panes)
                  with
                  | (panes', evs', r) => (panes', evs ++ evs', r)
                  end
              | Some (_, evs, Throw e) => (panes, evs, Throw e)
              | None => nest create hid path specs' panes
              end
          end
      | _ => nest create hid path specs' panes
      end
  end.

(** [_renderTabs()] on a handler with this id, path and tab data: the
    buttons and panes, the nested handlers, and the first tab opened. *)
Definition renderTabs_with
  (create : string -> list string -> tabSpec -> option outcome)
  (hid : string) (path : option (list string)) (tabData : list tabSpec)
  : outcome :=
  match nest create hid path tabData (map new_pane tabData) with
  | (panes, evs, Ok _) =>
      match tabData with
      | first :: _ =>
          match
            openTab (Handler hid path tabData panes) (cssSafe (entry_id first))
          with
          | (h, evs', r) => (h, evs ++ evs', r)
          end
      | [] => (Handler hid path tabData panes, evs, Ok tt)
      end
  | (panes, evs, Throw e) => (Handler hid path tabData panes, evs, Throw e)
  end.

(** [_createNestedHandlers(parentContentDiv, spec, parentId,
    accumulatedPath)]: the nested handler gets its id and path and then its
    [tabData], which renders it; the caller appends it to the pane. *)
Fixpoint createNestedHandlers (parentId : string)
  (accumulatedPath : list string) (spec : tabSpec) {struct spec}
  : option outcome :=
  match spec with
  | TabSpec _ _ (Some ((_ :: _) as tabs)) =>
      let nestedId := (parentId ++ "_nested_" ++ leaf_id spec)%string in
      Some (renderTabs_with createNestedHandlers nestedId
              (Some (accumulatedPath ++ [nestedId])) tabs)
  | _ => None
  end.

(** [_renderTabs()] *)
Definition renderTabs : string -> option (list string) -> list tabSpec
  -> outcome := renderTabs_with createNestedHandlers.

(** [set tabData(value)] for an array; anything else only warns. *)
Definition set_tabData (h : handler) (value : list tabSpec) : outcome :=
  renderTabs (h_id h) (h_path h) value.

(** [setTabContent(path, tabID, content)] at the handler that owns the pane
    ([path] of length one): the content replaces the pane's children and the
    pane is marked as rendered. *)
Fixpoint clear_unrendered (tabID : string) (ps : list pane) : list pane :=
  match ps with
  | [] => []
  | Pane e a d u s c :: ps' =>
      if String.eqb e tabID then Pane e a d false s [] :: ps'
      else Pane e a d u s c :: clear_unrendered tabID ps'
  end.

Definition setTabContent (h : handler) (tabID : string) : handler :=
  match h with
  | Handler hid path tabData panes =>
      Handler hid path tabData (clear_unrendered tabID panes)
  end.

End TabHandlerComponent.

(** ** TabHandlerComponent: further methods *)

Module TabHandlerMethods.
Import TabHandlerComponent.

(** [n.toString(16)] for a char code. *)
Definition toString16 (n : N) : string :=
  HexadecimalString.NilZero.string_of_uint (N.to_hex_uint n).

(** [s.padStart(2, '0')] *)
Definition padStart2 (s : string) : string :=
  match s with
  | EmptyString => "00"
  | String _ EmptyString => String "0" s
  | _ => s
  end.

(** [stringToHex(str)], the string given by its UTF-16 code units as
    [charCodeAt] reads them. *)
Definition stringToHex (str : list N) : string :=
  fold_left (fun hex charCode => (hex ++ padStart2 (toString16 charCode))%string)
    str "".

End TabHandlerMethods.

(** ** TabHandlerComponent: paths through nested handlers *)

Module TabHandlerPaths.
Import TabHandlerComponent.

(** [`${ownerId}_nested_${leafId}`], the id of a nested handler. *)
Definition nested_id (ownerId leafId : string) : string :=
  (ownerId ++ "_nested_" ++ leafId)%string.

(** [currentSpecArray.find(t => t.title === title)]; every specification
    here has a title, so that [t.title ?? t.id] is the title as well. *)
Definition find_title (title : string) (currentSpecArray : list tabSpec)
  : option tabSpec :=
  find (fun t => String.eqb (spec_title t) title) currentSpecArray.

(** The loop of [resolveTitlePath(titlePath)] from some title on.  The
    object returned has the members [path], [tabID] and [tabSpec], like the
    detail of a [renderTab] event. *)
Fixpoint resolve (ownerId : string) (path : list string)
  (currentSpecArray : list tabSpec) (titlePath : list string)
  : option event :=
  match titlePath with
  | [] => None
  | title :: rest =>
      match find_title title currentSpecArray with
      | None => None
      | Some entry =>
          let leafId := leaf_id entry in
          match rest with
          | [] =>
              Some {| ev_path := path; ev_tabID := leafId;
                      ev_tabSpec := entry |}
          | _ :: _ =>
              let nestedHandlerId := nested_id ownerId leafId in
              match spec_tabs entry with
              | None => None
              | Some tabs =>
                  resolve nestedHandlerId (path ++ [nestedHandlerId]) tabs
                    rest
              end
          end
      end
  end.

(** [resolveTitlePath(titlePath)]; [None] is [null]. *)
Definition resolveTitlePath (h : handler) (titlePath : list string)
  : option event :=
  resolve (h_id h) [h_id h] (h_tabData h) titlePath.

(** What [_tabSpecFromPath] returns: [{spec, parentId, leafId}]. *)
Record specInfo : Type := {
  si_spec : tabSpec;
  si_parentId : string;
  si_leafId : string
}.

(** The loop of [_tabSpecFromPath(path)] from some segment on; [thisId] is
    [this.id]. *)
Fixpoint tabSpec_from (thisId parentId : string)
  (currentSpecArray : list tabSpec) (path : list string)
  : option specInfo :=
  match path with
  | [] => None
  | title :: rest =>
      match find_title title currentSpecArray with
      | None => None
      | Some entry =>
          let leafId := leaf_id entry in
          match rest with
          | [] =>
              Some {| si_spec := entry; si_parentId := parentId;
                      si_leafId := leafId |}
          | _ :: _ =>
              match spec_tabs entry with
              | None => None
              | Some tabs =>
                  tabSpec_from thisId (nested_id thisId leafId) tabs rest
              end
          end
      end
  end.

(** [_tabSpecFromPath(path)] *)
Definition tabSpecFromPath (h : handler) (path : list string)
  : option specInfo :=
  tabSpec_from (h_id h) (h_id h) (h_tabData h) path.

(** The elements with an id in a handler's shadow root: the buttons of the
    bar, the content panes, and the handlers appended to the panes.  What is
    inside a nested handler is in that handler's own shadow root. *)
Inductive element : Type :=
  | Button (p : pane)
  | Content (p : pane)
  | Nested (h : handler).

(** [`tab_${this.id}_${safeEntryId}`] *)
Definition button_id (hid : string) (p : pane) : string :=
  ("tab_" ++ hid ++ "_" ++ p_entry p)%string.

(** [`tabcontent_${this.id}_${safeEntryId}`] *)
Definition content_id (hid : string) (p : pane) : string :=
  ("tabcontent_" ++ hid ++ "_" ++ p_entry p)%string.

(** The first of the panes and of the handlers in them with the id [x], in
    document order: a pane comes before what was appended to it. *)
Fixpoint in_panes (hid x : string) (ps : list pane) : option element :=
  match ps with
  | [] => None
  | p :: ps' =>
      if String.eqb (content_id hid p) x then Some (Content p)
      else
        match find (fun c => String.eqb (h_id c) x) (p_children p) with
        | Some c => Some (Nested c)
        | None => in_panes hid x ps'
        end
  end.

(** [this.shadowRoot.getElementById(x)]: the bar with its buttons comes
    first, the panes follow. *)
Definition getElementById (h : handler) (x : string) : option element :=
  match find (fun p => String.eqb (button_id (h_id h) p) x) (h_panes h) with
  | Some p => Some (Button p)
  | None => in_panes (h_id h) x (h_panes h)
  end.

(** The nested handler that [getElementById(x)] found is the same object
    after a call on it: [c'] takes the place of the first handler with the
    id [x]. *)
Fixpoint put_child (x : string) (c' : handler) (cs : list handler)
  : list handler :=
  match cs with
  | [] => []
  | c :: cs' =>
      if String.eqb (h_id c) x then c' :: cs' else c :: put_child x c' cs'
  end.

Fixpoint put_nested (x : string) (c' : handler) (ps : list pane)
  : list pane :=
  match ps with
  | [] => []
  | Pane e a d u s c :: ps' =>
      if existsb (fun c0 => String.eqb (h_id c0) x) c
      then Pane e a d u s (put_child x c' c) :: ps'
      else Pane e a d u s c :: put_nested x c' ps'
  end.

(** [setTabContent(path, tabID, content)].  A path that is empty or does
    not start with the id of this handler is left alone.  With more than
    one id in the path the call goes on in the handler that has the second
    id; [getElementById] giving [null], or an element that is no handler,
    makes the call throw.  At the end of the path the content goes into the
    pane of [tabID]; without such a pane [contentDiv] is [null] and the call
    throws. *)
Fixpoint setTabContentPath (path : list string) (tabID : string)
  (h : handler) {struct path} : handler * result unit :=
  match path with
  | [] => (h, Ok tt)
  | first :: rest =>
      if negb (String.eqb first (h_id h)) then (h, Ok tt)
      else
        match rest with
        | second :: _ =>
            match getElementById h second with
            | Some (Nested nested) =>
                match setTabContentPath rest tabID nested with
                | (nested', r) =>
                    (Handler (h_id h) (h_path h) (h_tabData h)
                       (put_nested second nested' (h_panes h)), r)
                end
            | _ => (h, Throw TypeError)
            end
        | [] =>
            if existsb (fun p => String.eqb (p_entry p) tabID) (h_panes h)
            then (setTabContent h tabID, Ok tt)
            else (h, Throw TypeError)
        end
  end.

(** A click on the button of the entry [id] in the handler that the ids of
    [path] lead to, the first of them being the id of [h] itself:
    [btn.onclick = e => this.openTab(safeEntryId)].  Where the ids lead to
    no handler there is no such button and nothing happens. *)
Fixpoint click (path : list string) (id : string) (h : handler)
  {struct path} : outcome :=
  match path with
  | [] => (h, [], Ok tt)
  | first :: rest =>
      if negb (String.eqb first (h_id h)) then (h, [], Ok tt)
      else
        match rest with
        | second :: _ =>
            match getElementById h second with
            | Some (Nested nested) =>
                match click rest id nested with
                | (nested', evs, r) =>
                    (Handler (h_id h) (h_path h) (h_tabData h)
                       (put_nested second nested' (h_panes h)), evs, r)
                end
            | _ => (h, [], Ok tt)
            end
        | [] => openTab h id
        end
  end.

End TabHandlerPaths.

(** ** The editor page: tabs *)

Module Editor.

(** One entry of [tabs].  A [CodeMirror.Doc] is an object and is held by
    reference: [t_doc] names the document, and [cursor] of the page gives
    each document its cursor.  The text of a document is not read by the
    functions below. *)
Record tab : Type := {
  t_id : string;
  t_name : string;
  t_doc : nat;
  t_mode : option string;
  t_dirty : bool
}.

(** A tab of the strip as [renderTabs] builds it; the close button and the
    two click handlers, which call [closeTab] and [switchToTab] with the id,
    are left out. *)
Record tabEl : Type := {
  className : string;
  dataset_id : string;
  title : string;
  textContent : string
}.

(** The variables of the script and what it shows. *)
Record page : Type := {
  tabs : list tab;
  activeTabId : option string;       (* [null] at first *)
  tabCounter : nat;
  next_doc : nat;                    (* the documents created so far *)
  cursor : nat -> nat * nat;         (* line and ch of each document *)
  editor_doc : nat;                  (* [editor.getDoc()] *)
  editor_mode : option string;       (* the editor's [mode] option *)
  modeSelect_value : string;         (* as assigned *)
  tabsEl : list tabEl;               (* the children of the strip *)
  statusBar : string;
  focused : nat                      (* calls of [editor.focus()] *)
}.

(** [mode || null] *)
Definition or_null (mode : option string) : option string :=
  match mode with
  | Some "" => None
  | m => m
  end.

Definition decimal (n : nat) : string := NilZero.string_of_uint (Nat.to_uint n).

(** [tabs.find(x => x.id === id)] *)
Definition find_tab (id : string) (ts : list tab) : option tab :=
  find (fun x => String.eqb (t_id x) id) ts.

(** [findTabIndex(id)]: [None] stands for -1. *)
Fixpoint findTabIndex (id : string) (ts : list tab) : option nat :=
  match ts with
  | [] => None
  | x :: ts' =>
      if String.eqb (t_id x) id then Some 0%nat
      else option_map S (findTabIndex id ts')
  end.

(** [t.id === activeTabId] *)
Definition is_active (active : option string) (id : string) : bool :=
  match active with
  | Some a => String.eqb id a
  | None => false
  end.

(** [renderTabs()] *)
Definition renderTabs (st : page) : page :=
  {| tabs := tabs st; activeTabId := activeTabId st;
     tabCounter := tabCounter st; next_doc := next_doc st;
     cursor := cursor st; editor_doc := editor_doc st;
     editor_mode := editor_mode st;
     modeSelect_value := modeSelect_value st;
     tabsEl :=
       map (fun t =>
              {| className :=
                   ("tab" ++ (if is_active (activeTabId st) (t_id t)
                              then " active" else ""))%string;
                 dataset_id := t_id t;
                 title := t_name t;
                 textContent := t_name t |}) (tabs st);
     statusBar := statusBar st; focused := focused st |}.

(** [updateStatus(msg)]; a missing [msg] is the empty string. *)
Definition updateStatus (msg : string) (st : page) : page :=
  let pos := cursor st (editor_doc st) in
  let tab := match activeTabId st with
             | Some a => find_tab a (tabs st)
             | None => None
             end in
  let name := match tab with
              | Some t => if String.eqb (t_name t) "" then "Untitled"
                          else t_name t
              | None => "Untitled"
              end in
  let extra := if String.eqb msg "" then "" else (" — " ++ msg)%string in
  {| tabs := tabs st; activeTabId := activeTabId st;
     tabCounter := tabCounter st; next_doc := next_doc st;
     cursor := cursor st; editor_doc := editor_doc st;
     editor_mode := editor_mode st;
     modeSelect_value := modeSelect_value st;
     tabsEl := tabsEl st;
     statusBar := (name ++ extra ++ " — Line " ++ decimal (fst pos + 1)
                   ++ ", Col " ++ decimal (snd pos + 1))%string;
     focused := focused st |}.

(** [cur.doc = d] on the first tab with this id. *)
Fixpoint store_doc (id : string) (d : nat) (ts : list tab) : list tab :=
  match ts with
  | [] => []
  | x :: ts' =>
      if String.eqb (t_id x) id
      then {| t_id := t_id x; t_name := t_name x; t_doc := d;
              t_mode := t_mode x; t_dirty := t_dirty x |} :: ts'
      else x :: store_doc id d ts'
  end.

(** [switchToTab(id)] *)
Definition switchToTab (id : string) (st : page) : page :=
  if is_active (activeTabId st) id then st
  else
    (* save current doc back into its tab object *)
    let ts := match activeTabId st with
              | Some a => if String.eqb a "" then tabs st
                          else store_doc a (editor_doc st) (tabs st)
              | None => tabs st
              end in
    match find_tab id ts with
    | None =>
        {| tabs := ts; activeTabId := activeTabId st;
           tabCounter := tabCounter st; next_doc := next_doc st;
           cursor := cursor st; editor_doc := editor_doc st;
           editor_mode := editor_mode st;
           modeSelect_value := modeSelect_value st;
           tabsEl := tabsEl st; statusBar := statusBar st;
           focused := focused st |}
    | Some tab =>
        let st1 :=
          {| tabs := ts; activeTabId := Some id;
             tabCounter := tabCounter st; next_doc := next_doc st;
             cursor := cursor st; editor_doc := t_doc tab;
             editor_mode := or_null (t_mode tab);
             modeSelect_value :=
               match or_null (t_mode tab) with
               | Some m => m
               | None => "null"
               end;
             tabsEl := tabsEl st; statusBar := statusBar st;
             focused := focused st |} in
        let st2 := updateStatus "" (renderTabs st1) in
        {| tabs := tabs st2; activeTabId := activeTabId st2;
           tabCounter := tabCounter st2; next_doc := next_doc st2;
           cursor := cursor st2; editor_doc := editor_doc st2;
           editor_mode := editor_mode st2;
           modeSelect_value := modeSelect_value st2;
           tabsEl := tabsEl st2; statusBar := statusBar st2;
           focused := S (focused st2) |}
    end.

(** [createTab(name, mode)]: the new id and the page. *)
Definition createTab (name : string) (mode : option string) (st : page)
  : string * page :=
  let counter := S (tabCounter st) in
  let id := ("tab-" ++ decimal counter)%string in
  let doc := next_doc st in
  let st1 :=
    {| tabs := tabs st
               ++ [{| t_id := id; t_name := name; t_doc := doc;
                      t_mode := or_null mode; t_dirty := false |}];
       activeTabId := activeTabId st;
       tabCounter := counter; next_doc := S doc;
       cursor := fun d => if Nat.eqb d doc then (0%nat, 0%nat)
                          else cursor st d;
       editor_doc := editor_doc st;
       editor_mode := editor_mode st;
       modeSelect_value := modeSelect_value st;
       tabsEl := tabsEl st; statusBar := statusBar st;
       focused := focused st |} in
  (id, switchToTab id (renderTabs st1)).

(** [tabs.splice(idx, 1)] *)
Fixpoint splice1 (idx : nat) (ts : list tab) : list tab :=
  match ts, idx with
  | [], _ => []
  | _ :: ts', O => ts'
  | x :: ts', S i => x :: splice1 i ts'
  end.

Definition with_tabs (ts : list tab) (st : page) : page :=
  {| tabs := ts; activeTabId := activeTabId st;
     tabCounter := tabCounter st; next_doc := next_doc st;
     cursor := cursor st; editor_doc := editor_doc st;
     editor_mode := editor_mode st;
     modeSelect_value := modeSelect_value st;
     tabsEl := tabsEl st; statusBar := statusBar st;
     focused := focused st |}.

(** [closeTab(id)] *)
Definition closeTab (id : string) (st : page) : page :=
  match findTabIndex id (tabs st) with
  | None => st
  | Some idx =>
      (* If closing active tab, switch to neighbor *)
      let st1 :=
        if is_active (activeTabId st) id then
          let nextIdx :=
            match idx with
            | S i => Some i
            | O => if (1 <? List.length (tabs st))%nat then Some 1%nat
                   else None
            end in
          match nextIdx with
          | Some n =>
              match nth_error (tabs st) n with
              | Some t => switchToTab (t_id t) st
              | None => st
              end
          | None => st
          end
        else st in
      let st2 := with_tabs (splice1 idx (tabs st1)) st1 in
      let st3 := match tabs st2 with
                 | [] => snd (createTab "untitled.txt" None st2)
                 | _ :: _ => st2
                 end in
      renderTabs st3
  end.

(** The page as the script leaves it when it has run: no tab yet, then
    [createTab('untitled.txt', null)].  Document 0 is the one the editor
    was made with. *)
Definition blank : page :=
  {| tabs := []; activeTabId := None; tabCounter := 0; next_doc := 1;
     cursor := fun _ => (0%nat, 0%nat); editor_doc := 0;
     editor_mode := None; modeSelect_value := ""; tabsEl := [];
     statusBar := ""; focused := 0 |}.

Definition start : page := snd (createTab "untitled.txt" None blank).

(** What the user and the handlers of the page call. *)
Inductive action : Type :=
  | CreateTab (name : string) (mode : option string)
  | SwitchToTab (id : string)
  | CloseTab (id : string).

Definition act (st : page) (a : action) : page :=
  match a with
  | CreateTab name mode => snd (createTab name mode st)
  | SwitchToTab id => switchToTab id st
  | CloseTab id => closeTab id st
  end.

End Editor.

(** ** A host to run the code on

    Integers with NaN and the infinities for numbers, en-US digit grouping
    for [Intl], byte order for [localeCompare], and a reader for the JSON
    made of integers, plain strings, arrays and objects. *)

Module Demo.

Inductive dnum : Type := DNaN | DNegInf | DPosInf | DInt (z : Z).

Definition dadd (a b : dnum) : dnum :=
  match a, b with
  | DNaN, _ | _, DNaN => DNaN
  | DNegInf, DPosInf | DPosInf, DNegInf => DNaN
  | DNegInf, _ | _, DNegInf => DNegInf
  | DPosInf, _ | _, DPosInf => DPosInf
  | DInt x, DInt y => DInt (x + y)
  end.

Definition dneg (a : dnum) : dnum :=
  match a with
  | DNaN => DNaN
  | DNegInf => DPosInf
  | DPosInf => DNegInf
  | DInt x => DInt (- x)
  end.

Definition dsign (a : dnum) : Z :=
  match a with
  | DNaN => 0
  | DNegInf => -1
  | DPosInf => 1
  | DInt x => Z.sgn x
  end.

Definition dmul (a b : dnum) : dnum :=
  match a, b with
  | DInt x, DInt y => DInt (x * y)
  | DNaN, _ | _, DNaN => DNaN
  | _, _ =>
      match (dsign a * dsign b)%Z with
      | Z0 => DNaN
      | Zpos _ => DPosInf
      | Zneg _ => DNegInf
      end
  end.

(** Division of integers is exact only when it comes out even; this host
    rounds towards minus infinity otherwise. *)
Definition ddiv (a b : dnum) : dnum :=
  match a, b with
  | DNaN, _ | _, DNaN => DNaN
  | DInt x, DInt y =>
      if (y =? 0)%Z then
        match x with Z0 => DNaN | Zpos _ => DPosInf | Zneg _ => DNegInf end
      else DInt (x / y)
  | DInt _, _ => DInt 0
  | _, DInt y =>
      match (dsign a * Z.sgn y)%Z with
      | Zneg _ => DNegInf
      | _ => DPosInf
      end
  | _, _ => DNaN
  end.

Definition dlt (a b : dnum) : bool :=
  match a, b with
  | DNaN, _ | _, DNaN => false
  | DInt x, DInt y => (x <? y)%Z
  | DNegInf, DNegInf | DPosInf, _ | _, DNegInf => false
  | DNegInf, _ | _, DPosInf => true
  end.

Definition deqb (a b : dnum) : bool :=
  match a, b with
  | DInt x, DInt y => (x =? y)%Z
  | DNegInf, DNegInf | DPosInf, DPosInf => true
  | _, _ => false
  end.

Definition dto_string (a : dnum) : string :=
  match a with
  | DNaN => "NaN"
  | DNegInf => "-Infinity"
  | DPosInf => "Infinity"
  | DInt x => NilZero.string_of_int (Z.to_int x)
  end.

Definition dof_string (s : string) : dnum :=
  if String.eqb s "" then DInt 0
  else if String.eqb s "Infinity" then DPosInf
  else if String.eqb s "-Infinity" then DNegInf
  else match NilZero.int_of_string s with
       | Some i => DInt (Z.of_int i)
       | None => DNaN
       end.

#[export] Instance DemoNum : Num := {|
  num := dnum;
  nofZ := DInt;
  nan := DNaN;
  neg_infinity := DNegInf;
  nadd := dadd;
  nsub := fun a b => dadd a (dneg b);
  nmul := dmul;
  ndiv := ddiv;
  nneg := dneg;
  nlt := dlt;
  neqb := deqb;
  nsign := dsign;
  nis_nan := fun a => match a with DNaN => true | _ => false end;
  nis_finite := fun a => match a with DInt _ => true | _ => false end;
  num_to_string := dto_string;
  string_to_number := dof_string
|}.

(** Digits in groups of three, from the right. *)
Fixpoint group3 (rev_digits : list ascii) (k : nat) : list ascii :=
  match rev_digits with
  | [] => []
  | d :: ds =>
      match k, ds with
      | 2%nat, _ :: _ => d :: ","%char :: group3 ds 0
      | _, _ => d :: group3 ds (S k)
      end
  end.

Definition grouped (n : N) : string :=
  string_of_list_ascii
    (rev (group3 (rev (list_ascii_of_string
                         (NilZero.string_of_uint (N.to_uint n)))) 0)).

Fixpoint zeros (k : nat) : string :=
  match k with
  | O => ""
  | S k' => String "0"%char (zeros k')
  end.

(** An integer with [digits] fraction digits. *)
Definition fixed (group : bool) (x : Z) (digits : nat) : string :=
  ((if (x <? 0)%Z then "-" else "")
   ++ (if group then grouped (Z.abs_N x)
       else NilZero.string_of_uint (N.to_uint (Z.abs_N x)))
   ++ (match digits with
       | O => ""
       | _ => "." ++ zeros digits
       end))%string.

(** Fraction digits must be an integer from 0 to 100. *)
Definition fraction_digits (v : value) : result nat :=
  match v with
  | VNum (DInt d) =>
      if ((0 <=? d) && (d <=? 100))%Z then Ok (Z.to_nat d)
      else Throw RangeError
  | _ => Throw RangeError
  end.

Definition number_text (group : bool) (n : dnum) (digits : nat) : string :=
  match n with
  | DInt x => fixed group x digits
  | DNaN => "NaN"
  | DPosInf => "∞"
  | DNegInf => "-∞"
  end.

Definition upper (c : ascii) : ascii :=
  let n := nat_of_ascii c in
  if ((97 <=? n) && (n <=? 122))%nat then ascii_of_nat (n - 32) else c.

Definition lower (c : ascii) : ascii :=
  let n := nat_of_ascii c in
  if ((65 <=? n) && (n <=? 90))%nat then ascii_of_nat (n + 32) else c.

Fixpoint map_string (f : ascii -> ascii) (s : string) : string :=
  match s with
  | EmptyString => EmptyString
  | String c s' => String (f c) (map_string f s')
  end.

Definition currency_symbol (cur : string) : string :=
  if String.eqb cur "INR" then "₹"
  else if String.eqb cur "USD" then "$"
  else if String.eqb cur "EUR" then "€"
  else (cur ++ " ")%string.

Definition dintl_format (locale : option string) (opts : nf_options)
  (amount : value) : result string :=
  if negb (Nat.eqb (String.length (nf_currency opts)) 3) then Throw RangeError
  else
    bind (fraction_digits (nf_minimumFractionDigits opts)) (fun d =>
    Ok (currency_symbol (nf_currency opts)
        ++ number_text true (ToNumber amount) d)%string).

Definition compare_num (c : comparison) : dnum :=
  match c with
  | Lt => DInt (-1)
  | Eq => DInt 0
  | Gt => DInt 1
  end.


(** *** Reading and printing JSON *)

(** The double quote. *)
Definition dq : ascii := ascii_of_nat 34.

Definition is_ws (c : ascii) : bool :=
  let n := nat_of_ascii c in
  ((n =? 32) || (n =? 10) || (n =? 13) || (n =? 9))%nat.

Fixpoint skip_ws (s : list ascii) : list ascii :=
  match s with
  | c :: s' => if is_ws c then skip_ws s' else s
  | [] => []
  end.

Fixpoint take_prefix (p : list ascii) (s : list ascii)
  : option (list ascii) :=
  match p, s with
  | [], _ => Some s
  | a :: p', b :: s' => if Ascii.eqb a b then take_prefix p' s' else None
  | _ :: _, [] => None
  end.

(** The characters of a string up to its closing quote; escapes are not
    read. *)
Fixpoint read_string (s : list ascii) : option (string * list ascii) :=
  match s with
  | [] => None
  | c :: s' =>
      if Ascii.eqb c dq then Some (EmptyString, s')
      else if Ascii.eqb c "\"%char then None
      else match read_string s' with
           | Some (t, rest) => Some (String c t, rest)
           | None => None
           end
  end.

Fixpoint read_digits (s : list ascii) : list ascii * list ascii :=
  match s with
  | c :: s' =>
      if TabHandlerComponent.is_digit c
      then let (ds, rest) := read_digits s' in (c :: ds, rest)
      else ([], s)
  | [] => ([], [])
  end.

(** An integer: no leading zero, no fraction, no exponent. *)
Definition read_number (s : list ascii) : option (value * list ascii) :=
  let (neg, s1) := match s with
                   | c :: s' => if Ascii.eqb c "-"%char then (true, s')
                                else (false, s)
                   | [] => (false, s)
                   end in
  let (ds, rest) := read_digits s1 in
  match ds, rest with
  | [], _ => None
  | c :: _ :: _, _ =>
      if Ascii.eqb c "0"%char then None
      else match rest with
           | r :: _ =>
               if Ascii.eqb r "."%char || Ascii.eqb r "e"%char
                  || Ascii.eqb r "E"%char then None
               else match NilZero.uint_of_string (string_of_list_ascii ds) with
                    | Some u =>
                        let z := Z.of_N (N.of_uint u) in
                        Some (VNum (DInt (if neg then - z else z)), rest)
                    | None => None
                    end
           | [] => match NilZero.uint_of_string (string_of_list_ascii ds) with
                   | Some u =>
                       let z := Z.of_N (N.of_uint u) in
                       Some (VNum (DInt (if neg then - z else z)), rest)
                   | None => None
                   end
           end
  | [_], r :: _ =>
      if Ascii.eqb r "."%char || Ascii.eqb r "e"%char || Ascii.eqb r "E"%char
      then None
      else match NilZero.uint_of_string (string_of_list_ascii ds) with
           | Some u =>
               let z := Z.of_N (N.of_uint u) in
               Some (VNum (DInt (if neg then - z else z)), rest)
           | None => None
           end
  | [_], [] =>
      match NilZero.uint_of_string (string_of_list_ascii ds) with
      | Some u =>
          let z := Z.of_N (N.of_uint u) in
          Some (VNum (DInt (if neg then - z else z)), rest)
      | None => None
      end
  end.

Fixpoint read_value (fuel : nat) (s : list ascii) {struct fuel}
  : option (value * list ascii) :=
  match fuel with
  | O => None
  | S fuel' =>
      let fix read_elements (k : nat) (s : list ascii) {struct k}
        : option (list value * list ascii) :=
        match k with
        | O => None
        | S k' =>
            match read_value fuel' s with
            | Some (v, rest) =>
                match skip_ws rest with
                | c :: rest' =>
                    if Ascii.eqb c ","%char then
                      match read_elements k' rest' with
                      | Some (vs, r) => Some (v :: vs, r)
                      | None => None
                      end
                    else if Ascii.eqb c "]"%char then Some ([v], rest')
                    else None
                | [] => None
                end
            | None => None
            end
        end in
      let fix read_members (k : nat) (s : list ascii) {struct k}
        : option (list (string * value) * list ascii) :=
        match k with
        | O => None
        | S k' =>
            match skip_ws s with
            | q :: s1 =>
                if Ascii.eqb q dq then
                  match read_string s1 with
                  | Some (key, s2) =>
                      match skip_ws s2 with
                      | c :: s3 =>
                          if Ascii.eqb c ":"%char then
                            match read_value fuel' s3 with
                            | Some (v, rest) =>
                                match skip_ws rest with
                                | d :: rest' =>
                                    if Ascii.eqb d ","%char then
                                      match read_members k' rest' with
                                      | Some (ms, r) =>
                                          Some ((key, v) :: ms, r)
                                      | None => None
                                      end
                                    else if Ascii.eqb d "}"%char
                                    then Some ([(key, v)], rest')
                                    else None
                                | [] => None
                                end
                            | None => None
                            end
                          else None
                      | [] => None
                      end
                  | None => None
                  end
                else None
            | [] => None
            end
        end in
      match skip_ws s with
      | [] => None
      | c :: s' =>
          if Ascii.eqb c dq then
            match read_string s' with
            | Some (t, rest) => Some (VStr t, rest)
            | None => None
            end
          else if Ascii.eqb c "["%char then
            match skip_ws s' with
            | d :: s'' =>
                if Ascii.eqb d "]"%char then Some (VArr [], s'')
                else match read_elements fuel' s' with
                     | Some (vs, rest) => Some (VArr vs, rest)
                     | None => None
                     end
            | [] => None
            end
          else if Ascii.eqb c "{"%char then
            match skip_ws s' with
            | d :: s'' =>
                if Ascii.eqb d "}"%char then Some (VObj [], s'')
                else match read_members fuel' s' with
                     | Some (ms, rest) =>
                         Some (VObj (fold_left
                                       (fun o kv => obj_set (fst kv) (snd kv) o)
                                       ms []), rest)
                     | None => None
                     end
            | [] => None
            end
          else
            match take_prefix (list_ascii_of_string "null") (c :: s') with
            | Some rest => Some (VNull, rest)
            | None =>
            match take_prefix (list_ascii_of_string "true") (c :: s') with
            | Some rest => Some (VBool true, rest)
            | None =>
            match take_prefix (list_ascii_of_string "false") (c :: s') with
            | Some rest => Some (VBool false, rest)
            | None => read_number (c :: s')
            end end end
      end
  end.

Definition parse (s : string) : option value :=
  let cs := list_ascii_of_string s in
  match read_value (S (List.length cs)) cs with
  | Some (v, rest) =>
      match skip_ws rest with
      | [] => Some v
      | _ :: _ => None
      end
  | None => None
  end.

Definition quote (s : string) : string :=
  String dq (s ++ String dq EmptyString)%string.

Fixpoint stringify (v : value) : string :=
  match v with
  | VUndef => "undefined"
  | VNull => "null"
  | VBool true => "true"
  | VBool false => "false"
  | VNum (DInt z) => dto_string (DInt z)
  | VNum _ => "null"
  | VStr s => quote s
  | VArr l => ("[" ++ String.concat "," (map stringify l) ++ "]")%string
  | VObj o =>
      ("{" ++ String.concat ","
                ((fix members (o : list (string * value)) : list string :=
                    match o with
                    | [] => []
                    | (k, x) :: o' =>
                        (quote k ++ ":" ++ stringify x)%string :: members o'
                    end) o)
           ++ "}")%string
  end.

#[export] Instance DemoHost : Host := {|
  intl_format := dintl_format;
  toLocaleString_enUS := fun n minFD _ =>
    bind (fraction_digits minFD) (fun d => Ok (number_text true n d));
  toFixed := fun n digits =>
    bind (fraction_digits digits) (fun d => Ok (number_text false n d));
  new_Date := fun v =>
    match v with
    | VNum (DInt 0) => Some (DInt 0, "1970-01-01T00:00:00.000Z")
    | _ => None
    end;
  toUpperCase := map_string upper;
  toLowerCase := map_string lower;
  localeCompare := fun a b => compare_num (String.compare a b);
  localeCompare_numeric_base := fun a b =>
    compare_num (String.compare (map_string lower a) (map_string lower b));
  JSON_parse := parse;
  JSON_stringify := stringify
|}.

Example parse_object :
  parse ("{" ++ quote "rows" ++ ": [1, -20], " ++ quote "caption" ++ ": "
         ++ quote "x" ++ "}")
  = Some (VObj [("rows", VArr [VNum (DInt 1); VNum (DInt (-20))]);
                ("caption", VStr "x")]).
Proof. reflexivity. Qed.

Example parse_rejects : parse "[1, " = None.
Proof. reflexivity. Qed.

Example format_inr :
  Formatter.formatMoney (VNum (DInt 12000)) (VNum (DInt 0)) VUndef
  = Ok "₹12,000".
Proof. reflexivity. Qed.

End Demo.

(** * Properties *)

(** ** Formatter *)

Section FormatterProps.
Context {N : Num} {H : Host}.

Lemma mapM_idx_length {A B} (f : A -> Z -> result B) (l : list A) :
  forall i ys, mapM_idx f l i = Ok ys -> List.length ys = List.length l.
Proof.
  induction l as [|x l IH]; intros i ys Hm; simpl in Hm.
  - injection Hm as <-. reflexivity.
  - destruct (f x i) as [y|e]; simpl in Hm; [|discriminate].
    destruct (mapM_idx f l (i + 1)) as [ys'|e] eqn:E; simpl in Hm;
      [|discriminate].
    injection Hm as <-. simpl. f_equal. eapply IH; eassumption.
Qed.

Lemma mapM_idx_nth {A B} (f : A -> Z -> result B) (l : list A) (da : A)
  (db : B) :
  forall i ys, mapM_idx f l i = Ok ys ->
  forall k, (k < List.length l)%nat ->
  f (nth k l da) (i + Z.of_nat k)%Z = Ok (nth k ys db).
Proof.
  induction l as [|x l IH]; intros i ys Hm k Hk; simpl in *; [lia|].
  destruct (f x i) as [y|e] eqn:Ey; simpl in Hm; [|discriminate].
  destruct (mapM_idx f l (i + 1)) as [ys'|e] eqn:E; simpl in Hm;
    [|discriminate].
  injection Hm as <-.
  destruct k as [|k].
  - simpl. rewrite Z.add_0_r. exact Ey.
  - cbn [nth]. replace (i + Z.of_nat (S k))%Z with (i + 1 + Z.of_nat k)%Z by lia.
    apply IH; [exact E | lia].
Qed.

Lemma mapM_idx_complete {A B} (f : A -> Z -> result B) (l : list A) (da : A)
  (db : B) :
  forall i ys, List.length ys = List.length l ->
  (forall k, (k < List.length l)%nat ->
             f (nth k l da) (i + Z.of_nat k)%Z = Ok (nth k ys db)) ->
  mapM_idx f l i = Ok ys.
Proof.
  induction l as [|x l IH]; intros i ys Hlen Hk.
  - destruct ys; [reflexivity | discriminate].
  - destruct ys as [|y ys]; [discriminate|].
    simpl. pose proof (Hk 0%nat) as H0. simpl in H0.
    rewrite Z.add_0_r in H0. rewrite H0 by lia. simpl.
    rewrite (IH (i + 1)%Z ys); [reflexivity | simpl in Hlen; lia |].
    intros k Hlt. specialize (Hk (S k)). cbn [nth] in Hk.
    replace (i + 1 + Z.of_nat k)%Z with (i + Z.of_nat (S k))%Z by lia.
    apply Hk. simpl. lia.
Qed.

(** The value at the clamped index [Math.min(idx, xs.length - 1)]: the entry
    at [idx] while there is one, then the last one; [undefined] only for an
    empty sequence. *)
Lemma clamped_index (xs : list value) (k : nat) :
  index_value xs (Z.min (Z.of_nat k) (Z.of_nat (List.length xs) - 1))
  = match xs with
    | [] => VUndef
    | _ :: _ => nth (Nat.min k (List.length xs - 1)) xs VUndef
    end.
Proof.
  unfold index_value, index. destruct xs as [|x xs].
  - cbn [List.length Z.of_nat].
    destruct (Z.min (Z.of_nat k) (0 - 1) <? 0)%Z eqn:E; [reflexivity|].
    apply Z.ltb_ge in E. lia.
  - set (n := List.length (x :: xs)).
    assert (Hn : (0 < n)%nat) by (subst n; simpl; lia).
    destruct (Z.min (Z.of_nat k) (Z.of_nat n - 1) <? 0)%Z eqn:E.
    + apply Z.ltb_lt in E. lia.
    + replace (Z.to_nat (Z.min (Z.of_nat k) (Z.of_nat n - 1)))
        with (Nat.min k (n - 1)) by lia.
      destruct (nth_error (x :: xs) (Nat.min k (n - 1))) as [v|] eqn:En.
      * symmetry. apply nth_error_nth. exact En.
      * apply nth_error_None in En. fold n in En. lia.
Qed.


Lemma mapM_idx_throw {A B} (f : A -> Z -> result B) (l : list A) (da : A) :
  forall i e,
  mapM_idx f l i = Throw e <->
  exists k, (k < List.length l)%nat
    /\ f (nth k l da) (i + Z.of_nat k)%Z = Throw e
    /\ forall j, (j < k)%nat ->
         exists y, f (nth j l da) (i + Z.of_nat j)%Z = Ok y.
Proof.
  induction l as [|x l IH]; intros i e; simpl.
  - split; [discriminate | intros (k & Hk & _); lia].
  - destruct (f x i) as [y|e'] eqn:Ey; simpl.
    + destruct (mapM_idx f l (i + 1)) as [ys|e''] eqn:E; simpl.
      * split; [discriminate|]. intros (k & Hk & Hf & Hj).
        destruct k as [|k]; [simpl in Hf; rewrite Z.add_0_r in Hf; congruence|].
        assert (Ht : mapM_idx f l (i + 1) = Throw e).
        { apply IH. exists k. split; [lia|]. split.
          - replace (i + 1 + Z.of_nat k)%Z with (i + Z.of_nat (S k))%Z by lia.
            exact Hf.
          - intros j Hlt. destruct (Hj (S j)) as [y' Hy]; [lia|].
            exists y'.
            replace (i + 1 + Z.of_nat j)%Z with (i + Z.of_nat (S j))%Z by lia.
            exact Hy. }
        congruence.
      * split.
        -- intros Hq. injection Hq as <-.
           apply IH in E. destruct E as (k & Hk & Hf & Hj).
           exists (S k). split; [lia|]. split.
           ++ replace (i + Z.of_nat (S k))%Z with (i + 1 + Z.of_nat k)%Z by lia.
              exact Hf.
           ++ intros [|j] Hlt.
              ** exists y. simpl. rewrite Z.add_0_r. exact Ey.
              ** destruct (Hj j) as [y' Hy]; [lia|]. exists y'.
                 replace (i + Z.of_nat (S j))%Z
                   with (i + 1 + Z.of_nat j)%Z by lia.
                 exact Hy.
        -- intros (k & Hk & Hf & Hj).
           destruct k as [|k];
             [simpl in Hf; rewrite Z.add_0_r in Hf; congruence|].
           assert (Ht : mapM_idx f l (i + 1) = Throw e).
           { apply IH. exists k. split; [lia|]. split.
             - replace (i + 1 + Z.of_nat k)%Z
                 with (i + Z.of_nat (S k))%Z by lia.
               exact Hf.
             - intros j Hlt. destruct (Hj (S j)) as [y' Hy]; [lia|].
               exists y'.
               replace (i + 1 + Z.of_nat j)%Z
                 with (i + Z.of_nat (S j))%Z by lia.
               exact Hy. }
           congruence.
    + split.
      * intros Hq. injection Hq as <-. exists 0%nat.
        split; [lia|]. split; [simpl; rewrite Z.add_0_r; exact Ey|].
        intros j Hj. lia.
      * intros (k & Hk & Hf & Hj). destruct k as [|k].
        -- simpl in Hf. rewrite Z.add_0_r in Hf. congruence.
        -- destruct (Hj 0%nat) as [y Hy]; [lia|]. simpl in Hy.
           rewrite Z.add_0_r in Hy. congruence.
Qed.

(** The entry of [xs] used for element [i]: the one at [min(i, length - 1)],
    [undefined] when [xs] is empty. *)
Definition clamped (xs : list value) (i : nat) : value :=
  match xs with
  | [] => VUndef
  | _ :: _ => nth (Nat.min i (List.length xs - 1)) xs VUndef
  end.

(** C10.  [formatMoney2(amounts, precisions, currencies)] formats element [i]
    of [amounts] by [formatMoney] with the precision and the currency at
    index [min(i, length - 1)] of their sequences, so with the last entry once
    [amounts] is longer, and joins the results with [<br>]; it throws what the
    first failing element throws.  In particular two amounts with two
    precisions and two currencies give the first formatted amount, [<br>],
    and the second. *)
Theorem formatMoney2_clamped (amounts precisions currencies : list value) :
  let piece (i : nat) :=
    Formatter.formatMoney (nth i amounts VUndef)
      (clamped precisions i) (clamped currencies i) in
  (forall s,
     Formatter.formatMoney2 amounts precisions currencies = Ok s <->
     exists strs,
       List.length strs = List.length amounts
       /\ (forall i, (i < List.length amounts)%nat ->
                     piece i = Ok (nth i strs ""))
       /\ s = String.concat "<br>" strs)
  /\ (forall e,
        Formatter.formatMoney2 amounts precisions currencies = Throw e <->
        exists i, (i < List.length amounts)%nat
          /\ piece i = Throw e
          /\ forall j, (j < i)%nat -> exists s, piece j = Ok s)
  /\ (forall a0 a1 p0 p1 c0 c1,
        Formatter.formatMoney2 [a0; a1] [p0; p1] [c0; c1]
        = (s0 <- Formatter.formatMoney a0 p0 c0 ;;
           s1 <- Formatter.formatMoney a1 p1 c1 ;;
           Ok (s0 ++ "<br>" ++ s1)%string)).
Proof.
  intros piece.
  set (f := fun (amt : value) (idx : Z) =>
    Formatter.formatMoney amt
      (index_value precisions
         (Z.min idx (Z.of_nat (List.length precisions) - 1)))
      (index_value currencies
         (Z.min idx (Z.of_nat (List.length currencies) - 1)))).
  assert (Hf : forall k, f (nth k amounts VUndef) (0 + Z.of_nat k)%Z = piece k).
  { intros k. unfold f, piece, clamped. rewrite Z.add_0_l.
    rewrite !clamped_index. reflexivity. }
  assert (Hdef : Formatter.formatMoney2 amounts precisions currencies
                 = (strs <- mapM_idx f amounts 0 ;;
                    Ok (String.concat "<br>" strs))) by reflexivity.
  split; [|split].
  - intros s. rewrite Hdef. split.
    + destruct (mapM_idx f amounts 0) as [strs|e] eqn:E; simpl;
        [|discriminate].
      intros Hs. injection Hs as <-. exists strs.
      split; [eapply mapM_idx_length; exact E|]. split; [|reflexivity].
      intros i Hi. rewrite <- Hf.
      eapply mapM_idx_nth; [exact E | exact Hi].
    + intros (strs & Hlen & Hp & ->).
      rewrite (mapM_idx_complete f amounts VUndef ""%string 0 strs Hlen);
        [reflexivity|].
      intros k Hk. rewrite Hf. apply Hp. exact Hk.
  - intros e. rewrite Hdef.
    destruct (mapM_idx f amounts 0) as [strs|e'] eqn:E; simpl.
    + split; [discriminate|]. intros (i & Hi & Ht & Hj).
      assert (Ht' : mapM_idx f amounts 0 = Throw e).
      { apply (mapM_idx_throw f amounts VUndef). exists i.
        split; [exact Hi|]. split; [rewrite Hf; exact Ht|].
        intros j Hlt. rewrite Hf. apply Hj. exact Hlt. }
      congruence.
    + split.
      * intros Hq. injection Hq as <-.
        apply (mapM_idx_throw f amounts VUndef) in E.
        destruct E as (i & Hi & Ht & Hj). exists i.
        split; [exact Hi|]. split; [rewrite <- Hf; exact Ht|].
        intros j Hlt. rewrite <- Hf. apply Hj. exact Hlt.
      * intros (i & Hi & Ht & Hj).
        assert (Ht' : mapM_idx f amounts 0 = Throw e).
        { apply (mapM_idx_throw f amounts VUndef). exists i.
          split; [exact Hi|]. split; [rewrite Hf; exact Ht|].
          intros j Hlt. rewrite Hf. apply Hj. exact Hlt. }
        congruence.
  - intros a0 a1 p0 p1 c0 c1. unfold Formatter.formatMoney2.
    cbn [mapM_idx].
    repeat match goal with
           | |- context [index_value ?l ?i] =>
               let v := eval cbv in (index_value l i) in
               change (index_value l i) with v
           end.
    destruct (Formatter.formatMoney a0 p0 c0) as [s0|e0]; simpl;
      [|reflexivity].
    destruct (Formatter.formatMoney a1 p1 c1) as [s1|e1]; reflexivity.
Qed.

End FormatterProps.

(** ** Display cells and aggregates *)

Section CellProps.
Context {N : Num} {H : Host}.

Lemma default_arg_nullish (x d d' : value) :
  d <> VUndef -> default_arg (nullish x d) d' = nullish x d.
Proof.
  intros Hd. destruct x; simpl; try reflexivity;
    destruct d; simpl; congruence.
Qed.

Lemma formatMoney_default_currency (amount x : value) :
  Formatter.formatMoney amount
    (nullish x (VNum (nofZ DEFAULTS.PRECISION))) VUndef
  = Formatter.formatCurrency amount
      (nullish x (VNum (nofZ DEFAULTS.PRECISION)))
      (VStr DEFAULTS.CURRENCY) true.
Proof.
  unfold Formatter.formatMoney.
  rewrite default_arg_nullish by discriminate. reflexivity.
Qed.

(** C3.  For a column of type [money] the display string of a cell and the
    display string of an aggregate are both [#formatCurrency] at the column's
    precision with the currency ['INR']: the descriptor's [currency] is not
    read, so two descriptors of type [money] with the same precision give the
    same cell and the same aggregate whatever their currencies. *)
Theorem money_uses_default_currency (colInfo : value) :
  member colInfo "type" = VStr COL_TYPES.MONEY ->
  let precision :=
    nullish (member colInfo "precision") (VNum (nofZ DEFAULTS.PRECISION)) in
  (forall cols col raw,
     get cols col = colInfo ->
     TableMaker.derive_cell cols col raw
     = (s <- Formatter.formatCurrency raw precision
               (VStr DEFAULTS.CURRENCY) true ;;
        Ok (TableMaker.mk_cell (VStr COL_TYPES.MONEY) raw (VStr s))))
  /\ (forall aggVal,
        TableMakerComponent.aggregate_disp colInfo aggVal
        = (s <- Formatter.formatCurrency aggVal precision
                  (VStr DEFAULTS.CURRENCY) true ;;
           Ok (aggVal, VStr s)))
  /\ (forall colInfo',
        member colInfo' "type" = VStr COL_TYPES.MONEY ->
        member colInfo' "precision" = member colInfo "precision" ->
        (forall cols cols' col raw,
           get cols col = colInfo -> get cols' col = colInfo' ->
           TableMaker.derive_cell cols' col raw
           = TableMaker.derive_cell cols col raw)
        /\ (forall aggVal,
              TableMakerComponent.aggregate_disp colInfo' aggVal
              = TableMakerComponent.aggregate_disp colInfo aggVal)).
Proof.
  intros Hty precision.
  assert (Hcell : forall ci cols col raw,
            member ci "type" = VStr COL_TYPES.MONEY ->
            get cols col = ci ->
            TableMaker.derive_cell cols col raw
            = (s <- Formatter.formatCurrency raw
                      (nullish (member ci "precision")
                         (VNum (nofZ DEFAULTS.PRECISION)))
                      (VStr DEFAULTS.CURRENCY) true ;;
               Ok (TableMaker.mk_cell (VStr COL_TYPES.MONEY) raw (VStr s)))).
  { intros ci cols col raw Ht Hg. unfold TableMaker.derive_cell.
    rewrite Hg.
    assert (Hn : nullish ci (VObj []) = ci).
    { destruct ci; try reflexivity; simpl in Ht; discriminate. }
    rewrite Hn, Ht. cbn [nullish]. unfold TableMaker.cell_disp.
    cbn [TableMaker.is_str String.eqb Ascii.eqb Bool.eqb
         COL_TYPES.MONEY COL_TYPES.MONEY2].
    cbv beta iota.
    rewrite formatMoney_default_currency.
    destruct (Formatter.formatCurrency raw _ _ true); reflexivity. }
  assert (Hagg : forall ci aggVal,
            member ci "type" = VStr COL_TYPES.MONEY ->
            TableMakerComponent.aggregate_disp ci aggVal
            = (s <- Formatter.formatCurrency aggVal
                      (nullish (member ci "precision")
                         (VNum (nofZ DEFAULTS.PRECISION)))
                      (VStr DEFAULTS.CURRENCY) true ;;
               Ok (aggVal, VStr s))).
  { intros ci aggVal Ht. unfold TableMakerComponent.aggregate_disp.
    rewrite Ht. cbn [nullish].
    cbn [TableMaker.is_str String.eqb Ascii.eqb Bool.eqb
         COL_TYPES.MONEY COL_TYPES.MONEY2].
    cbv beta iota.
    rewrite formatMoney_default_currency. reflexivity. }
  split; [|split].
  - intros cols col raw Hg. apply Hcell; assumption.
  - intros aggVal. apply Hagg. exact Hty.
  - intros colInfo' Hty' Hp. split.
    + intros cols cols' col raw Hg Hg'.
      rewrite (Hcell colInfo' cols' col raw Hty' Hg').
      rewrite (Hcell colInfo cols col raw Hty Hg).
      rewrite Hp. reflexivity.
    + intros aggVal. rewrite (Hagg colInfo' aggVal Hty').
      rewrite (Hagg colInfo aggVal Hty). rewrite Hp. reflexivity.
Qed.

End CellProps.

(** ** Objects *)

Section ObjectProps.
Context {A : Type}.

Lemma lookup_obj_update_ne (k k' : string) (x : A) (o : list (string * A)) :
  k <> k' -> lookup k' (obj_update k x o) = lookup k' o.
Proof.
  intros Hne. induction o as [|[j y] o IH]; simpl; [reflexivity|].
  destruct (String.eqb j k) eqn:E; simpl.
  - apply String.eqb_eq in E. subst j.
    destruct (String.eqb k k') eqn:E'; [|reflexivity].
    apply String.eqb_eq in E'. contradiction.
  - destruct (String.eqb j k'); [reflexivity | exact IH].
Qed.

Lemma lookup_obj_update_eq (k : string) (x y : A) (o : list (string * A)) :
  lookup k o = Some y -> lookup k (obj_update k x o) = Some x.
Proof.
  induction o as [|[j z] o IH]; simpl; [discriminate|].
  destruct (String.eqb j k) eqn:E; simpl; rewrite E; auto.
Qed.

Lemma lookup_obj_insert_ne (k k' : string) (x : A) (o : list (string * A)) :
  k <> k' -> lookup k' (obj_insert k x o) = lookup k' o.
Proof.
  intros Hne.
  assert (Hk : String.eqb k k' = false) by (apply String.eqb_neq; exact Hne).
  induction o as [|[j y] o IH]; simpl.
  - rewrite Hk. reflexivity.
  - destruct (array_index k) as [i|]; [destruct (array_index j) as [i'|]|].
    + destruct (i <? i')%N; simpl.
      * rewrite Hk. reflexivity.
      * destruct (String.eqb j k'); [reflexivity | exact IH].
    + simpl. rewrite Hk. reflexivity.
    + simpl. destruct (String.eqb j k'); [reflexivity | exact IH].
Qed.

Lemma lookup_obj_insert_eq (k : string) (x : A) (o : list (string * A)) :
  lookup k o = None -> lookup k (obj_insert k x o) = Some x.
Proof.
  induction o as [|[j y] o IH]; simpl; intros Hl.
  - rewrite String.eqb_refl. reflexivity.
  - destruct (String.eqb j k) eqn:E; [discriminate|].
    destruct (array_index k) as [i|]; [destruct (array_index j) as [i'|]|].
    + destruct (i <? i')%N; simpl.
      * rewrite String.eqb_refl. reflexivity.
      * rewrite E. apply IH. exact Hl.
    + simpl. rewrite String.eqb_refl. reflexivity.
    + simpl. rewrite E. apply IH. exact Hl.
Qed.

Lemma lookup_obj_set_ne (k k' : string) (x : A) (o : list (string * A)) :
  k <> k' -> lookup k' (obj_set k x o) = lookup k' o.
Proof.
  intros Hne. unfold obj_set. destruct (lookup k o).
  - apply lookup_obj_update_ne. exact Hne.
  - apply lookup_obj_insert_ne. exact Hne.
Qed.

Lemma lookup_obj_set_eq (k : string) (x : A) (o : list (string * A)) :
  lookup k (obj_set k x o) = Some x.
Proof.
  unfold obj_set. destruct (lookup k o) eqn:E.
  - eapply lookup_obj_update_eq. exact E.
  - apply lookup_obj_insert_eq. exact E.
Qed.

Lemma obj_update_absent (k : string) (x : A) (o : list (string * A)) :
  lookup k o = None -> obj_update k x o = o.
Proof.
  induction o as [|[j y] o IH]; simpl; [reflexivity|].
  destruct (String.eqb j k); [discriminate|].
  intros Hl. rewrite IH by exact Hl. reflexivity.
Qed.

End ObjectProps.

(** ** Sorting *)

Section SortProps.
Context {N : Num} {A : Type} (c : A -> A -> num).

(** [a] may stand before [b]: the comparator does not put [a] after [b]. *)
Definition may_precede (a b : A) : Prop := (nsign (c a b) <= 0)%Z.

Lemma insert_sorted_perm (x : A) (l : list A) :
  Permutation (x :: l) (insert_sorted c x l).
Proof.
  induction l as [|y l IH]; simpl; [reflexivity|].
  destruct (nsign (c x y) <=? 0)%Z; [reflexivity|].
  rewrite perm_swap. apply perm_skip. exact IH.
Qed.

Lemma sort_by_perm (l : list A) : Permutation l (sort_by c l).
Proof.
  induction l as [|x l IH]; simpl; [reflexivity|].
  rewrite <- insert_sorted_perm. apply perm_skip. exact IH.
Qed.

Lemma sort_by_length (l : list A) :
  List.length (sort_by c l) = List.length l.
Proof. symmetry. apply Permutation_length. apply sort_by_perm. Qed.

Lemma sort_by_in (l : list A) (x : A) : In x (sort_by c l) <-> In x l.
Proof.
  split; intros Hin.
  - eapply Permutation_in; [symmetry; apply sort_by_perm | exact Hin].
  - eapply Permutation_in; [apply sort_by_perm | exact Hin].
Qed.

(** What the sort needs of the comparator on the elements at hand: when it
    puts [a] after [b] it does not also put [b] after [a]. *)
Definition sign_antisymmetric (l : list A) : Prop :=
  forall a b, In a l -> In b l ->
    (0 < nsign (c a b))%Z -> (nsign (c b a) <= 0)%Z.

Lemma insert_sorted_hd (x y : A) (l : list A) :
  may_precede y x -> HdRel may_precede y l ->
  HdRel may_precede y (insert_sorted c x l).
Proof.
  intros Hyx Hhd. destruct l as [|z l]; simpl.
  - constructor. exact Hyx.
  - destruct (nsign (c x z) <=? 0)%Z; constructor.
    + exact Hyx.
    + inversion Hhd; assumption.
Qed.

Lemma insert_sorted_sorted (x : A) (l : list A) :
  (forall y, In y l -> (0 < nsign (c x y))%Z -> (nsign (c y x) <= 0)%Z) ->
  Sorted may_precede l -> Sorted may_precede (insert_sorted c x l).
Proof.
  intros Hanti Hs. induction Hs as [|y l Hs IH Hhd]; simpl.
  - constructor; constructor.
  - destruct (nsign (c x y) <=? 0)%Z eqn:E.
    + constructor; [constructor; assumption|].
      constructor. apply Z.leb_le. exact E.
    + constructor.
      * apply IH. intros z Hz. apply Hanti. right. exact Hz.
      * apply insert_sorted_hd; [|exact Hhd].
        apply Hanti; [left; reflexivity|].
        apply Z.leb_gt in E. exact E.
Qed.

(** The sorted array has every adjacent pair in order. *)
Lemma sort_by_sorted (l : list A) :
  sign_antisymmetric l -> Sorted may_precede (sort_by c l).
Proof.
  induction l as [|x l IH]; intros Hanti; simpl; [constructor|].
  apply insert_sorted_sorted.
  - intros y Hy. apply Hanti; [left; reflexivity|].
    right. apply sort_by_in. exact Hy.
  - apply IH. intros a b Ha Hb. apply Hanti; right; assumption.
Qed.


(** On the elements at hand the comparator is a strict order: opposite
    signs for swapped arguments, transitive, and no two elements tie. *)
Definition strict_on (l : list A) : Prop :=
  (forall a b, In a l -> In b l -> nsign (c a b) = (- nsign (c b a))%Z)
  /\ (forall x y z, In x l -> In y l -> In z l ->
         (nsign (c x y) < 0)%Z -> (nsign (c y z) < 0)%Z ->
         (nsign (c x z) < 0)%Z)
  /\ NoDup l
  /\ (forall a b, In a l -> In b l -> a <> b -> nsign (c a b) <> 0%Z).

Definition before (a b : A) : Prop := (nsign (c a b) < 0)%Z.

Lemma Sorted_strongly (R : A -> A -> Prop) (l : list A) :
  (forall x y z, In x l -> In y l -> In z l -> R x y -> R y z -> R x z) ->
  Sorted R l -> StronglySorted R l.
Proof.
  intros Ht Hs. induction Hs as [|a l Hs IH Hhd]; [constructor|].
  assert (IH' : StronglySorted R l).
  { apply IH. intros x y z Hx Hy Hz. apply Ht; right; assumption. }
  constructor; [exact IH'|].
  destruct l as [|b l]; [constructor|].
  inversion Hhd as [|? ? Hab]; subst.
  inversion IH' as [|? ? _ Hall]; subst.
  constructor; [exact Hab|].
  rewrite Forall_forall in *. intros x Hx.
  apply (Ht a b x); simpl; auto.
Qed.

Lemma Sorted_impl_in (R R' : A -> A -> Prop) (l : list A) :
  NoDup l ->
  (forall a b, In a l -> In b l -> a <> b -> R a b -> R' a b) ->
  Sorted R l -> Sorted R' l.
Proof.
  intros Hnd Himp Hs. induction Hs as [|a l Hs IH Hhd]; [constructor|].
  inversion Hnd as [|? ? Hnotin Hnd']; subst.
  constructor.
  - apply IH; [exact Hnd'|]. intros x y Hx Hy. apply Himp; right; assumption.
  - destruct l as [|b l]; constructor.
    inversion Hhd; subst. apply Himp; simpl; auto.
    intros ->. apply Hnotin. left. reflexivity.
Qed.

Lemma StronglySorted_rev (R : A -> A -> Prop) (l : list A) :
  StronglySorted (fun a b => R b a) l -> StronglySorted R (rev l).
Proof.
  induction 1 as [|a l Hs IH Hall]; simpl; [constructor|].
  clear Hs. revert IH Hall. generalize (rev_involutive l).
  assert (Hin : forall x, In x (rev l) -> In x l)
    by (intros x Hx; apply in_rev; exact Hx).
  revert Hin. generalize (rev l) as r. intros r Hin _ IH Hall.
  induction IH as [|b r Hs IH' Hb]; simpl.
  - constructor; constructor.
  - constructor.
    + apply IH'. intros x Hx. apply Hin. right. exact Hx.
    + apply Forall_app. split; [exact Hb|].
      constructor; [|constructor].
      rewrite Forall_forall in Hall. apply Hall. apply Hin. left. reflexivity.
Qed.

Lemma StronglySorted_unique (R : A -> A -> Prop) (l1 l2 : list A) :
  (forall a b, In a l1 -> In b l1 -> R a b -> R b a -> False) ->
  Permutation l1 l2 -> StronglySorted R l1 -> StronglySorted R l2 -> l1 = l2.
Proof.
  revert l2.
  induction l1 as [|a l1 IH]; intros l2 Hasym Hp H1 H2.
  - apply Permutation_nil in Hp. subst. reflexivity.
  - destruct l2 as [|b l2].
    + symmetry in Hp. apply Permutation_nil in Hp. discriminate.
    + inversion H1 as [|? ? H1' Ha]; subst.
      inversion H2 as [|? ? H2' Hb]; subst.
      rewrite Forall_forall in Ha, Hb.
      assert (Hab : a = b).
      { assert (Hina : In a (b :: l2))
          by (eapply Permutation_in; [exact Hp | left; reflexivity]).
        assert (Hinb : In b (a :: l1))
          by (eapply Permutation_in;
              [symmetry; exact Hp | left; reflexivity]).
        destruct Hina as [Hba|Hina]; [congruence|].
        destruct Hinb as [Hab|Hinb]; [congruence|].
        exfalso. apply (Hasym a b);
          [left; reflexivity | right; exact Hinb | apply Ha | apply Hb];
          assumption. }
      subst b. f_equal. apply IH; [| |assumption|assumption].
      * intros x y Hx Hy. apply Hasym; right; assumption.
      * eapply Permutation_cons_inv. exact Hp.
Qed.

End SortProps.

Section Descending.
Context {N : Num} {A : Type} (c c' : A -> A -> num).
Hypothesis opposite : forall a b, nsign (c' a b) = (- nsign (c a b))%Z.

(** Sorting by the negated comparator gives the ascending result reversed,
    when the comparator is a strict order on the elements. *)
Lemma sort_descending_rev (l : list A) :
  strict_on c l -> sort_by c' l = rev (sort_by c l).
Proof.
  intros (Hanti & Htrans & Hnd & Hties).
  assert (Hin1 : forall x, In x (sort_by c l) -> In x l)
    by (intros x; apply sort_by_in).
  assert (Hin2 : forall x, In x (sort_by c' l) -> In x l)
    by (intros x; apply sort_by_in).
  assert (S1 : StronglySorted (before c) (sort_by c l)).
  { apply Sorted_strongly.
    - intros x y z Hx Hy Hz. apply Htrans; auto.
    - apply (Sorted_impl_in (may_precede c)).
      + eapply Permutation_NoDup; [apply sort_by_perm | exact Hnd].
      + intros a b Ha Hb Hne Hle. unfold may_precede in Hle. unfold before.
        pose proof (Hties a b (Hin1 a Ha) (Hin1 b Hb) Hne). lia.
      + apply sort_by_sorted. intros a b Ha Hb Hgt.
        rewrite (Hanti b a Hb Ha). lia. }
  assert (S2 : StronglySorted (fun a b => before c b a) (sort_by c' l)).
  { apply Sorted_strongly.
    - intros x y z Hx Hy Hz Hyx Hzy. unfold before in *.
      apply (Htrans z y x); auto.
    - apply (Sorted_impl_in (may_precede c')).
      + eapply Permutation_NoDup; [apply sort_by_perm | exact Hnd].
      + intros a b Ha Hb Hne Hle. unfold may_precede in Hle. unfold before.
        rewrite opposite in Hle.
        pose proof (Hties a b (Hin2 a Ha) (Hin2 b Hb) Hne).
        rewrite (Hanti b a (Hin2 b Hb) (Hin2 a Ha)). lia.
      + apply sort_by_sorted. intros a b Ha Hb Hgt.
        rewrite opposite in *. rewrite (Hanti b a Hb Ha). lia. }
  apply StronglySorted_rev in S2.
  assert (Heq : sort_by c l = rev (sort_by c' l)).
  { apply (StronglySorted_unique (before c)); [| |exact S1|exact S2].
    - intros a b Ha Hb Hab Hba. unfold before in *.
      rewrite (Hanti a b (Hin1 a Ha) (Hin1 b Hb)) in Hab. lia.
    - rewrite <- Permutation_rev. rewrite <- !sort_by_perm. reflexivity. }
  rewrite Heq. rewrite rev_involutive. reflexivity.
Qed.

End Descending.

Section ArraySortProps.
Context {N : Num}.

Lemma filter_partition_perm {A} (p : A -> bool) (l : list A) :
  Permutation l (filter (fun x => negb (p x)) l ++ filter p l).
Proof.
  induction l as [|x l IH]; simpl; [reflexivity|].
  destruct (p x); simpl.
  - apply Permutation_cons_app. exact IH.
  - apply perm_skip. exact IH.
Qed.

Lemma array_sort_perm (c : value -> value -> num) (l : list value) :
  Permutation l (array_sort c l).
Proof.
  unfold array_sort.
  rewrite <- sort_by_perm. apply filter_partition_perm.
Qed.

End ArraySortProps.

(** ** Grouping *)

Section GroupProps.
Context {A : Type} (key : A -> string).

Lemma lookup_In {B} (k : string) (x : B) (o : list (string * B)) :
  lookup k o = Some x -> In (k, x) o.
Proof.
  induction o as [|[j y] o IH]; simpl; [discriminate|].
  destruct (String.eqb j k) eqn:E.
  - apply String.eqb_eq in E. intros Hq. injection Hq as <-. subst. auto.
  - intros Hl. right. apply IH. exact Hl.
Qed.

Lemma lookup_None_keys {B} (k : string) (o : list (string * B)) :
  lookup k o = None -> ~ In k (map fst o).
Proof.
  induction o as [|[j y] o IH]; simpl; [tauto|].
  destruct (String.eqb j k) eqn:E; [discriminate|].
  apply String.eqb_neq in E. intros Hl [Hj|Hin]; [contradiction|].
  apply IH; assumption.
Qed.

Lemma In_lookup {B} (k : string) (x : B) (o : list (string * B)) :
  NoDup (map fst o) -> In (k, x) o -> lookup k o = Some x.
Proof.
  induction o as [|[j y] o IH]; simpl; [tauto|].
  intros Hnd [Hq|Hin].
  - injection Hq as -> ->. rewrite String.eqb_refl. reflexivity.
  - inversion Hnd as [|? ? Hnotin Hnd']; subst.
    destruct (String.eqb j k) eqn:E.
    + apply String.eqb_eq in E. subst j. exfalso. apply Hnotin.
      apply (in_map fst) in Hin. exact Hin.
    + apply IH; assumption.
Qed.

Lemma obj_insert_perm {B} (k : string) (x : B) (o : list (string * B)) :
  Permutation ((k, x) :: o) (obj_insert k x o).
Proof.
  induction o as [|[j y] o IH]; simpl; [reflexivity|].
  destruct (array_index k) as [i|]; [destruct (array_index j) as [i'|]|].
  - destruct (i <? i')%N; [reflexivity|].
    rewrite perm_swap. apply perm_skip. exact IH.
  - reflexivity.
  - rewrite perm_swap. apply perm_skip. exact IH.
Qed.

Lemma obj_update_keys {B} (k : string) (x : B) (o : list (string * B)) :
  map fst (obj_update k x o) = map fst o.
Proof.
  induction o as [|[j y] o IH]; simpl; [reflexivity|].
  destruct (String.eqb j k); simpl; [reflexivity|].
  rewrite IH. reflexivity.
Qed.

Lemma obj_update_In {B} (k : string) (x : B) (o : list (string * B))
  (p : string * B) :
  NoDup (map fst o) ->
  In p (obj_update k x o) ->
  (p = (k, x) /\ In k (map fst o)) \/ (In p o /\ fst p <> k).
Proof.
  induction o as [|[j y] o IH]; simpl; [tauto|].
  intros Hnd. inversion Hnd as [|? ? Hnotin Hnd']; subst.
  destruct (String.eqb j k) eqn:E; simpl.
  - apply String.eqb_eq in E. subst j. intros [<-|Hin].
    + left. auto.
    + right. split; [right; exact Hin|].
      intros Hk. apply Hnotin. rewrite <- Hk.
      apply (in_map fst) in Hin. exact Hin.
  - apply String.eqb_neq in E. intros [<-|Hin].
    + right. simpl. auto.
    + destruct (IH Hnd' Hin) as [[-> Hk]|[Hp Hne]]; [left | right]; auto.
Qed.

Lemma obj_update_concat (k : string) (g : list A) (x : A)
  (o : list (string * list A)) :
  lookup k o = Some g ->
  Permutation (List.concat (map snd (obj_update k (g ++ [x]) o)))
    (x :: List.concat (map snd o)).
Proof.
  induction o as [|[j y] o IH]; simpl; [discriminate|].
  destruct (String.eqb j k) eqn:E; simpl.
  - intros Hq. injection Hq as ->.
    rewrite <- app_assoc. simpl.
    symmetry. apply Permutation_cons_app. reflexivity.
  - intros Hl. rewrite (IH Hl).
    apply Permutation_sym, Permutation_cons_app. reflexivity.
Qed.

(** What holds of the groups after the elements [seen] have gone in: the
    keys are distinct, every group holds exactly the elements of its key, in
    the order they came, and every element has its group. *)
Definition grouped (groups : list (string * list A)) (seen : list A) : Prop :=
  NoDup (map fst groups)
  /\ (forall k g, In (k, g) groups ->
        g <> [] /\ g = filter (fun x => String.eqb (key x) k) seen)
  /\ (forall x, In x seen -> In (key x) (map fst groups))
  /\ Permutation (List.concat (map snd groups)) seen.

Lemma group_add_grouped groups seen x :
  grouped groups seen -> grouped (group_add key groups x) (seen ++ [x]).
Proof.
  intros (Hnd & Hg & Hall & Hperm). unfold group_add.
  destruct (lookup (key x) groups) as [g|] eqn:El.
  - assert (Hk : In (key x) (map fst groups)).
    { apply lookup_In in El. apply (in_map fst) in El. exact El. }
    split; [rewrite obj_update_keys; exact Hnd|]. split; [|split].
    + intros k g' Hin.
      destruct (obj_update_In _ _ _ _ Hnd Hin) as [[Hq _]|[Hin' Hne]].
      * injection Hq as -> ->. split; [destruct g; discriminate|].
        rewrite filter_app. simpl. rewrite String.eqb_refl.
        apply lookup_In in El. destruct (Hg _ _ El) as [_ <-]. reflexivity.
      * destruct (Hg _ _ Hin') as [Hne' Hf]. split; [exact Hne'|].
        rewrite filter_app. simpl. simpl in Hne.
        assert (E : String.eqb (key x) k = false).
        { apply String.eqb_neq. congruence. }
        rewrite E, app_nil_r. exact Hf.
    + intros y Hy. rewrite obj_update_keys. apply in_app_or in Hy.
      destruct Hy as [Hy|[<-|[]]]; [apply Hall; exact Hy | exact Hk].
    + rewrite (obj_update_concat _ _ _ _ El). rewrite Hperm.
      apply Permutation_cons_append.
  - pose proof (lookup_None_keys _ _ El) as Hnotin.
    pose proof (obj_insert_perm (key x) [x] groups) as Hp.
    split; [|split; [|split]].
    + eapply Permutation_NoDup; [apply Permutation_map; exact Hp|].
      simpl. constructor; assumption.
    + intros k g Hin.
      apply (Permutation_in _ (Permutation_sym Hp)) in Hin.
      destruct Hin as [Hq|Hin].
      * injection Hq as <- <-. split; [discriminate|].
        rewrite filter_app. simpl. rewrite String.eqb_refl.
        assert (Hnil : filter (fun y => String.eqb (key y) (key x)) seen = []).
        { clear - Hnotin Hall. induction seen as [|y seen IH]; simpl;
            [reflexivity|].
          destruct (String.eqb (key y) (key x)) eqn:E.
          - apply String.eqb_eq in E. exfalso. apply Hnotin.
            rewrite <- E. apply Hall. left. reflexivity.
          - apply IH. intros z Hz. apply Hall. right. exact Hz. }
        rewrite Hnil. reflexivity.
      * destruct (Hg _ _ Hin) as [Hne Hf]. split; [exact Hne|].
        rewrite filter_app. simpl.
        assert (E : String.eqb (key x) k = false).
        { apply String.eqb_neq. intros <-. apply Hnotin.
          apply (in_map fst) in Hin. exact Hin. }
        rewrite E, app_nil_r. exact Hf.
    + intros y Hy.
      apply (Permutation_in _ (Permutation_map fst Hp)). simpl.
      apply in_app_or in Hy. destruct Hy as [Hy|[<-|[]]]; auto.
    + rewrite <- (Permutation_map snd Hp). simpl.
      rewrite Hperm. apply Permutation_cons_append.
Qed.

Lemma groupBy_grouped (l : list A) : grouped (groupBy key l) l.
Proof.
  unfold groupBy.
  assert (Hgen : forall l groups seen,
            grouped groups seen ->
            grouped (fold_left (group_add key) l groups) (seen ++ l)).
  { clear l. induction l as [|x l IH]; intros groups seen Hg; simpl.
    - rewrite app_nil_r. exact Hg.
    - replace (seen ++ x :: l) with ((seen ++ [x]) ++ l)
        by (rewrite <- app_assoc; reflexivity).
      apply IH. apply group_add_grouped. exact Hg. }
  apply (Hgen l [] []).
  split; [constructor|]. split; [intros k g []|].
  split; [intros x []|]. simpl. constructor.
Qed.

End GroupProps.

(** ** The component as a state machine *)

Section ComponentProps.
Context {N : Num} {H : Host}.
Import TableMakerComponent.
Local Open Scope m_scope.

(** A method keeps a relation between the state before and after, whether it
    returns or throws. *)
Definition keeps (R : component -> component -> Prop) {A} (m : M A) : Prop :=
  forall st, R st (fst (m st)).

Section Keeps.
Variable R : component -> component -> Prop.
Hypothesis R_refl : forall st, R st st.
Hypothesis R_trans : forall a b c, R a b -> R b c -> R a c.

Lemma keeps_ret {A} (a : A) : keeps R (ret a).
Proof. intros st. apply R_refl. Qed.

Lemma keeps_lift {A} (r : result A) : keeps R (lift r).
Proof. intros st. apply R_refl. Qed.

Lemma keeps_read {A} (f : component -> A) : keeps R (read f).
Proof. intros st. apply R_refl. Qed.

Lemma keeps_bind {A B} (m : M A) (k : A -> M B) :
  keeps R m -> (forall a, keeps R (k a)) -> keeps R (bindM m k).
Proof.
  intros Hm Hk st. unfold bindM. specialize (Hm st).
  destruct (m st) as [st' [a|e]]; simpl in *.
  - eapply R_trans; [exact Hm | apply Hk].
  - exact Hm.
Qed.

Lemma keeps_forM {A} (f : A -> M unit) (l : list A) :
  (forall x, keeps R (f x)) -> keeps R (forM f l).
Proof.
  intros Hf. induction l as [|x l IH]; simpl.
  - apply keeps_ret.
  - apply keeps_bind; [apply Hf | intros _; exact IH].
Qed.

Lemma keeps_if {A} (b : bool) (m1 m2 : M A) :
  keeps R m1 -> keeps R m2 -> keeps R (if b then m1 else m2).
Proof. destruct b; auto. Qed.

End Keeps.


(** *** What rendering leaves alone *)

(** The data object is not written to, as long as [#style] is not one of its
    members. *)
Definition untouched (st st' : component) : Prop :=
  style_shared st = false ->
  tableData st' = tableData st /\ style_shared st' = false.

Lemma untouched_refl st : untouched st st.
Proof. intros Hs. auto. Qed.

Lemma untouched_trans a b c :
  untouched a b -> untouched b c -> untouched a c.
Proof.
  intros Hab Hbc Hs. destruct (Hab Hs) as [Hd Hs'].
  destruct (Hbc Hs') as [Hd' Hs'']. split; congruence.
Qed.

(** The rows, the columns and the grouping a render starts from stay what
    they are. *)
Definition same_source (st st' : component) : Prop :=
  prop (tableData st') "rows" = prop (tableData st) "rows"
  /\ prop (tableData st') "cols" = prop (tableData st) "cols"
  /\ member (style st') "group_by" = member (style st) "group_by".

Lemma same_source_refl st : same_source st st.
Proof. repeat split. Qed.

Lemma same_source_trans a b c :
  same_source a b -> same_source b c -> same_source a c.
Proof.
  intros (H1 & H2 & H3) (H1' & H2' & H3'). repeat split; congruence.
Qed.

Lemma prop_obj_update_ne (k k' : string) (x : value)
  (o : list (string * value)) :
  k <> k' -> prop (VObj (obj_update k x o)) k' = prop (VObj o) k'.
Proof.
  intros Hne. unfold prop, member, get.
  rewrite lookup_obj_update_ne by exact Hne. reflexivity.
Qed.

Lemma write_style_untouched k x : keeps untouched (write_style k x).
Proof.
  intros st Hs. unfold write_style.
  destruct (set_member (style st) k x); simpl; [|auto].
  rewrite Hs. auto.
Qed.

Lemma write_style_same_source k x :
  k <> "group_by" -> keeps same_source (write_style k x).
Proof.
  intros Hk st. unfold write_style, set_member.
  destruct (style st) as [| | | | | |o] eqn:Es; simpl;
    try apply same_source_refl.
  unfold same_source. simpl. rewrite Es.
  assert (Hg : get (obj_set k x o) "group_by" = get o "group_by").
  { unfold get. rewrite lookup_obj_set_ne by exact Hk. reflexivity. }
  destruct (style_shared st); [|auto].
  destruct (tableData st) as [| | | | | |d]; auto.
  rewrite !prop_obj_update_ne by discriminate. auto.
Qed.

(** A field other than [#tableData] and [#style] is written. *)
Definition other_field (f : component -> component) : Prop :=
  forall st, tableData (f st) = tableData st
             /\ style (f st) = style st
             /\ style_shared (f st) = style_shared st.

Lemma modify_untouched f : other_field f -> keeps untouched (modify f).
Proof.
  intros Hf st Hs. simpl. destruct (Hf st) as (Hd & _ & Hsh).
  split; congruence.
Qed.

Lemma modify_same_source f : other_field f -> keeps same_source (modify f).
Proof.
  intros Hf st. simpl. destruct (Hf st) as (Hd & Hst & _).
  unfold same_source. rewrite Hd, Hst. auto.
Qed.

Lemma other_shadow ns : other_field (fun st =>
  {| tableData := tableData st; style := style st;
     style_shared := style_shared st;
     aggregateColumns := aggregateColumns st; transpose := transpose st;
     batchMode := batchMode st; sortedColumn := sortedColumn st;
     shadow := ns; console := console st;
     dispatched := dispatched st |}).
Proof. intros st. auto. Qed.

Lemma other_aggregateColumns a : other_field (fun st =>
  {| tableData := tableData st; style := style st;
     style_shared := style_shared st;
     aggregateColumns := a; transpose := transpose st;
     batchMode := batchMode st; sortedColumn := sortedColumn st;
     shadow := shadow st; console := console st;
     dispatched := dispatched st |}).
Proof. intros st. auto. Qed.

Lemma other_transpose b : other_field (fun st =>
  {| tableData := tableData st; style := style st;
     style_shared := style_shared st;
     aggregateColumns := aggregateColumns st; transpose := b;
     batchMode := batchMode st; sortedColumn := sortedColumn st;
     shadow := shadow st; console := console st;
     dispatched := dispatched st |}).
Proof. intros st. auto. Qed.

Lemma other_batchMode b : other_field (fun st =>
  {| tableData := tableData st; style := style st;
     style_shared := style_shared st;
     aggregateColumns := aggregateColumns st; transpose := transpose st;
     batchMode := b; sortedColumn := sortedColumn st;
     shadow := shadow st; console := console st;
     dispatched := dispatched st |}).
Proof. intros st. auto. Qed.

Lemma other_sortedColumn c : other_field (fun st =>
  {| tableData := tableData st; style := style st;
     style_shared := style_shared st;
     aggregateColumns := aggregateColumns st; transpose := transpose st;
     batchMode := batchMode st; sortedColumn := c;
     shadow := shadow st; console := console st;
     dispatched := dispatched st |}).
Proof. intros st. auto. Qed.

Lemma other_console args : other_field (fun st =>
  {| tableData := tableData st; style := style st;
     style_shared := style_shared st;
     aggregateColumns := aggregateColumns st; transpose := transpose st;
     batchMode := batchMode st; sortedColumn := sortedColumn st;
     shadow := shadow st; console := console st ++ [args];
     dispatched := dispatched st |}).
Proof. intros st. auto. Qed.


End ComponentProps.

Import TableMakerComponent.

Create HintDb frame discriminated.
#[export] Hint Resolve untouched_refl untouched_trans same_source_refl
  same_source_trans other_shadow other_aggregateColumns other_transpose
  other_batchMode other_sortedColumn other_console : frame.

(** One step through a method built from [bindM], [lift], [read] and the
    field writes. *)
Ltac frame_step :=
  match goal with
  | |- keeps _ (bindM _ _) =>
      apply keeps_bind; [solve [eauto with frame] | | intros]
  | |- keeps _ (ret _) => apply keeps_ret; solve [eauto with frame]
  | |- keeps _ (lift _) => apply keeps_lift; solve [eauto with frame]
  | |- keeps _ (read _) => apply keeps_read; solve [eauto with frame]
  | |- keeps _ (forM _ _) =>
      apply keeps_forM;
        [solve [eauto with frame] | solve [eauto with frame] | intros]
  | |- keeps _ (if ?b then _ else _) => destruct b
  | |- keeps _ (match ?x with _ => _ end) => destruct x
  end.

Ltac frame_untouched :=
  repeat match goal with
         | |- keeps _ (write_style _ _) => apply write_style_untouched
         | |- keeps _ (modify _) => apply modify_untouched; auto with frame
         | |- _ => frame_step
         end.

Ltac frame_same_source :=
  repeat match goal with
         | |- keeps _ (write_style _ _) =>
             apply write_style_same_source; discriminate
         | |- keeps _ (modify _) => apply modify_same_source; auto with frame
         | |- _ => frame_step
         end.

Section RenderProps.
Context {N : Num} {H : Host}.
Import TableMakerComponent.
Local Open Scope m_scope.



Lemma render_untouched assign_data : keeps untouched (render assign_data).
Proof.
  unfold render, default_style, buildStandardTable, transposeTable,
    createAggregateColumnArray, set_shadow, set_aggregateColumns.
  frame_untouched.
Qed.

Lemma render_same_source assign_data :
  keeps same_source (render assign_data).
Proof.
  unfold render, default_style, buildStandardTable, transposeTable,
    createAggregateColumnArray, set_shadow, set_aggregateColumns.
  frame_same_source.
Qed.


Lemma prepare_same_source st st' :
  same_source st st' -> prepare st' = prepare st.
Proof.
  intros (Hr & Hc & Hg). unfold prepare, filterVisibleColumns.
  rewrite Hr, Hc, Hg. reflexivity.
Qed.

(** The [disp] of every cell of the prepared rows, row by row. *)
Definition disps (d : TableMaker.df) : list (list (string * value)) :=
  map (fun row =>
         match row with
         | VObj o =>
             map (fun kv : string * value => (fst kv, member (snd kv) "disp"))
               (filter (fun kv : string * value =>
                          negb (TableMaker.is_detail_key (fst kv))) o)
         | _ => []
         end) (TableMaker.df_rows d).

(** C1 as stated: a second pass of [createCellDisplayValues] over its own
    output leaves every [disp] as the first pass made it. *)
Definition disp_idempotent (d : TableMaker.df) : Prop :=
  forall d1 d2,
    TableMaker.createCellDisplayValues d = Ok d1 ->
    TableMaker.createCellDisplayValues d1 = Ok d2 ->
    disps d2 = disps d1.

(** C1, amended.  Every render derives the display cells from a deep copy of
    the raw rows the component holds, so rendering again derives the same
    cells, with the same [disp], as before; the cells of an earlier pass are
    never fed back.  Fed back they would not stay: for a column of type
    [text] a pass over a cell stores that whole cell as the new [disp]. *)
Theorem rederivation_is_stable (assign_data : value -> result unit)
  (st : component) :
  prepare (fst (render assign_data st)) = prepare st
  /\ (forall cols col raw,
        nullish (member (nullish (get cols col) (VObj [])) "type")
          (VStr COL_TYPES.TEXT) = VStr COL_TYPES.TEXT ->
        let cell := TableMaker.mk_cell (VStr COL_TYPES.TEXT) raw raw in
        TableMaker.derive_cell cols col raw = Ok cell
        /\ TableMaker.derive_cell cols col cell
           = Ok (TableMaker.mk_cell (VStr COL_TYPES.TEXT) cell cell)).
Proof.
  split.
  - apply prepare_same_source. apply render_same_source.
  - intros cols col raw Ht cell. unfold TableMaker.derive_cell.
    cbv zeta. rewrite Ht. unfold TableMaker.cell_disp.
    cbn [TableMaker.is_str String.eqb Ascii.eqb Bool.eqb orb
         COL_TYPES.TEXT COL_TYPES.MONEY COL_TYPES.MONEY2 COL_TYPES.FLOAT
         COL_TYPES.FLOAT5 COL_TYPES.PERCENT COL_TYPES.PERCENT1
         COL_TYPES.DATE].
    cbv beta iota. cbn [bind]. split; reflexivity.
Qed.

(** *** Malformed JSON *)

(** The state with two more lines on the console and nothing else changed. *)
Definition with_diagnostics (st : component) (l1 l2 : list value)
  : component :=
  {| tableData := tableData st; style := style st;
     style_shared := style_shared st;
     aggregateColumns := aggregateColumns st; transpose := transpose st;
     batchMode := batchMode st; sortedColumn := sortedColumn st;
     shadow := shadow st; console := (console st ++ [l1]) ++ [l2];
     dispatched := dispatched st |}.

(** C2.  A string that is not valid JSON, assigned to [data] or to
    [styleConfig], leaves the stored data, the stored style and the shadow
    root as they were (nothing is rendered: the call returns before
    [#render]) and puts two diagnostics on the console: the message with the
    offending string, and the parse error. *)
Theorem invalid_json_keeps_state (depth : nat) (st : component) (s : string) :
  JSON_parse s = None ->
  set_data depth (VStr s) st
  = (with_diagnostics st
       [VStr ("Invalid JSON supplied to <table-maker> “data” attribute:"
              ++ nl)%string;
        VStr s]
       [VStr "Parse error:"; VStr "SyntaxError"], Ok tt)
  /\ set_styleConfig depth (VStr s) st
     = (with_diagnostics st
          [VStr ("Invalid JSON supplied to <table-maker> “style-config” attribute:"
              ++ nl)%string;
           VStr s]
          [VStr "Parse error:"; VStr "SyntaxError"], Ok tt)
  /\ get_data (fst (set_data depth (VStr s) st)) = get_data st
  /\ get_styleConfig (fst (set_styleConfig depth (VStr s) st))
     = get_styleConfig st
  /\ shadow (fst (set_data depth (VStr s) st)) = shadow st
  /\ shadow (fst (set_styleConfig depth (VStr s) st)) = shadow st.
Proof.
  intros Hp.
  assert (Hd : set_data depth (VStr s) st
    = (with_diagnostics st
         [VStr ("Invalid JSON supplied to <table-maker> “data” attribute:"
              ++ nl)%string;
          VStr s]
         [VStr "Parse error:"; VStr "SyntaxError"], Ok tt)).
  { unfold set_data, set_data_with. rewrite Hp. reflexivity. }
  assert (Hs : set_styleConfig depth (VStr s) st
    = (with_diagnostics st
         [VStr ("Invalid JSON supplied to <table-maker> “style-config” attribute:"
              ++ nl)%string;
          VStr s]
         [VStr "Parse error:"; VStr "SyntaxError"], Ok tt)).
  { unfold set_styleConfig, set_styleConfig_with. rewrite Hp. reflexivity. }
  rewrite Hd, Hs. repeat split.
Qed.


(** *** Reading the data back *)

Lemma obj_update_twice {A} (k : string) (x y : A) (o : list (string * A)) :
  obj_update k x (obj_update k y o) = obj_update k x o.
Proof.
  induction o as [|[j z] o IH]; simpl; [reflexivity|].
  destruct (String.eqb j k) eqn:E; simpl; rewrite E; [reflexivity|].
  rewrite IH. reflexivity.
Qed.

(** [D'] is [D] with the rows in another order: the same row objects, each
    with the fields it had. *)
Definition rows_permuted (D D' : value) : Prop :=
  D' = D
  \/ exists o rows rows',
       D = VObj o /\ get o "rows" = VArr rows /\ Permutation rows rows'
       /\ D' = VObj (obj_update "rows" (VArr rows') o).

Lemma rows_permuted_trans D1 D2 D3 :
  rows_permuted D1 D2 -> rows_permuted D2 D3 -> rows_permuted D1 D3.
Proof.
  intros [->|(o & rows & rows' & -> & Hg & Hp & ->)] H23; [exact H23|].
  destruct H23 as [->|(o2 & rows2 & rows2' & Ho2 & Hg2 & Hp2 & ->)].
  - right. exists o, rows, rows'. auto.
  - injection Ho2 as <-. right. exists o, rows, rows2'.
    split; [reflexivity|]. split; [exact Hg|].
    assert (Hl : exists y, lookup "rows" o = Some y).
    { unfold get in Hg. destruct (lookup "rows" o) as [y|];
        [eauto | discriminate]. }
    destruct Hl as [y Hl].
    unfold get in Hg2. rewrite (lookup_obj_update_eq _ _ y) in Hg2 by exact Hl.
    injection Hg2 as <-.
    split; [etransitivity; eassumption|].
    rewrite obj_update_twice. reflexivity.
Qed.

(** The data object is the one handed in, up to the order of its rows. *)
Definition reordered (st st' : component) : Prop :=
  style_shared st = false ->
  rows_permuted (tableData st) (tableData st') /\ style_shared st' = false.

Lemma reordered_refl st : reordered st st.
Proof. intros Hs. split; [left; reflexivity | exact Hs]. Qed.

Lemma reordered_trans a b c :
  reordered a b -> reordered b c -> reordered a c.
Proof.
  intros Hab Hbc Hs. destruct (Hab Hs) as [Hp Hs'].
  destruct (Hbc Hs') as [Hp' Hs'']. split; [|exact Hs''].
  eapply rows_permuted_trans; eassumption.
Qed.

#[local] Hint Resolve reordered_refl reordered_trans : frame.

Lemma untouched_reordered {A} (m : M A) :
  keeps untouched m -> keeps reordered m.
Proof.
  intros Hm st Hs. destruct (Hm st Hs) as [Hd Hs'].
  split; [left; exact Hd | exact Hs'].
Qed.

Lemma set_style_untouched s : keeps untouched (set_style s false).
Proof. intros st Hs. simpl. auto. Qed.

Lemma sort_rows_reordered columnKey asc :
  keeps reordered (sort_rows columnKey asc).
Proof.
  intros st Hs. simpl. split; [|exact Hs].
  destruct (tableData st) as [| | | | | |o]; try (left; reflexivity).
  destruct (get o "rows") as [| | | | |rs|] eqn:Eg; try (left; reflexivity).
  right. exists o, rs, (sorted_rows (get o "cols") columnKey asc rs).
  repeat split; try assumption.
  unfold sorted_rows. apply array_sort_perm.
Qed.

Lemma click_toggle_untouched path i : keeps untouched (click_toggle path i).
Proof. unfold click_toggle, set_shadow. frame_untouched. Qed.

Section Calls.
Variable depth : nat.

Lemma rerender_untouched : keeps untouched (rerender depth).
Proof. apply render_untouched. Qed.

Lemma set_styleConfig_untouched v : keeps untouched (set_styleConfig depth v).
Proof.
  unfold set_styleConfig, set_styleConfig_with, default_style, console_error.
  destruct v; try destruct (JSON_parse s);
    repeat match goal with
           | |- keeps _ (set_style _ false) => apply set_style_untouched
           | |- keeps _ (render _) => apply render_untouched
           | |- keeps _ (write_style _ _) => apply write_style_untouched
           | |- keeps _ (modify _) => apply modify_untouched; auto with frame
           | |- _ => frame_step
           end.
Qed.

Lemma set_transpose_untouched v : keeps untouched (set_transpose depth v).
Proof.
  unfold set_transpose, set_transpose_with, set_transpose_field.
  repeat match goal with
         | |- keeps _ (render _) => apply render_untouched
         | |- keeps _ (modify _) => apply modify_untouched; auto with frame
         | |- _ => frame_step
         end.
Qed.

Lemma refresh_untouched : keeps untouched (refresh depth).
Proof.
  unfold refresh, refresh_with, set_batchMode.
  repeat match goal with
         | |- keeps _ (render _) => apply render_untouched
         | |- keeps _ (modify _) => apply modify_untouched; auto with frame
         | |- _ => frame_step
         end.
Qed.

Lemma sortBy_reordered columnKey asc :
  keeps reordered (sortBy depth columnKey asc).
Proof.
  unfold sortBy, set_sortedColumn.
  repeat match goal with
         | |- keeps _ (rerender _) =>
             apply untouched_reordered, rerender_untouched
         | |- keeps _ (sort_rows _ _) => apply sort_rows_reordered
         | |- keeps _ (modify _) =>
             apply untouched_reordered, modify_untouched; auto with frame
         | |- _ => frame_step
         end.
Qed.

Lemma header_click_reordered col : keeps reordered (header_click depth col).
Proof.
  unfold header_click.
  repeat match goal with
         | |- keeps _ (sortBy _ _ _) => apply sortBy_reordered
         | |- _ => frame_step
         end.
Qed.

(** What a page does with the element once its data is set. *)
Inductive call : Type :=
  | Rerender
  | Refresh
  | BeginBatch
  | SetTranspose (v : value)
  | SetStyleConfig (v : value)
  | ClickToggle (path : list nat) (i : nat)
  | SortBy (columnKey : string) (asc : bool)
  | HeaderClick (col : string).

Definition is_sort (c : call) : bool :=
  match c with
  | SortBy _ _ | HeaderClick _ => true
  | _ => false
  end.

Definition run (c : call) : M unit :=
  match c with
  | Rerender => rerender depth
  | Refresh => refresh depth
  | BeginBatch => beginBatch
  | SetTranspose v => set_transpose depth v
  | SetStyleConfig v => set_styleConfig depth v
  | ClickToggle path i => click_toggle path i
  | SortBy columnKey asc => sortBy depth columnKey asc
  | HeaderClick col => header_click depth col
  end.

(** The calls one after the other; a call that throws leaves the state it
    reached. *)
Definition run_all (cs : list call) (st : component) : component :=
  fold_left (fun st c => fst (run c st)) cs st.

Lemma run_untouched c : is_sort c = false -> keeps untouched (run c).
Proof.
  destruct c; simpl; intros Hc; try discriminate.
  - apply rerender_untouched.
  - apply refresh_untouched.
  - apply modify_untouched. auto with frame.
  - apply set_transpose_untouched.
  - apply set_styleConfig_untouched.
  - apply click_toggle_untouched.
Qed.

Lemma run_reordered c : keeps reordered (run c).
Proof.
  destruct (is_sort c) eqn:E.
  - destruct c; try discriminate; simpl.
    + apply sortBy_reordered.
    + apply header_click_reordered.
  - apply untouched_reordered, run_untouched. exact E.
Qed.

Lemma run_all_untouched cs st :
  forallb (fun c => negb (is_sort c)) cs = true ->
  untouched st (run_all cs st).
Proof.
  revert st. induction cs as [|c cs IH]; intros st Hcs; simpl.
  - apply untouched_refl.
  - simpl in Hcs. apply andb_prop in Hcs. destruct Hcs as [Hc Hcs].
    eapply untouched_trans; [|apply IH; exact Hcs].
    apply run_untouched. destruct (is_sort c); [discriminate | reflexivity].
Qed.

Lemma run_all_reordered cs st : reordered st (run_all cs st).
Proof.
  revert st. induction cs as [|c cs IH]; intros st; simpl.
  - apply reordered_refl.
  - eapply reordered_trans; [apply run_reordered | apply IH].
Qed.

(** The state [set data(D)] reaches for an object [D] without a [style]
    member, before it renders. *)
Lemma set_data_object (o : list (string * value)) (st : component) :
  lookup "style" o = None ->
  exists st0,
    tableData st0 = VObj o /\ style_shared st0 = false
    /\ exists m : M unit,
         keeps untouched m /\ set_data depth (VObj o) st = m st0.
Proof.
  intros Hno. unfold set_data, set_data_with.
  unfold prop, member, get. rewrite Hno.
  eexists
    {| tableData := VObj o; style := VObj []; style_shared := false;
       aggregateColumns := aggregateColumns st; transpose := transpose st;
       batchMode := batchMode st; sortedColumn := sortedColumn st;
       shadow := shadow st; console := console st;
       dispatched := dispatched st |}.
  split; [reflexivity|]. split; [reflexivity|].
  exists (default_style "cssType" (VStr DEFAULTS.CSS_TYPE) ;;;
          b <~ read batchMode ;;
          if b then ret tt else render (assign_nested depth)).
  split; [|reflexivity].
  unfold default_style.
  repeat match goal with
         | |- keeps _ (render _) => apply render_untouched
         | |- keeps _ (write_style _ _) => apply write_style_untouched
         | |- _ => frame_step
         end.
Qed.

(** C7.  For an object [D] of the data model (caption, cols, rows; no [style]
    member), assigning [D] to [data] and reading [data] back gives [D]; so
    does reading it after any further renders, refreshes, style or transpose
    assignments and toggles: rendering works on a copy and writes nothing to
    [D].  With sort calls among them, what is read back is [D] with its rows
    permuted, every row as it was. *)
Theorem data_round_trip (o : list (string * value)) (st : component) :
  lookup "style" o = None ->
  let st1 := fst (set_data depth (VObj o) st) in
  get_data st1 = VObj o
  /\ (forall cs, forallb (fun c => negb (is_sort c)) cs = true ->
                 get_data (run_all cs st1) = VObj o)
  /\ (forall cs, rows_permuted (VObj o) (get_data (run_all cs st1))).
Proof.
  intros Hno st1.
  destruct (set_data_object o st Hno) as (st0 & Hd & Hs & m & Hm & Hrun).
  assert (H1 : tableData st1 = VObj o /\ style_shared st1 = false).
  { subst st1. rewrite Hrun. destruct (Hm st0 Hs) as [Hd' Hs'].
    split; congruence. }
  destruct H1 as [Hd1 Hs1]. unfold get_data. split; [exact Hd1|]. split.
  - intros cs Hcs. destruct (run_all_untouched cs st1 Hcs Hs1) as [Hd' _].
    congruence.
  - intros cs. destruct (run_all_reordered cs st1 Hs1) as [Hp _].
    rewrite Hd1 in Hp. exact Hp.
Qed.

End Calls.

End RenderProps.

(** ** Sorting by a header click *)



(** What the statements on sorting ask of the host: signs of integer
    literals and of negation, [<] never holding both ways, and comparisons
    that give opposite signs, and zero together, when their arguments are
    swapped. *)
Class Laws {N : Num} {H : Host} : Prop := {
  nsign_nofZ : forall z, nsign (nofZ z) = Z.sgn z;
  nsign_nneg : forall x, nsign (nneg x) = (- nsign x)%Z;
  nlt_asym : forall a b, nlt a b = true -> nlt b a = false;
  localeCompare_numeric_base_swap : forall a b,
    nsign (localeCompare_numeric_base a b)
    = (- nsign (localeCompare_numeric_base b a))%Z;
  localeCompare_swap : forall a b,
    nsign (localeCompare a b) = (- nsign (localeCompare b a))%Z;
  localeCompare_zero_swap : forall a b,
    neqb (localeCompare a b) (nofZ 0) = neqb (localeCompare b a) (nofZ 0);
  nsub_swap : forall a b, nsign (nsub a b) = (- nsign (nsub b a))%Z;
  nsub_zero_swap : forall a b,
    neqb (nsub a b) (nofZ 0) = neqb (nsub b a) (nofZ 0)
}.

Section SortingClaims.
Context {N : Num} {H : Host} {L : Laws}.
Import TableMakerComponent.
Local Open Scope m_scope.

Lemma sort_by_ext {A} (c c' : A -> A -> num) (l : list A) :
  (forall a b, c a b = c' a b) -> sort_by c l = sort_by c' l.
Proof.
  intros Hext. induction l as [|x l IH]; simpl; [reflexivity|].
  rewrite IH. generalize (sort_by c' l) as s. intros s.
  induction s as [|y s IHs]; simpl; [reflexivity|].
  rewrite Hext, IHs. reflexivity.
Qed.

Lemma Sorted_weaken {A} (R R' : A -> A -> Prop) (l : list A) :
  (forall a b, R a b -> R' a b) -> Sorted R l -> Sorted R' l.
Proof.
  intros Himp Hs. induction Hs as [|a l Hs IH Hhd]; constructor.
  - exact IH.
  - destruct Hhd; constructor. apply Himp. assumption.
Qed.

(** Swapping the arguments of [comparator] flips the sign of its result. *)
Lemma comparator_swap (type columnKey : string) (a b : value) :
  nsign (comparator type columnKey a b)
  = (- nsign (comparator type columnKey b a))%Z.
Proof.
  unfold comparator.
  set (na := normalize type (member a columnKey)).
  set (nb := normalize type (member b columnKey)).
  assert (Hnum : forall x y : num,
    nsign (if nlt x y then nofZ (-1)
           else if nlt y x then nofZ 1 else nofZ 0)
    = (- nsign (if nlt y x then nofZ (-1)
                else if nlt x y then nofZ 1 else nofZ 0))%Z).
  { intros x y. destruct (nlt x y) eqn:Exy.
    - rewrite (nlt_asym _ _ Exy). rewrite !nsign_nofZ. reflexivity.
    - destruct (nlt y x); rewrite !nsign_nofZ; reflexivity. }
  destruct na, nb; try apply Hnum.
  apply localeCompare_numeric_base_swap.
Qed.

Lemma defined_rows (rows : list value) :
  forallb (fun v => negb (is_undefined v) && negb (is_null v)) rows = true ->
  filter (fun v => negb (is_undefined v)) rows = rows
  /\ filter is_undefined rows = []
  /\ existsb is_null rows = false.
Proof.
  induction rows as [|r rows IH]; simpl; intros Hall; [auto|].
  apply andb_prop in Hall. destruct Hall as [Hr Hall].
  apply andb_prop in Hr. destruct Hr as [Hu Hn].
  destruct (IH Hall) as (IH1 & IH2 & IH3).
  destruct (is_undefined r); [discriminate|].
  destruct (is_null r); [discriminate|]. simpl.
  rewrite IH1, IH2, IH3. auto.
Qed.

Lemma sorted_rows_defined cols columnKey asc rows :
  forallb (fun v => negb (is_undefined v) && negb (is_null v)) rows = true ->
  sorted_rows cols columnKey asc rows
  = sort_by (sort_compare (column_sort_type cols columnKey) columnKey asc)
      rows.
Proof.
  intros Hall. destruct (defined_rows rows Hall) as (H1 & H2 & _).
  unfold sorted_rows, array_sort. rewrite H1, H2. apply app_nil_r.
Qed.

(** [#sortBy] on data whose rows are records: the rows are sorted in place,
    the sort state is set and the table rendered again. *)
Lemma sortBy_runs depth st o rows columnKey asc :
  tableData st = VObj o -> get o "rows" = VArr rows ->
  forallb (fun v => negb (is_undefined v) && negb (is_null v)) rows = true ->
  sortBy depth columnKey asc st
  = (set_sortedColumn (VStr columnKey, asc) ;;; rerender depth)
      (fst (sort_rows columnKey asc st)).
Proof.
  intros Hd Hr Hall. destruct (defined_rows rows Hall) as (H1 & _ & H3).
  unfold sortBy. unfold bindM at 1. unfold read at 1. rewrite Hd.
  cbn [member]. rewrite Hr. cbn [truthy negb].
  unfold bindM at 1. cbn [lift as_array].
  rewrite H1, H3. rewrite andb_false_r.
  reflexivity.
Qed.

Lemma sortBy_rows depth st o rows columnKey asc :
  tableData st = VObj o -> get o "rows" = VArr rows ->
  forallb (fun v => negb (is_undefined v) && negb (is_null v)) rows = true ->
  prop (tableData (fst (sortBy depth columnKey asc st))) "rows"
  = Ok (VArr (sorted_rows (get o "cols") columnKey asc rows)).
Proof.
  intros Hd Hr Hall. rewrite (sortBy_runs depth st o rows) by assumption.
  assert (Hk : keeps same_source
                 (set_sortedColumn (VStr columnKey, asc) ;;; rerender depth)).
  { unfold set_sortedColumn, rerender.
    repeat match goal with
           | |- keeps _ (render _) => apply render_same_source
           | |- keeps _ (modify _) =>
               apply modify_same_source; auto with frame
           | |- _ => frame_step
           end. }
  destruct (Hk (fst (sort_rows columnKey asc st))) as (Hrows & _).
  rewrite Hrows. simpl. rewrite Hd, Hr.
  unfold prop, member, get.
  assert (Hl : exists y, lookup "rows" o = Some y).
  { unfold get in Hr. destruct (lookup "rows" o); [eauto | discriminate]. }
  destruct Hl as [y Hl]. rewrite (lookup_obj_update_eq _ _ y) by exact Hl.
  reflexivity.
Qed.




(** *** Groups and subtotals *)

Lemma mapM_idx_In {A B} (f : A -> Z -> result B) (l : list A) :
  forall i ys, mapM_idx f l i = Ok ys ->
  forall y, In y ys -> exists x j, In x l /\ f x j = Ok y.
Proof.
  induction l as [|x l IH]; intros i ys Hm y Hy; simpl in Hm.
  - injection Hm as <-. destruct Hy.
  - destruct (f x i) as [y0|e] eqn:Ef; simpl in Hm; [|discriminate].
    destruct (mapM_idx f l (i + 1)) as [ys'|e] eqn:E; simpl in Hm;
      [|discriminate].
    injection Hm as <-. destruct Hy as [<-|Hy].
    + exists x, i. split; [left; reflexivity | exact Ef].
    + destruct (IH _ _ E y Hy) as (x' & j & Hin & Hf).
      exists x', j. split; [right; exact Hin | exact Hf].
Qed.

(** A prepared row is never [null] or [undefined]. *)
Lemma prepared_rows_defined (d d' : TableMaker.df) :
  TableMaker.createCellDisplayValues d = Ok d' ->
  forallb (fun v => negb (is_undefined v) && negb (is_null v))
    (TableMaker.df_rows d') = true.
Proof.
  unfold TableMaker.createCellDisplayValues, mapM.
  destruct (mapM_idx _ (TableMaker.df_rows d) 0) as [rows|e] eqn:E; simpl;
    [|discriminate].
  intros Hq. injection Hq as <-. simpl.
  apply forallb_forall. intros y Hy.
  destruct (mapM_idx_In _ _ _ _ E y Hy) as (x & j & _ & Hf).
  unfold TableMaker.derive_row in Hf.
  destruct x as [| | | |s|l|o]; try discriminate.
  - injection Hf as <-. reflexivity.
  - injection Hf as <-. reflexivity.
  - destruct (String.eqb s ""); [|discriminate].
    injection Hf as <-. reflexivity.
  - destruct (mapM_idx _ l 0); simpl in Hf; [|discriminate].
    injection Hf as <-. reflexivity.
  - destruct (mapM _ o); simpl in Hf; [|discriminate].
    injection Hf as <-. reflexivity.
Qed.

(** Swapping the arguments of the group comparator flips its sign. *)
Lemma group_compare_swap (spec : list (value * bool)) (a b : value) :
  nsign (group_compare spec a b)
  = (- nsign (group_compare spec b a))%Z.
Proof.
  induction spec as [|[col desc] spec IH]; simpl.
  - rewrite nsign_nofZ. reflexivity.
  - set (av := nullish (cell_value a col) (VStr "")).
    set (bv := nullish (cell_value b col) (VStr "")).
    assert (Hgen : forall x y : num,
      (neqb x (nofZ 0) = neqb y (nofZ 0)) ->
      nsign x = (- nsign y)%Z ->
      nsign (if negb (neqb x (nofZ 0))
             then (if desc then nneg x else x)
             else group_compare spec a b)
      = (- nsign (if negb (neqb y (nofZ 0))
                  then (if desc then nneg y else y)
                  else group_compare spec b a))%Z).
    { intros x y Hz Hs. rewrite Hz.
      destruct (neqb y (nofZ 0)); simpl; [exact IH|].
      destruct desc; rewrite ?nsign_nneg; lia. }
    destruct av, bv;
      try (apply Hgen; [apply localeCompare_zero_swap
                       | apply localeCompare_swap]).
    apply Hgen; [apply nsub_zero_swap | apply nsub_swap].
Qed.

(** The number a row contributes to the sum of column [col]: the [value] of
    its cell, or 0 without a cell; [None] when the row is not a record or the
    value is not a number. *)
Definition cell_number (col : string) (r : value) : option num :=
  match r with
  | VUndef | VNull => None
  | _ =>
      if truthy (member r col) then
        match member (member r col) "value" with
        | VNum n => Some n
        | _ => None
        end
      else Some (nofZ 0)
  end.

Fixpoint column_numbers (col : string) (rows : list value)
  : option (list num) :=
  match rows with
  | [] => Some []
  | r :: rows' =>
      match cell_number col r, column_numbers col rows' with
      | Some n, Some ns => Some (n :: ns)
      | _, _ => None
      end
  end.

Lemma sum_fold (col : string) (rows : list value) :
  forall ns acc,
  column_numbers col rows = Some ns ->
  foldM (fun acc r =>
           cell <- prop r col ;;
           Ok (js_add acc (if truthy cell then member cell "value"
                           else VNum (nofZ 0)))) rows (VNum acc)
  = Ok (VNum (fold_left nadd ns acc)).
Proof.
  induction rows as [|r rows IH]; intros ns acc Hc; simpl in Hc.
  - injection Hc as <-. reflexivity.
  - destruct (cell_number col r) as [n|] eqn:En; [|discriminate].
    destruct (column_numbers col rows) as [ns'|] eqn:Ens; [|discriminate].
    injection Hc as <-. cbn [foldM fold_left].
    unfold cell_number in En.
    assert (Hstep : (cell <- prop r col ;;
                     Ok (js_add (VNum acc)
                           (if truthy cell then member cell "value"
                            else VNum (nofZ 0))))
                    = Ok (VNum (nadd acc n))).
    { destruct r; try discriminate; cbn [prop bind];
        (destruct (truthy (member _ col));
         [ destruct (member (member _ col) "value"); try discriminate;
           injection En as <-; reflexivity
         | injection En as <-; reflexivity ]). }
    rewrite Hstep. cbn [bind]. apply IH. reflexivity.
Qed.

(** The name under which a column's aggregate is stored. *)
Definition aggregate_name (colInfo : value) : string :=
  ToString (member colInfo "col").

Lemma aggregate_disp_value (colInfo aggVal : value) (vd : value * value) :
  TableMaker.is_str (nullish (member colInfo "type") (VStr COL_TYPES.TEXT))
    COL_TYPES.MONEY2 = false ->
  aggregate_disp colInfo aggVal = Ok vd -> fst vd = aggVal.
Proof.
  intros Hty. unfold aggregate_disp. cbv zeta. rewrite Hty.
  destruct (TableMaker.is_str _ COL_TYPES.MONEY).
  { destruct (Formatter.formatMoney aggVal _ VUndef); simpl; intros Hq;
      [injection Hq as <-; reflexivity | discriminate]. }
  destruct (TableMaker.is_str _ COL_TYPES.FLOAT).
  { destruct (Formatter.formatNumber aggVal _); simpl; intros Hq;
      [injection Hq as <-; reflexivity | discriminate]. }
  destruct (TableMaker.is_str _ COL_TYPES.FLOAT5).
  { destruct (Formatter.formatNumber _ _); simpl; intros Hq;
      [injection Hq as <-; reflexivity | discriminate]. }
  destruct (_ || _).
  { destruct (Formatter.formatPercent aggVal _); simpl; intros Hq;
      [injection Hq as <-; reflexivity | discriminate]. }
  intros Hq. injection Hq as <-. reflexivity.
Qed.

Lemma calc_get (rows : list value) (aggCols : list value) :
  forall res0 res,
  NoDup (map aggregate_name aggCols) ->
  foldM (aggregate_column rows) aggCols res0 = Ok res ->
  (forall k, ~ In k (map aggregate_name aggCols) -> get res k = get res0 k)
  /\ (forall ci, In ci aggCols ->
        exists aggVal vd,
          aggregate_value ci rows = Ok aggVal
          /\ aggregate_disp ci aggVal = Ok vd
          /\ get res (aggregate_name ci)
             = VObj [("value", fst vd); ("disp", snd vd)]).
Proof.
  induction aggCols as [|c aggCols IH]; intros res0 res Hnd Hf;
    cbn [foldM] in Hf.
  - injection Hf as <-. split; [reflexivity | intros ci []].
  - inversion Hnd as [|? ? Hnotin Hnd']; subst.
    unfold aggregate_column at 1 in Hf.
    destruct (aggregate_value c rows) as [aggVal|e] eqn:Ev; cbn [bind] in Hf;
      [|discriminate].
    destruct (aggregate_disp c aggVal) as [vd|e] eqn:Ed; cbn [bind] in Hf;
      [|discriminate].
    destruct (IH _ _ Hnd' Hf) as [Hother Hin]. split.
    + intros k Hk. rewrite Hother by (intros Hk'; apply Hk; right; exact Hk').
      unfold get. rewrite lookup_obj_set_ne; [reflexivity|].
      intros Hq. apply Hk. left. exact Hq.
    + intros ci [<-|Hci]; [|apply Hin; exact Hci].
      exists aggVal, vd. split; [exact Ev|]. split; [exact Ed|].
      rewrite Hother by exact Hnotin.
      unfold get, aggregate_name. rewrite lookup_obj_set_eq. reflexivity.
Qed.

Lemma foldM_total {A B} (f : B -> A -> result B) (l : list A) :
  (forall acc x, In x l -> exists b, f acc x = Ok b) ->
  forall acc, exists b, foldM f l acc = Ok b.
Proof.
  induction l as [|x l IH]; intros Hf acc; simpl; [eauto|].
  destruct (Hf acc x (or_introl eq_refl)) as [b Hb]. rewrite Hb. simpl.
  apply IH. intros acc' y Hy. apply Hf. right. exact Hy.
Qed.


Lemma prepare_rows_defined (st : component) (prepared : TableMaker.df) :
  prepare st = Ok prepared ->
  forallb (fun v => negb (is_undefined v) && negb (is_null v))
    (TableMaker.df_rows prepared) = true.
Proof.
  unfold prepare.
  destruct (prop (tableData st) "rows") as [rows|]; simpl; [|discriminate].
  destruct (json_clone rows) as [copy|]; simpl; [|discriminate].
  destruct (prop (tableData st) "cols") as [cols|]; simpl; [|discriminate].
  destruct (filterVisibleColumns st cols) as [visible|]; simpl;
    [|discriminate].
  destruct (as_array copy) as [rs|]; simpl; [|discriminate].
  apply prepared_rows_defined.
Qed.


End SortingClaims.

(** ** A dual-currency value that is no array *)

Section Money2Props.
Context {N : Num} {H : Host}.

(** The table of the failing input: one [money_2] column aggregated with
    ['sum'], one row whose value for it is the number 5. *)
Definition money2_data : value :=
  VObj [("cols", VObj [("p", VObj [("type", VStr COL_TYPES.MONEY2);
                                  ("aggregate", VStr "sum")])]);
        ("rows", VArr [VObj [("p", VNum (nofZ 5))]])].

(** The element after [data = money2_data] on a fresh instance. *)
Definition money2_element : component * result unit :=
  set_data 1 money2_data initial.

(** On every host the cell of the row degrades to an empty display string,
    and summing the column throws: [forEach] is called on the number. *)
Lemma money2_cell_and_sum :
  TableMaker.derive_cell
    [("p", VObj [("type", VStr COL_TYPES.MONEY2); ("aggregate", VStr "sum")])]
    "p" (VNum (nofZ 5))
  = Ok (TableMaker.mk_cell (VStr COL_TYPES.MONEY2) (VNum (nofZ 5)) (VStr ""))
  /\ aggregate_value
       (VObj [("col", VStr "p"); ("type", VStr COL_TYPES.MONEY2);
              ("precision", VNum (nofZ 0)); ("aggregate", VStr "sum")])
       [VObj [("p", TableMaker.mk_cell (VStr COL_TYPES.MONEY2)
                      (VNum (nofZ 5)) (VStr ""))]]
     = Throw TypeError.
Proof. split; reflexivity. Qed.

End Money2Props.

(** C8, the code at the failing input.  The cell of the row degrades to an
    empty display string, as the claim says; the footer does not: summing
    the column calls [forEach] on the number, the [TypeError] leaves
    [calcGroupAggregates] and [#render], and the shadow root, cleared at the
    start of the render, stays empty. *)
Theorem money2_sum_breaks_render :
  TableMaker.derive_cell (H := Demo.DemoHost)
    [("p", VObj [("type", VStr COL_TYPES.MONEY2); ("aggregate", VStr "sum")])]
    "p" (VNum (nofZ 5))
  = Ok (TableMaker.mk_cell (VStr COL_TYPES.MONEY2) (VNum (nofZ 5)) (VStr ""))
  /\ snd (money2_element (H := Demo.DemoHost)) = Throw TypeError
  /\ shadow (fst (money2_element (H := Demo.DemoHost))) = [].
Proof.
  split; [reflexivity|]. split; vm_compute; reflexivity.
Qed.

(** ** The tab handler *)

Module TabProps.
Import TabHandlerComponent.

(** Induction over a handler and the handlers nested in its panes. *)
Lemma handler_nested_ind (P : handler -> Prop) :
  (forall hid path tabData panes,
     (forall p h', In p panes -> In h' (p_children p) -> P h') ->
     P (Handler hid path tabData panes)) ->
  forall h, P h.
Proof.
  intros Hstep. fix IH 1. intros [hid path tabData panes]. apply Hstep.
  induction panes as [|[e a d u s c] panes IHp]; intros p h' Hin Hh'.
  - destruct Hin.
  - destruct Hin as [<-|Hin]; [|exact (IHp p h' Hin Hh')].
    simpl in Hh'. clear IHp. induction c as [|h0 c IHc].
    + destruct Hh'.
    + destruct Hh' as [<-|Hh']; [apply IH | exact (IHc Hh')].
Qed.

(** The [unrendered] markers of all panes of a handler and of the handlers
    nested in it, in document order. *)
Fixpoint markers (h : handler) : list bool :=
  match h with
  | Handler _ _ _ panes =>
      List.concat
        (map (fun p => match p with
                       | Pane _ _ _ u _ c => u :: List.concat (map markers c)
                       end) panes)
  end.

Definition pane_markers (p : pane) : list bool :=
  match p with
  | Pane _ _ _ u _ c => u :: List.concat (map markers c)
  end.

Lemma markers_panes (h : handler) :
  markers h = List.concat (map pane_markers (h_panes h)).
Proof. destruct h. reflexivity. Qed.

Definition count_true (ms : list bool) : nat :=
  List.length (filter (fun b => b) ms).

(** From [ms] to [ms'] no marker is set, and [n] of them are cleared. *)
Definition advance (ms ms' : list bool) (n : nat) : Prop :=
  Forall2 (fun u u' => u' = true -> u = true) ms ms'
  /\ count_true ms = (count_true ms' + n)%nat.

Lemma advance_refl ms : advance ms ms 0.
Proof.
  split; [|lia]. induction ms; constructor; auto.
Qed.

Lemma advance_app a a' n b b' m :
  advance a a' n -> advance b b' m -> advance (a ++ b) (a' ++ b') (n + m).
Proof.
  intros [Ha Hn] [Hb Hm]. split.
  - apply Forall2_app; assumption.
  - unfold count_true in *. rewrite !filter_app, !length_app. lia.
Qed.

Lemma advance_cons u u' a a' n k :
  advance [u] [u'] k -> advance a a' n ->
  advance (u :: a) (u' :: a') (k + n).
Proof. intros H1 H2. apply (advance_app [u] [u'] k a a' n); assumption. Qed.

Lemma pane_markers_hide p : pane_markers (hide p) = pane_markers p.
Proof. destruct p. reflexivity. Qed.

Lemma panes_markers_hide ps :
  List.concat (map pane_markers (map hide ps))
  = List.concat (map pane_markers ps).
Proof.
  induction ps as [|p ps IH]; simpl; [reflexivity|].
  rewrite pane_markers_hide, IH. reflexivity.
Qed.

(** The first pane with the content id of [id]: what [getElementById]
    finds. *)
Definition find_pane (id : string) (ps : list pane) : option pane :=
  find (fun p => String.eqb (p_entry p) id) ps.


Lemma select_advance (open : handler -> string -> outcome)
  (path : option (list string)) (id : string) (ps : list pane) :
  (forall p h0 id0 h1 evs r,
     In p ps -> In h0 (p_children p) -> open h0 id0 = (h1, evs, r) ->
     advance (markers h0) (markers h1) (List.length evs)) ->
  forall ps' evs r,
    select open path id ps = (ps', evs, r) ->
    advance (List.concat (map pane_markers ps))
      (List.concat (map pane_markers ps')) (List.length evs).
Proof.
  induction ps as [|[e a d u s c] ps IH]; intros Hopen ps' evs r Hsel;
    simpl in Hsel.
  - injection Hsel as <- <- <-. apply advance_refl.
  - destruct (String.eqb e id).
    + destruct c as [|nested c'].
      * unfold populate in Hsel. destruct u; simpl in Hsel.
        -- destruct path as [pth|]; injection Hsel as <- <- <-; simpl;
             rewrite panes_markers_hide.
           ++ apply (advance_cons true false _ _ 0 1);
                [|apply advance_refl].
              split; [constructor; [discriminate | constructor]|].
              reflexivity.
           ++ apply advance_refl.
        -- injection Hsel as <- <- <-. simpl. rewrite panes_markers_hide.
           apply advance_refl.
      * destruct (h_tabData nested) as [|firstSpec rest].
        -- injection Hsel as <- <- <-. simpl. rewrite panes_markers_hide.
           apply advance_refl.
        -- destruct (open nested (leaf_id firstSpec)) as [[nested' evs0] r0]
             eqn:Eo.
           injection Hsel as <- <- <-. simpl. rewrite panes_markers_hide.
           assert (Hn : advance (markers nested) (markers nested')
                          (List.length evs0)).
           { eapply (Hopen (Pane e a d u s (nested :: c')));
               [left; reflexivity | left; reflexivity | exact Eo]. }
           replace (List.length evs0)
             with (0 + ((List.length evs0 + 0) + 0))%nat by lia.
           apply advance_cons; [apply advance_refl|].
           apply advance_app; [|apply advance_refl].
           apply advance_app; [exact Hn | apply advance_refl].
    + destruct (select open path id ps) as [[ps'' evs0] r0] eqn:Es.
      injection Hsel as <- <- <-.
      change (advance
                (pane_markers (Pane e a d u s c)
                 ++ List.concat (map pane_markers ps))
                (pane_markers (hide (Pane e a d u s c))
                 ++ List.concat (map pane_markers ps''))
                (0 + List.length evs0)).
      rewrite pane_markers_hide.
      apply advance_app; [apply advance_refl|].
      apply (IH (fun p h0 id0 h1 evs r Hp =>
                   Hopen p h0 id0 h1 evs r (or_intror Hp)) ps'' evs0 r0).
      reflexivity.
Qed.

(** Whatever tab is opened, no marker is set, and as many markers are
    cleared as events are dispatched: an event goes with the first reveal of
    a pane and with nothing else. *)
Lemma openTab_advance (h : handler) :
  forall id h' evs r,
    openTab h id = (h', evs, r) ->
    advance (markers h) (markers h') (List.length evs).
Proof.
  induction h as [hid path tabData panes IH] using handler_nested_ind.
  intros id h' evs r Hopen. simpl in Hopen.
  destruct (select openTab path id panes) as [[panes' evs0] r0] eqn:Es.
  injection Hopen as <- <- <-. simpl.
  eapply select_advance; [|exact Es].
  intros p h0 id0 h1 evs r Hp Hh0 Ho. eapply IH; eassumption.
Qed.

Lemma find_pane_hide id ps :
  find_pane id (map hide ps) = option_map hide (find_pane id ps).
Proof.
  induction ps as [|[e a d u s c] ps IH]; simpl; [reflexivity|].
  destruct (String.eqb e id); [reflexivity | exact IH].
Qed.

(** Opening a pane without nested handler: the event goes out when the
    marker is there, and only then; the marker is gone afterwards. *)
Lemma select_leaf (open : handler -> string -> outcome)
  (pth : list string) (id : string) (ps : list pane) (p : pane) :
  find_pane id ps = Some p -> p_children p = [] ->
  exists ps',
    select open (Some pth) id ps
    = (ps',
       if p_unrendered p
       then [{| ev_path := pth; ev_tabID := id; ev_tabSpec := p_spec p |}]
       else [],
       Ok tt)
    /\ find_pane id ps'
       = Some (Pane (p_entry p) true "block" false (p_spec p) []).
Proof.
  induction ps as [|[e a d u s c] ps IH]; simpl; [discriminate|].
  destruct (String.eqb e id) eqn:E.
  - intros Hq Hc. injection Hq as <-. simpl in Hc. subst c. simpl.
    destruct u; simpl; eexists; (split; [reflexivity|]); simpl;
      rewrite E; reflexivity.
  - intros Hf Hc. destruct (IH Hf Hc) as (ps' & Hs & Hf').
    rewrite Hs. eexists. split; [reflexivity|]. simpl. rewrite E. exact Hf'.
Qed.


(** *** Nested handlers *)

(** Induction over a tab specification and its child tabs. *)
Lemma tabSpec_nested_ind (P : tabSpec -> Prop) :
  (forall id title tabs,
     (forall l t, tabs = Some l -> In t l -> P t) ->
     P (TabSpec id title tabs)) ->
  forall t, P t.
Proof.
  intros Hstep. fix IH 1. intros [id title tabs]. apply Hstep.
  destruct tabs as [l0|]; [|discriminate].
  intros l t Hq. injection Hq as <-.
  induction l0 as [|t0 l0 IHl]; intros Hin.
  - destruct Hin.
  - destruct Hin as [<-|Hin]; [apply IH | exact (IHl Hin)].
Qed.

(** What identifies a handler: its id, its path and its tab data. *)
Definition sig (h : handler) : string * option (list string) * list tabSpec :=
  (h_id h, h_path h, h_tabData h).

(** What stays of a pane while tabs are opened: its entry id, its
    specification and the identity of the handlers nested in it. *)
Definition pane_sig (p : pane)
  : string * tabSpec * list (string * option (list string) * list tabSpec) :=
  (p_entry p, p_spec p, map sig (p_children p)).

Lemma openTab_sig (h : handler) (id : string) :
  sig (fst (fst (openTab h id))) = sig h.
Proof.
  destruct h as [hid path tabData panes]. simpl.
  destruct (select openTab path id panes) as [[ps evs] r]. reflexivity.
Qed.

Lemma pane_sig_hide p : pane_sig (hide p) = pane_sig p.
Proof. destruct p. reflexivity. Qed.

Lemma select_pane_sig (path : option (list string)) (id : string)
  (ps : list pane) :
  map pane_sig (fst (fst (select openTab path id ps))) = map pane_sig ps.
Proof.
  induction ps as [|[e a d u s c] ps IH]; simpl; [reflexivity|].
  assert (Hh : map pane_sig (map hide ps) = map pane_sig ps).
  { rewrite map_map. apply map_ext. intros p. apply pane_sig_hide. }
  destruct (String.eqb e id).
  - destruct c as [|nested c'].
    + unfold populate. destruct u; simpl; [destruct path|]; simpl;
        rewrite Hh; reflexivity.
    + destruct (h_tabData nested) as [|firstSpec rest]; simpl.
      * rewrite Hh. reflexivity.
      * pose proof (openTab_sig nested (leaf_id firstSpec)) as Hs.
        destruct (openTab nested (leaf_id firstSpec)) as [[nested' evs] r].
        simpl in *. rewrite Hh. unfold pane_sig at 1 3. simpl.
        rewrite Hs. reflexivity.
  - destruct (select openTab path id ps) as [[ps' evs] r]. simpl in *.
    rewrite IH. reflexivity.
Qed.

Lemma openTab_pane_sig (h : handler) (id : string) :
  map pane_sig (h_panes (fst (fst (openTab h id))))
  = map pane_sig (h_panes h).
Proof.
  destruct h as [hid path tabData panes]. simpl.
  pose proof (select_pane_sig path id panes) as Hs.
  destruct (select openTab path id panes) as [[ps evs] r]. exact Hs.
Qed.

(** Finding a pane goes by the entry ids alone. *)
Lemma find_pane_sig (id : string) (ps ps' : list pane) :
  map pane_sig ps = map pane_sig ps' ->
  option_map pane_sig (find_pane id ps)
  = option_map pane_sig (find_pane id ps').
Proof.
  revert ps'. induction ps as [|p ps IH]; intros [|p' ps'] Hm;
    try discriminate; [reflexivity|].
  cbn [map] in Hm. injection Hm as He Hs Hc Hm.
  destruct p as [e a d u s c], p' as [e' a' d' u' s' c'].
  simpl in He, Hs, Hc. subst e' s'. unfold find_pane. cbn [find p_entry].
  destruct (String.eqb e id); cbn [option_map].
  - unfold pane_sig. simpl. rewrite Hc. reflexivity.
  - apply IH. exact Hm.
Qed.

Lemma find_pane_In (id : string) (ps : list pane) :
  In id (map p_entry ps) -> find_pane id ps <> None.
Proof.
  induction ps as [|p ps IH]; simpl; [tauto|].
  destruct (String.eqb (p_entry p) id) eqn:E; [discriminate|].
  apply String.eqb_neq in E. intros [Hq|Hin]; [contradiction | auto].
Qed.

(** A child handler that [openTab] can open at its first tab. *)
Definition openable (ready : handler -> Prop) (child : handler) : Prop :=
  ready child
  /\ match h_tabData child with
     | first :: _ => find_pane (leaf_id first) (h_panes child) <> None
     | [] => True
     end.

(** A handler whose tabs can all be opened: it has a path, and the handlers
    nested in its panes can be opened at their first tab, all the way down. *)
Fixpoint ready (h : handler) : Prop :=
  match h with
  | Handler _ path _ panes =>
      path <> None
      /\ (fix all (ps : list pane) : Prop :=
            match ps with
            | [] => True
            | Pane _ _ _ _ _ c :: ps' =>
                (fix children (c : list handler) : Prop :=
                   match c with
                   | [] => True
                   | child :: c' =>
                       (ready child
                        /\ match h_tabData child with
                           | first :: _ =>
                               find_pane (leaf_id first) (h_panes child)
                               <> None
                           | [] => True
                           end)
                       /\ children c'
                   end) c
                /\ all ps'
            end) panes
  end.

Lemma ready_unfold (h : handler) :
  ready h <->
  h_path h <> None
  /\ Forall (fun p => Forall (openable ready) (p_children p)) (h_panes h).
Proof.
  destruct h as [hid path tabData panes]. simpl.
  assert (Hc : forall c,
    (fix children (c : list handler) : Prop :=
       match c with
       | [] => True
       | child :: c' =>
           (ready child
            /\ match h_tabData child with
               | first :: _ =>
                   find_pane (leaf_id first) (h_panes child) <> None
               | [] => True
               end)
           /\ children c'
       end) c <-> Forall (openable ready) c).
  { induction c as [|child c IH]; simpl.
    - split; [constructor | trivial].
    - rewrite IH. split.
      + intros [Ho Hf]. constructor; assumption.
      + intros Hf. inversion Hf; subst. split; assumption. }
  assert (Hall : forall panes,
    (fix all (ps : list pane) : Prop :=
       match ps with
       | [] => True
       | Pane _ _ _ _ _ c :: ps' =>
           (fix children (c : list handler) : Prop :=
              match c with
              | [] => True
              | child :: c' =>
                  (ready child
                   /\ match h_tabData child with
                      | first :: _ =>
                          find_pane (leaf_id first) (h_panes child) <> None
                      | [] => True
                      end)
                  /\ children c'
              end) c
           /\ all ps'
       end) panes
    <-> Forall (fun p => Forall (openable ready) (p_children p)) panes).
  { clear panes. induction panes as [|[e a d u s c] panes IH].
    - split; [constructor | trivial].
    - rewrite Forall_cons_iff. cbn [p_children]. rewrite <- IH, <- Hc.
      reflexivity. }
  rewrite Hall. reflexivity.
Qed.


Definition children_openable (p : pane) : Prop :=
  Forall (openable ready) (p_children p).

Lemma children_openable_hide ps :
  Forall children_openable ps -> Forall children_openable (map hide ps).
Proof.
  intros Hf. apply Forall_map. eapply Forall_impl; [|exact Hf].
  intros [e a d u s c] Hc. exact Hc.
Qed.

Lemma find_pane_kept (id : string) (ps ps' : list pane) :
  map pane_sig ps = map pane_sig ps' ->
  find_pane id ps <> None -> find_pane id ps' <> None.
Proof.
  intros Hm Hf Hn. apply (find_pane_sig id) in Hm.
  rewrite Hn in Hm. destruct (find_pane id ps); [discriminate | tauto].
Qed.

Lemma select_ok (pth : list string) (id : string) (ps : list pane) :
  Forall children_openable ps ->
  find_pane id ps <> None ->
  (forall p child id0,
     In p ps -> In child (p_children p) ->
     ready child -> find_pane id0 (h_panes child) <> None ->
     exists h' evs, openTab child id0 = (h', evs, Ok tt) /\ ready h') ->
  exists ps' evs,
    select openTab (Some pth) id ps = (ps', evs, Ok tt)
    /\ Forall children_openable ps'.
Proof.
  induction ps as [|[e a d u s c] ps IH]; intros Hall Hf Hopen;
    [simpl in Hf; tauto|].
  inversion Hall as [|? ? Hc Hrest]; subst. simpl.
  unfold find_pane in Hf. cbn [find p_entry] in Hf.
  destruct (String.eqb e id) eqn:E.
  - destruct c as [|nested c'].
    + unfold populate. destruct u; simpl; eexists; eexists;
        (split; [reflexivity|]);
        (constructor; [constructor | apply children_openable_hide; exact Hrest]).
    + unfold children_openable in Hc. cbn [p_children] in Hc.
      inversion Hc as [|? ? [Hr Hfirst] Hc']; subst.
      destruct (h_tabData nested) as [|firstSpec rest] eqn:Et.
      * eexists; eexists. split; [reflexivity|].
        constructor; [exact Hc | apply children_openable_hide; exact Hrest].
      * destruct (Hopen (Pane e a d u s (nested :: c')) nested
                    (leaf_id firstSpec) (or_introl eq_refl)
                    (or_introl eq_refl) Hr Hfirst)
          as (nested' & evs & Ho & Hr').
        rewrite Ho. eexists; eexists. split; [reflexivity|].
        constructor; [|apply children_openable_hide; exact Hrest].
        unfold children_openable. cbn [p_children].
        constructor; [|exact Hc'].
        pose proof (openTab_sig nested (leaf_id firstSpec)) as Hs.
        pose proof (openTab_pane_sig nested (leaf_id firstSpec)) as Hps.
        rewrite Ho in Hs, Hps. simpl in Hs, Hps.
        unfold sig in Hs. injection Hs as _ _ Htd.
        split; [exact Hr'|]. rewrite Htd, Et.
        eapply find_pane_kept; [symmetry; exact Hps | exact Hfirst].
  - destruct (IH Hrest Hf) as (ps' & evs & Hs & Hall').
    { intros p child id0 Hp. apply Hopen. right. exact Hp. }
    rewrite Hs. eexists; eexists. split; [reflexivity|].
    constructor; [exact Hc | exact Hall'].
Qed.

(** On a ready handler every tab that has a pane opens, and the handler
    stays ready. *)
Lemma openTab_ok (h : handler) :
  forall id,
    ready h -> find_pane id (h_panes h) <> None ->
    exists h' evs, openTab h id = (h', evs, Ok tt) /\ ready h'.
Proof.
  induction h as [hid path tabData panes IH] using handler_nested_ind.
  intros id Hr Hf. apply ready_unfold in Hr. destruct Hr as [Hp Hall].
  simpl in Hp, Hall, Hf. destruct path as [pth|]; [|tauto].
  destruct (select_ok pth id panes Hall Hf) as (ps' & evs & Hs & Hall').
  { intros p child id0 Hin Hc. apply (IH p child Hin Hc). }
  simpl. rewrite Hs. eexists; eexists. split; [reflexivity|].
  apply ready_unfold. split; [discriminate | exact Hall'].
Qed.


(** *** The cascade *)

Definition hidden (p : pane) : Prop :=
  p_display p = "none" /\ p_active p = false.

(** Tab [id] of a handler is the open one: its pane, the first with that
    id, is shown and its button active, every other pane is hidden and
    every other button inactive; and a handler nested in the pane has its
    own first tab open in the same way, down to a pane without nested
    handler. *)
Inductive opened : handler -> string -> Prop :=
  | opened_leaf hid path td before p after id :
      Forall hidden before -> Forall hidden after ->
      Forall (fun q => p_entry q <> id) before ->
      p_entry p = id -> p_display p = "block" -> p_active p = true ->
      p_children p = [] ->
      opened (Handler hid path td (before ++ p :: after)) id
  | opened_empty hid path td before p after id nested c :
      Forall hidden before -> Forall hidden after ->
      Forall (fun q => p_entry q <> id) before ->
      p_entry p = id -> p_display p = "block" -> p_active p = true ->
      p_children p = nested :: c -> h_tabData nested = [] ->
      opened (Handler hid path td (before ++ p :: after)) id
  | opened_nested hid path td before p after id nested c first rest :
      Forall hidden before -> Forall hidden after ->
      Forall (fun q => p_entry q <> id) before ->
      p_entry p = id -> p_display p = "block" -> p_active p = true ->
      p_children p = nested :: c -> h_tabData nested = first :: rest ->
      opened nested (leaf_id first) ->
      opened (Handler hid path td (before ++ p :: after)) id.

Lemma hidden_hide p : hidden (hide p).
Proof. destruct p. split; reflexivity. Qed.

Lemma Forall_hidden_hide ps : Forall hidden (map hide ps).
Proof. apply Forall_map. apply Forall_forall. intros p _. apply hidden_hide. Qed.

Lemma select_opened (hid : string) (path : option (list string))
  (td : list tabSpec) (id : string) (ps : list pane) :
  (forall p child id0 h' evs,
     In p ps -> In child (p_children p) ->
     openTab child id0 = (h', evs, Ok tt) -> opened h' id0) ->
  forall before ps' evs,
    select openTab path id ps = (ps', evs, Ok tt) ->
    Forall hidden before ->
    Forall (fun q => p_entry q <> id) before ->
    opened (Handler hid path td (before ++ ps')) id.
Proof.
  induction ps as [|[e a d u s c] ps IH]; intros Hopen before ps' evs Hsel
    Hhid Hne; simpl in Hsel; [discriminate|].
  destruct (String.eqb e id) eqn:E.
  - apply String.eqb_eq in E.
    destruct c as [|nested c'].
    + unfold populate in Hsel.
      destruct u; simpl in Hsel; [destruct path; [|discriminate]|];
        injection Hsel as <- <-;
        apply opened_leaf; auto using Forall_hidden_hide.
    + destruct (h_tabData nested) as [|firstSpec rest] eqn:Et.
      * injection Hsel as <- <-.
        eapply opened_empty; eauto using Forall_hidden_hide.
        reflexivity.
      * destruct (openTab nested (leaf_id firstSpec)) as [[nested' evs0] r0]
          eqn:Eo.
        injection Hsel as <- <- ->.
        pose proof (openTab_sig nested (leaf_id firstSpec)) as Hs.
        rewrite Eo in Hs. unfold sig in Hs. simpl in Hs.
        injection Hs as _ _ Htd.
        apply (opened_nested hid path td before
                 (Pane e true "block" u s (nested' :: c')) (map hide ps) id
                 nested' c' firstSpec rest);
          auto using Forall_hidden_hide.
        -- rewrite Htd. exact Et.
        -- eapply (Hopen (Pane e a d u s (nested :: c')));
             [left; reflexivity | left; reflexivity | exact Eo].
  - apply String.eqb_neq in E.
    destruct (select openTab path id ps) as [[ps'' evs0] r0] eqn:Es.
    injection Hsel as <- <- ->.
    assert (Hres : opened
              (Handler hid path td
                 ((before ++ [hide (Pane e a d u s c)]) ++ ps'')) id).
    { apply (IH (fun p child id0 h' evs Hp =>
                   Hopen p child id0 h' evs (or_intror Hp))
                (before ++ [hide (Pane e a d u s c)]) ps'' evs0 eq_refl).
      - apply Forall_app. split; [exact Hhid|].
        constructor; [apply hidden_hide | constructor].
      - apply Forall_app. split; [exact Hne|].
        constructor; [exact E | constructor]. }
    rewrite <- app_assoc in Hres. exact Hres.
Qed.

(** A call of [openTab] that returns leaves the tab open, down to the
    deepest first leaf. *)
Lemma openTab_opened (h : handler) :
  forall id h' evs, openTab h id = (h', evs, Ok tt) -> opened h' id.
Proof.
  induction h as [hid path tabData panes IH] using handler_nested_ind.
  intros id h' evs Hopen. simpl in Hopen.
  destruct (select openTab path id panes) as [[ps' evs0] r0] eqn:Es.
  injection Hopen as <- <- ->.
  apply (select_opened hid path tabData id panes) with (before := [])
    (evs := evs0); auto.
  intros p child id0 h' evs Hp Hc. apply (IH p child Hp Hc).
Qed.


(** *** Rendering creates the nested handlers *)

(** Every explicit id in the tree is already CSS-safe, so that the id a
    pane is created under is the id it is looked up by. *)
Fixpoint safe (t : tabSpec) : bool :=
  match t with
  | TabSpec id _ tabs =>
      match id with
      | Some i => String.eqb (cssSafe i) i
      | None => true
      end
      && match tabs with
         | Some l => forallb safe l
         | None => true
         end
  end.

Definition has_tabs (t : tabSpec) : bool :=
  match spec_tabs t with
  | Some (_ :: _) => true
  | _ => false
  end.

(** The id an entry's button and pane are created under. *)
Definition entry_of (t : tabSpec) : string := cssSafe (entry_id t).

Definition child_tabs (t : tabSpec) : list tabSpec :=
  match spec_tabs t with
  | Some l => l
  | None => []
  end.

(** The nested handler of an entry: its id, its path and its tab data. *)
Definition expected_sig (hid : string) (pth : list string) (t : tabSpec)
  : string * option (list string) * list tabSpec :=
  ((hid ++ "_nested_" ++ leaf_id t)%string,
   Some (pth ++ [(hid ++ "_nested_" ++ leaf_id t)%string]),
   child_tabs t).

Lemma safe_leaf_entry (t : tabSpec) : safe t = true -> leaf_id t = entry_of t.
Proof.
  destruct t as [[i|] title tabs]; simpl; intros Hs; [|reflexivity].
  apply andb_prop in Hs. destruct Hs as [Hi _].
  apply String.eqb_eq in Hi. unfold entry_of, leaf_id, entry_id. simpl.
  symmetry. exact Hi.
Qed.

Lemma renderTabs_with_sig create hid path td :
  sig (fst (fst (renderTabs_with create hid path td))) = (hid, path, td).
Proof.
  unfold renderTabs_with.
  destruct (nest create hid path td (map new_pane td)) as [[panes evs] [[]|e]];
    [|reflexivity].
  destruct td as [|first rest]; [reflexivity|].
  pose proof (openTab_sig (Handler hid path (first :: rest) panes)
                (cssSafe (entry_id first))) as Hs.
  destruct (openTab _ _) as [[h evs'] r]. exact Hs.
Qed.

Lemma createNestedHandlers_some pid acc t :
  has_tabs t = true ->
  createNestedHandlers pid acc t
  = Some (renderTabs (pid ++ "_nested_" ++ leaf_id t)%string
            (Some (acc ++ [(pid ++ "_nested_" ++ leaf_id t)%string]))
            (child_tabs t)).
Proof.
  destruct t as [id title [[|t0 l]|]]; simpl; try discriminate.
  reflexivity.
Qed.

Lemma createNestedHandlers_sig pid acc t nested evs r :
  has_tabs t = true ->
  createNestedHandlers pid acc t = Some (nested, evs, r) ->
  sig nested = expected_sig pid acc t.
Proof.
  intros Ht Hc. rewrite (createNestedHandlers_some pid acc t Ht) in Hc.
  unfold expected_sig.
  set (nid := (pid ++ "_nested_" ++ leaf_id t)%string) in *.
  assert (Heq : renderTabs nid (Some (acc ++ [nid])) (child_tabs t)
                = (nested, evs, r)) by congruence.
  pose proof (renderTabs_with_sig createNestedHandlers nid
                (Some (acc ++ [nid])) (child_tabs t)) as Hs.
  change (renderTabs_with createNestedHandlers) with renderTabs in Hs.
  rewrite Heq in Hs. exact Hs.
Qed.

Lemma append_child_entries e nested ps :
  map p_entry (append_child e nested ps) = map p_entry ps.
Proof.
  induction ps as [|[e' a d u s c] ps IH]; simpl; [reflexivity|].
  destruct (String.eqb e' e); simpl; [reflexivity|].
  rewrite IH. reflexivity.
Qed.

Lemma append_child_openable e nested ps :
  openable ready nested ->
  Forall children_openable ps ->
  Forall children_openable (append_child e nested ps).
Proof.
  intros Hn Hall. induction Hall as [|[e' a d u s c] ps Hc Hall IH]; simpl;
    [constructor|].
  destruct (String.eqb e' e); constructor; try assumption.
  unfold children_openable in *. cbn [p_children] in *.
  apply Forall_app. split; [exact Hc | constructor; [exact Hn | constructor]].
Qed.

(** The pane found for [e] after a nested handler went into the pane of
    [e0]. *)
Lemma find_append_child e e0 nested ps :
  find_pane e (append_child e0 nested ps)
  = option_map
      (fun p => if String.eqb e e0
                then Pane (p_entry p) (p_active p) (p_display p)
                       (p_unrendered p) (p_spec p) (p_children p ++ [nested])
                else p)
      (find_pane e ps).
Proof.
  induction ps as [|[e' a d u s c] ps IH]; [reflexivity|].
  cbn [append_child].
  destruct (String.eqb e' e0) eqn:E0; unfold find_pane in *;
    cbn [find p_entry]; destruct (String.eqb e' e) eqn:E;
    cbn [option_map p_entry p_active p_display p_unrendered p_spec
         p_children].
  - apply String.eqb_eq in E0, E. subst. rewrite String.eqb_refl.
    reflexivity.
  - apply String.eqb_eq in E0. subst e'.
    destruct (find _ ps) as [q|]; cbn [option_map]; [|reflexivity].
    rewrite String.eqb_sym, E. reflexivity.
  - apply String.eqb_eq in E. subst e'.
    rewrite E0. reflexivity.
  - exact IH.
Qed.


(** What is known of an entry's nested handler once it is created: creating
    it went through, and it can be opened at its first tab. *)
Definition creates_openable (t : tabSpec) : Prop :=
  safe t = true ->
  forall pid acc nested evs r,
    createNestedHandlers pid acc t = Some (nested, evs, r) ->
    r = Ok tt /\ openable ready nested.

Lemma nest_ok hid pth (specs : list tabSpec) :
  (forall t, In t specs -> creates_openable t) ->
  forallb safe specs = true ->
  forall panes,
    Forall children_openable panes ->
    exists panes' evs,
      nest createNestedHandlers hid (Some pth) specs panes
      = (panes', evs, Ok tt)
      /\ Forall children_openable panes'
      /\ map p_entry panes' = map p_entry panes.
Proof.
  induction specs as [|spec specs IH]; intros Hc Hs panes Hall.
  - simpl. eauto.
  - simpl in Hs. apply andb_prop in Hs. destruct Hs as [Hsafe Hs].
    assert (IH' : forall panes, Forall children_openable panes ->
              exists panes' evs,
                nest createNestedHandlers hid (Some pth) specs panes
                = (panes', evs, Ok tt)
                /\ Forall children_openable panes'
                /\ map p_entry panes' = map p_entry panes).
    { apply IH; [|exact Hs]. intros t Ht. apply Hc. right. exact Ht. }
    cbn [nest]. destruct (spec_tabs spec) as [[|t0 l]|] eqn:Et;
      try (apply IH'; exact Hall).
    destruct (createNestedHandlers hid pth spec) as [[[nested evs] r]|]
      eqn:Ec; [|apply IH'; exact Hall].
    destruct (Hc spec (or_introl eq_refl) Hsafe _ _ _ _ _ Ec) as [-> Hn].
    destruct (IH' (append_child (cssSafe (entry_id spec)) nested panes))
      as (panes' & evs' & Hnest & Hall' & Hent).
    { apply append_child_openable; assumption. }
    rewrite Hnest. eexists; eexists. split; [reflexivity|].
    split; [exact Hall'|]. rewrite Hent. apply append_child_entries.
Qed.

Lemma renderTabs_ok hid pth (td : list tabSpec) :
  (forall t, In t td -> creates_openable t) ->
  forallb safe td = true ->
  exists h evs,
    renderTabs hid (Some pth) td = (h, evs, Ok tt)
    /\ ready h
    /\ map p_entry (h_panes h) = map entry_of td.
Proof.
  intros Hc Hs. unfold renderTabs, renderTabs_with.
  destruct (nest_ok hid pth td Hc Hs (map new_pane td))
    as (panes & evs & Hnest & Hall & Hent).
  { apply Forall_map. apply Forall_forall. intros t _. constructor. }
  rewrite Hnest.
  assert (Hentries : map p_entry panes = map entry_of td).
  { rewrite Hent, map_map. reflexivity. }
  destruct td as [|first rest].
  - eexists; eexists. split; [reflexivity|]. split; [|exact Hentries].
    apply ready_unfold. split; [discriminate | exact Hall].
  - destruct (openTab_ok (Handler hid (Some pth) (first :: rest) panes)
                (cssSafe (entry_id first))) as (h & evs' & Ho & Hr).
    + apply ready_unfold. split; [discriminate | exact Hall].
    + apply find_pane_In. simpl. rewrite Hentries. left. reflexivity.
    + rewrite Ho. eexists; eexists. split; [reflexivity|].
      split; [exact Hr|].
      pose proof (openTab_pane_sig
                    (Handler hid (Some pth) (first :: rest) panes)
                    (cssSafe (entry_id first))) as Hps.
      rewrite Ho in Hps. simpl in Hps.
      apply (f_equal (map (fun x => fst (fst x)))) in Hps.
      rewrite !map_map in Hps. simpl in Hps.
      rewrite <- Hentries. exact Hps.
Qed.

Lemma every_spec_creates_openable (t : tabSpec) : creates_openable t.
Proof.
  induction t as [id title tabs IH] using tabSpec_nested_ind.
  intros Hsafe pid acc nested evs r Hc.
  destruct (has_tabs (TabSpec id title tabs)) eqn:Ht.
  - rewrite (createNestedHandlers_some _ _ _ Ht) in Hc.
    set (nid := (pid ++ "_nested_" ++ leaf_id (TabSpec id title tabs))%string)
      in *.
    assert (Heq : renderTabs nid (Some (acc ++ [nid]))
                    (child_tabs (TabSpec id title tabs))
                  = (nested, evs, r)) by congruence.
    clear Hc. clearbody nid.
    destruct tabs as [[|t0 l]|]; try discriminate.
    unfold child_tabs in Heq. cbn [spec_tabs] in Heq.
    assert (Hsl : forallb safe (t0 :: l) = true).
    { simpl in Hsafe. apply andb_prop in Hsafe. tauto. }
    destruct (renderTabs_ok nid (acc ++ [nid]) (t0 :: l))
      as (h & evs' & Hr & Hready & Hent).
    + intros t Hin. apply (IH (t0 :: l) t eq_refl Hin).
    + exact Hsl.
    + pose proof (renderTabs_with_sig createNestedHandlers nid
                    (Some (acc ++ [nid])) (t0 :: l)) as Hs.
      change (renderTabs_with createNestedHandlers) with renderTabs in Hs.
      rewrite Hr in Hs, Heq. injection Heq as <- <- <-.
      split; [reflexivity|]. split; [exact Hready|].
      unfold sig in Hs. simpl in Hs.
      injection Hs as _ _ Htd. rewrite Htd.
      apply find_pane_In. rewrite Hent. left. symmetry.
      apply safe_leaf_entry. simpl in Hsl. apply andb_prop in Hsl. tauto.
  - destruct tabs as [[|t0 l]|]; simpl in Hc, Ht; discriminate.
Qed.


Lemma nest_find hid pth (specs : list tabSpec) :
  forall panes panes' evs,
    nest createNestedHandlers hid (Some pth) specs panes
    = (panes', evs, Ok tt) ->
    forall e p',
      find_pane e panes' = Some p' ->
      exists p,
        find_pane e panes = Some p
        /\ p_entry p' = p_entry p /\ p_spec p' = p_spec p
        /\ map sig (p_children p')
           = map sig (p_children p)
             ++ map (expected_sig hid pth)
                  (filter (fun t => has_tabs t && String.eqb (entry_of t) e)
                     specs).
Proof.
  induction specs as [|spec specs IH]; intros panes panes' evs Hn e p' Hf.
  - simpl in Hn. injection Hn as <- <-. exists p'.
    simpl. rewrite app_nil_r. auto.
  - cbn [nest] in Hn. cbn [filter]. unfold has_tabs at 1.
    destruct (spec_tabs spec) as [[|t0 l]|] eqn:Et;
      try (cbn [andb]; eapply IH; eassumption).
    assert (Ht : has_tabs spec = true) by (unfold has_tabs; rewrite Et; auto).
    destruct (createNestedHandlers hid pth spec) as [[[nested evs0] r0]|]
      eqn:Ec;
      [|rewrite (createNestedHandlers_some _ _ _ Ht) in Ec; discriminate].
    pose proof (createNestedHandlers_sig _ _ _ _ _ _ Ht Ec) as Hsig.
    destruct r0 as [[]|err]; [|discriminate].
    destruct (nest createNestedHandlers hid (Some pth) specs
                (append_child (cssSafe (entry_id spec)) nested panes))
      as [[panes1 evs1] r1] eqn:En.
    injection Hn as <- _ ->.
    destruct (IH _ _ _ En e p' Hf) as (p1 & Hf1 & He1 & Hs1 & Hc1).
    rewrite find_append_child in Hf1.
    destruct (find_pane e panes) as [p|] eqn:Ep; [|discriminate].
    simpl in Hf1. injection Hf1 as <-. exists p. split; [reflexivity|].
    cbn [andb]. fold (entry_of spec) in He1, Hs1, Hc1.
    destruct (String.eqb e (entry_of spec)) eqn:E.
    + rewrite String.eqb_sym, E. simpl in He1, Hs1, Hc1.
      split; [exact He1|]. split; [exact Hs1|].
      rewrite Hc1, map_app. simpl. rewrite Hsig, <- app_assoc. reflexivity.
    + rewrite String.eqb_sym, E. auto.
Qed.

Lemma filter_entry_unique (td : list tabSpec) (spec : tabSpec) :
  NoDup (map entry_of td) -> In spec td -> has_tabs spec = true ->
  filter (fun t => has_tabs t && String.eqb (entry_of t) (entry_of spec)) td
  = [spec].
Proof.
  induction td as [|t td IH]; intros Hnd Hin Ht; [destruct Hin|].
  simpl in Hnd. inversion Hnd as [|? ? Hnotin Hnd']; subst.
  assert (Hnone : forall l,
            ~ In (entry_of spec) (map entry_of l) ->
            filter (fun t => has_tabs t
                             && String.eqb (entry_of t) (entry_of spec)) l
            = []).
  { induction l as [|x l IHl]; simpl; intros Hn; [reflexivity|].
    destruct (String.eqb (entry_of x) (entry_of spec)) eqn:E.
    - apply String.eqb_eq in E. exfalso. apply Hn. left. exact E.
    - rewrite andb_false_r. apply IHl. tauto. }
  destruct Hin as [->|Hin]; simpl.
  - rewrite Ht, String.eqb_refl. simpl. rewrite Hnone by exact Hnotin.
    reflexivity.
  - destruct (String.eqb (entry_of t) (entry_of spec)) eqn:E.
    + apply String.eqb_eq in E. exfalso. apply Hnotin. rewrite E.
      apply in_map. exact Hin.
    + rewrite andb_false_r. apply IH; assumption.
Qed.

Lemma find_new_pane (td : list tabSpec) (spec : tabSpec) :
  NoDup (map entry_of td) -> In spec td ->
  find_pane (entry_of spec) (map new_pane td) = Some (new_pane spec).
Proof.
  induction td as [|t td IH]; intros Hnd Hin; [destruct Hin|].
  simpl in Hnd. inversion Hnd as [|? ? Hnotin Hnd']; subst.
  unfold find_pane. cbn [map find new_pane p_entry]. fold (entry_of t).
  destruct Hin as [->|Hin].
  - rewrite String.eqb_refl. reflexivity.
  - destruct (String.eqb (entry_of t) (entry_of spec)) eqn:E.
    + apply String.eqb_eq in E. exfalso. apply Hnotin. rewrite E.
      apply in_map. exact Hin.
    + apply IH; assumption.
Qed.


End TabProps.

(** ** Lazily revealed panes *)

Section LazyProps.
Context {N : Num} {H : Host}.
Import TabHandlerComponent TabProps.
Local Open Scope m_scope.

(** Nothing is dispatched. *)
Definition quiet (st st' : component) : Prop :=
  dispatched st' = dispatched st.

Lemma quiet_refl st : quiet st st.
Proof. reflexivity. Qed.

Lemma quiet_trans a b c : quiet a b -> quiet b c -> quiet a c.
Proof. unfold quiet. congruence. Qed.

#[local] Hint Resolve quiet_refl quiet_trans : frame.

Lemma write_style_quiet k x : keeps quiet (write_style k x).
Proof.
  intros st. unfold write_style.
  destruct (set_member (style st) k x); reflexivity.
Qed.

Lemma modify_quiet f :
  (forall st, dispatched (f st) = dispatched st) -> keeps quiet (modify f).
Proof. intros Hf st. apply Hf. Qed.

Ltac frame_quiet :=
  repeat match goal with
         | |- keeps _ (write_style _ _) => apply write_style_quiet
         | |- keeps _ (modify _) => apply modify_quiet; intros; reflexivity
         | |- _ => frame_step
         end.

Lemma render_quiet assign_data : keeps quiet (render assign_data).
Proof.
  unfold render, default_style, buildStandardTable, transposeTable,
    createAggregateColumnArray, set_shadow, set_aggregateColumns.
  frame_quiet.
Qed.

Lemma set_data_quiet depth v : keeps quiet (set_data depth v).
Proof.
  unfold set_data, set_data_with, default_style, console_error,
    set_tableData, set_style.
  destruct v; try destruct (JSON_parse s);
    repeat match goal with
           | |- keeps _ (render _) => apply render_quiet
           | |- keeps _ (write_style _ _) => apply write_style_quiet
           | |- keeps _ (modify _) => apply modify_quiet; intros; reflexivity
           | |- _ => frame_step
           end.
Qed.

Lemma run_quiet depth c : keeps quiet (run depth c).
Proof.
  destruct c; simpl;
    unfold rerender, refresh, refresh_with, beginBatch, set_batchMode,
      set_transpose, set_transpose_with, set_transpose_field,
      set_styleConfig, set_styleConfig_with, default_style, console_error,
      set_style, click_toggle, set_shadow, header_click, sortBy, sort_rows,
      set_sortedColumn, rerender;
    try match goal with
        | |- keeps _ (match ?v with _ => _ end) =>
            destruct v; try destruct (JSON_parse _)
        end;
    repeat match goal with
           | |- keeps _ (render _) => apply render_quiet
           | |- keeps _ (write_style _ _) => apply write_style_quiet
           | |- keeps _ (modify _) => apply modify_quiet; intros; reflexivity
           | |- _ => frame_step
           end.
Qed.

Lemma run_all_quiet depth cs st : quiet st (run_all depth cs st).
Proof.
  revert st. induction cs as [|c cs IH]; intros st; simpl.
  - reflexivity.
  - eapply quiet_trans; [apply run_quiet | apply IH].
Qed.

(** The detail row holds its nested table from the moment it is built. *)
Lemma buildDetailRow_eager assign_data st row tr :
  truthy (member row "_DETAILS_TABLE_") = true ->
  buildDetailRow assign_data st row = Ok tr ->
  exists props tdprops rest,
    tr = el "tr" props
           [el "td" tdprops
              (el "table-maker" [("data", member row "_DETAILS_TABLE_")] []
               :: rest)].
Proof.
  intros Ht. unfold buildDetailRow. rewrite Ht.
  destruct (entries row); simpl; [|discriminate].
  destruct (assign_data _); simpl; [|discriminate].
  intros Hq. injection Hq as <-. eauto.
Qed.


End LazyProps.

(** ** The claims on concrete inputs *)

(** The demonstration host obeys the laws the sorting results rest on. *)
Lemma DemoLaws : Laws (N := Demo.DemoNum) (H := Demo.DemoHost).
Proof.
  constructor; simpl.
  - reflexivity.
  - intros [| | |x]; simpl; try reflexivity. apply Z.sgn_opp.
  - intros [| | |x] [| | |y]; simpl; try congruence.
    rewrite Z.ltb_lt, Z.ltb_ge. lia.
  - intros a b.
    rewrite (String.compare_antisym (Demo.map_string Demo.lower a)).
    destruct (String.compare _ _); reflexivity.
  - intros a b. rewrite (String.compare_antisym a).
    destruct (String.compare _ _); reflexivity.
  - intros a b. rewrite (String.compare_antisym a).
    destruct (String.compare _ _); reflexivity.
  - intros [| | |x] [| | |y]; simpl; try reflexivity.
    destruct (Z.sgn_spec (x + - y)) as [[? ->]|[[? ->]|[? ->]]];
      destruct (Z.sgn_spec (y + - x)) as [[? ->]|[[? ->]|[? ->]]]; lia.
  - intros [| | |x] [| | |y]; simpl; try reflexivity.
    destruct (Z.eqb_spec (x + - y) 0), (Z.eqb_spec (y + - x) 0);
      try reflexivity; lia.
Qed.

Section Examples.
Import Demo TableMakerComponent TabHandlerComponent TabProps.
#[local] Existing Instance DemoLaws.

(** One text column, one row. *)
Definition months : TableMaker.df :=
  {| TableMaker.df_rows := [VObj [("month", VStr "Jan")]];
     TableMaker.df_cols := [("month", VObj [("type", VStr COL_TYPES.TEXT)])] |}.

(** Two rows that tie on [X]. *)
Definition tied_rows : list value :=
  [VObj [("X", VNum (DInt 1)); ("Y", VStr "a")];
   VObj [("X", VNum (DInt 1)); ("Y", VStr "b")]].

Definition tied_data : list (string * value) :=
  [("cols", VObj [("X", VObj [("type", VStr "number")]); ("Y", VObj [])]);
   ("rows", VArr tied_rows)].

(** A fresh element given [o] as its data. *)
Definition holding (o : list (string * value)) : component :=
  fst (set_data 1 (VObj o) initial).

(** Two rows in descending order of [X]. *)
Definition unsorted_rows : list value :=
  [VObj [("X", VNum (DInt 2))]; VObj [("X", VNum (DInt 1))]].

Definition unsorted_data : list (string * value) :=
  [("cols", VObj [("X", VObj [("type", VStr "number")])]);
   ("rows", VArr unsorted_rows)].

(** Three sales in two regions, grouped by region with the amounts summed. *)
Definition sales : component :=
  holding
    [("cols", VObj [("region", VObj []);
                    ("amount", VObj [("type", VStr "number");
                                     ("aggregate", VStr "sum")])]);
     ("rows",
      VArr [VObj [("region", VStr "north"); ("amount", VNum (DInt 5))];
            VObj [("region", VStr "east"); ("amount", VNum (DInt 7))];
            VObj [("region", VStr "north"); ("amount", VNum (DInt 11))]]);
     ("style", VObj [("group_by", VArr [VStr "region"])])].

Definition sales_prepared : TableMaker.df :=
    match prepare sales with
    | Ok d => d
    | Throw _ => {| TableMaker.df_rows := []; TableMaker.df_cols := [] |}
    end.

(** One row with a nested table as its details. *)
Definition nested_data : value :=
  VObj [("cols", VObj [("k", VObj [])]);
        ("rows", VArr [VObj [("k", VStr "v")]])].

Definition detail_data : value :=
  VObj [("cols", VObj [("name", VObj [])]);
        ("rows", VArr [VObj [("name", VStr "a");
                             ("_DETAILS_TABLE_", nested_data)]])].

(** The detail row of that table, with its [style.display]. *)
Definition detail_tr (shown : string) : node :=
  Node "tr" [("className", VStr "detail-row"); ("style.display", VStr shown)]
    []
    [Node "td" [("colspan", VNum (DInt 3)); ("style.padding", VStr "0")] []
       [Node "table-maker" [("data", nested_data)] [] []]].

(** The node reached by [path] below the nodes [ns]. *)
Fixpoint node_at (path : list nat) (ns : list node) : option node :=
  match path with
  | [] => None
  | i :: path' =>
      match nth_error ns i, path' with
      | Some n, [] => Some n
      | Some (Node _ _ _ ch), _ :: _ => node_at path' ch
      | None, _ => None
      end
  end.

(** A leaf tab and a tab with one nested tab. *)
Definition two_tabs : list tabSpec :=
  [TabSpec (Some "a") "A" None;
   TabSpec (Some "b") "B" (Some [TabSpec (Some "b1") "B1" None])].

(** C1 as stated fails on a text column: the second pass stores the cell
    object of the first as the new [disp]. *)
Lemma derivation_not_idempotent : ~ disp_idempotent months.
Proof.
  intros Hc.
  specialize (Hc _ _ eq_refl eq_refl).
  apply (f_equal (fun l => match l with
                           | [[(_, VStr _)]] => true
                           | _ => false
                           end)) in Hc.
  discriminate Hc.
Qed.

(** The stable derivation on the element holding [unsorted_data], and the
    text cell of [months] fed back. *)
Lemma rederivation_is_stable_witness :
  prepare (fst (render (assign_nested 1) (holding unsorted_data)))
  = prepare (holding unsorted_data)
  /\ TableMaker.derive_cell (TableMaker.df_cols months) "month"
       (TableMaker.mk_cell (VStr COL_TYPES.TEXT) (VStr "Jan") (VStr "Jan"))
     = Ok (TableMaker.mk_cell (VStr COL_TYPES.TEXT)
             (TableMaker.mk_cell (VStr COL_TYPES.TEXT) (VStr "Jan")
                (VStr "Jan"))
             (TableMaker.mk_cell (VStr COL_TYPES.TEXT) (VStr "Jan")
                (VStr "Jan"))).
Proof.
  destruct (rederivation_is_stable (assign_nested 1) (holding unsorted_data))
    as [Hp Hc].
  split; [exact Hp|].
  exact (proj2 (Hc (TableMaker.df_cols months) "month" (VStr "Jan") eq_refl)).
Defined.

(** An unfinished object is not JSON: the element keeps what it shows. *)
Lemma invalid_json_keeps_state_witness :
  JSON_parse "{" = None
  /\ get_data (fst (set_data 1 (VStr "{") (holding unsorted_data)))
     = get_data (holding unsorted_data)
  /\ shadow (fst (set_data 1 (VStr "{") (holding unsorted_data)))
     = shadow (holding unsorted_data).
Proof.
  assert (Hp : JSON_parse "{" = None) by reflexivity.
  destruct (invalid_json_keeps_state 1 (holding unsorted_data) "{" Hp)
    as (_ & _ & Hd & _ & Hs & _).
  split; [exact Hp|]. split; [exact Hd | exact Hs].
Defined.

(** A money column that declares US dollars shows rupees. *)
Lemma money_uses_default_currency_witness :
  let colInfo := VObj [("type", VStr COL_TYPES.MONEY);
                       ("currency", VStr "USD");
                       ("precision", VNum (DInt 0))] in
  member colInfo "type" = VStr COL_TYPES.MONEY
  /\ TableMaker.derive_cell [("amt", colInfo)] "amt" (VNum (DInt 1200))
     = Ok (TableMaker.mk_cell (VStr COL_TYPES.MONEY) (VNum (DInt 1200))
             (VStr "₹1,200")).
Proof.
  intros colInfo.
  assert (Ht : member colInfo "type" = VStr COL_TYPES.MONEY) by reflexivity.
  destruct (money_uses_default_currency colInfo Ht) as (Hc & _).
  split; [exact Ht|].
  rewrite (Hc [("amt", colInfo)] "amt" _ eq_refl).
  reflexivity.
Defined.






(** Data without a [style] member reads back as it was assigned. *)
Lemma data_round_trip_witness :
  lookup "style" unsorted_data = None
  /\ get_data (fst (set_data 1 (VObj unsorted_data) initial))
     = VObj unsorted_data.
Proof.
  assert (Hl : lookup "style" unsorted_data = None) by reflexivity.
  split; [exact Hl|].
  exact (proj1 (data_round_trip 1 unsorted_data initial Hl)).
Defined.



(** Two amounts, each with its own precision and currency. *)
Lemma formatMoney2_clamped_witness :
  Formatter.formatMoney2 [VNum (DInt 12000); VNum (DInt 145)]
    [VNum (DInt 0); VNum (DInt 2)] [VStr "INR"; VStr "USD"]
  = Ok "₹12,000<br>$145.00".
Proof.
  apply (proj1 (formatMoney2_clamped _ _ _)).
  exists ["₹12,000"; "$145.00"].
  split; [reflexivity|]. split; [|reflexivity].
  intros [|[|i]] Hi; [reflexivity | reflexivity | simpl in Hi; lia].
Defined.

End Examples.

(** * Further properties of the code *)

(** ** Tab handler: identifiers *)

Module CssSafeProps.
Import TabHandlerComponent.

(** Every character is one of [a-zA-Z0-9_-]. *)
Fixpoint all_css (s : string) : bool :=
  match s with
  | EmptyString => true
  | String c s' => css_char c && all_css s'
  end.

(** No two underscores in a row. *)
Fixpoint single_underscores (s : string) : bool :=
  match s with
  | String c ((String c' _) as s') =>
      negb (Ascii.eqb c "_"%char && Ascii.eqb c' "_"%char)
      && single_underscores s'
  | _ => true
  end.

Definition starts_with_digit (s : string) : bool :=
  match s with
  | String c _ => is_digit c
  | EmptyString => false
  end.

Lemma replace_illegal_css (s : string) : all_css (replace_illegal s) = true.
Proof.
  induction s as [|c s IH]; simpl; [reflexivity|].
  rewrite IH, andb_true_r. destruct (css_char c) eqn:E; [exact E|reflexivity].
Qed.

Lemma replace_illegal_id (s : string) :
  all_css s = true -> replace_illegal s = s.
Proof.
  induction s as [|c s IH]; simpl; [reflexivity|].
  intros H. apply andb_prop in H as [Hc Hs]. rewrite Hc, IH; auto.
Qed.

Lemma collapse_cons (c c' : ascii) (s : string) :
  collapse_underscores (String c (String c' s))
  = if (Ascii.eqb c "_" && Ascii.eqb c' "_")%char
    then collapse_underscores (String c' s)
    else String c (collapse_underscores (String c' s)).
Proof. reflexivity. Qed.

Lemma collapse_css (s : string) :
  all_css s = true -> all_css (collapse_underscores s) = true.
Proof.
  induction s as [|c s IH]; [reflexivity|].
  intros H. cbn [all_css] in H. apply andb_prop in H as [Hc Hs].
  destruct s as [|c' s']; [simpl; rewrite Hc; reflexivity|].
  rewrite collapse_cons.
  destruct (Ascii.eqb c "_" && Ascii.eqb c' "_")%char; [apply IH; exact Hs|].
  cbn [all_css]. rewrite Hc. apply IH. exact Hs.
Qed.

Lemma collapse_head (c : ascii) (s : string) :
  exists t, collapse_underscores (String c s) = String c t.
Proof.
  revert c. induction s as [|c' s IH]; intros c; [eexists; reflexivity|].
  rewrite collapse_cons.
  destruct (Ascii.eqb c "_" && Ascii.eqb c' "_")%char eqn:E.
  - apply andb_prop in E as [E1 E2].
    apply Ascii.eqb_eq in E1, E2. subst. apply IH.
  - eexists; reflexivity.
Qed.

Lemma collapse_single (s : string) :
  single_underscores (collapse_underscores s) = true.
Proof.
  induction s as [|c s IH]; [reflexivity|].
  destruct s as [|c' s']; [reflexivity|].
  rewrite collapse_cons.
  destruct (Ascii.eqb c "_" && Ascii.eqb c' "_")%char eqn:E; [exact IH|].
  destruct (collapse_head c' s') as [t Ht]. rewrite Ht in IH |- *.
  cbn [single_underscores]. rewrite E. exact IH.
Qed.

Lemma collapse_id (s : string) :
  single_underscores s = true -> collapse_underscores s = s.
Proof.
  induction s as [|c s IH]; [reflexivity|].
  destruct s as [|c' s']; [reflexivity|].
  rewrite collapse_cons.
  intros H. change (negb (Ascii.eqb c "_" && Ascii.eqb c' "_")%char
                    && single_underscores (String c' s') = true) in H.
  apply andb_prop in H as [H1 H2].
  apply negb_true_iff in H1. rewrite H1, IH; auto.
Qed.

Lemma digit_css (c : ascii) : is_digit c = true -> css_char c = true.
Proof.
  unfold is_digit, css_char. intros ->. rewrite !orb_true_r. reflexivity.
Qed.

Lemma digit_not_underscore (c : ascii) :
  is_digit c = true -> Ascii.eqb c "_"%char = false.
Proof.
  intros H. destruct (Ascii.eqb c "_"%char) eqn:E; [|reflexivity].
  apply Ascii.eqb_eq in E. subst. discriminate H.
Qed.

(** X1.  [_cssSafe] keeps its promises: the result holds only the characters
    [a-zA-Z0-9_-], never two underscores in a row, and does not start with a
    digit; and an identifier that went through it is left as it is by a
    second pass. *)
Theorem cssSafe_safe_and_idempotent (raw : string) :
  all_css (cssSafe raw) = true
  /\ single_underscores (cssSafe raw) = true
  /\ starts_with_digit (cssSafe raw) = false
  /\ cssSafe (cssSafe raw) = cssSafe raw.
Proof.
  unfold cssSafe.
  pose proof (collapse_css _ (replace_illegal_css raw)) as Hc.
  pose proof (collapse_single (replace_illegal raw)) as Hs.
  destruct (collapse_underscores (replace_illegal raw)) as [|c s] eqn:E.
  - repeat split.
  - destruct (is_digit c) eqn:Ed.
    + assert (Hc' : all_css (String "_" (String c s)) = true)
        by (cbn [all_css] in *; exact Hc).
      assert (Hs' : single_underscores (String "_" (String c s)) = true).
      { change (negb (Ascii.eqb "_" "_" && Ascii.eqb c "_")%char
                && single_underscores (String c s) = true).
        rewrite (digit_not_underscore c Ed), andb_false_r. exact Hs. }
      repeat split; try assumption.
      rewrite (replace_illegal_id _ Hc'), (collapse_id _ Hs'). reflexivity.
    + repeat split; try assumption.
      rewrite (replace_illegal_id _ Hc), (collapse_id _ Hs), Ed. reflexivity.
Qed.

End CssSafeProps.

(** ** Tab handler: opening and filling panes *)

Module TabOpenProps.
Import TabHandlerComponent TabProps.

Lemma select_unknown (open : handler -> string -> outcome)
  (path : option (list string)) (id : string) (ps : list pane) :
  find_pane id ps = None ->
  select open path id ps = (map hide ps, [], Throw TypeError).
Proof.
  unfold find_pane.
  induction ps as [|[e a d u s c] ps IH]; simpl; [reflexivity|].
  destruct (String.eqb e id); [discriminate|].
  intros Hf. rewrite (IH Hf). reflexivity.
Qed.



Lemma find_clear_unrendered (id : string) (ps : list pane) (p : pane) :
  find_pane id ps = Some p ->
  find_pane id (clear_unrendered id ps)
  = Some (Pane (p_entry p) (p_active p) (p_display p) false (p_spec p) []).
Proof.
  unfold find_pane.
  induction ps as [|[e a d u s c] ps IH]; simpl; [discriminate|].
  destruct (String.eqb e id) eqn:E; simpl; rewrite E.
  - intros Hq. injection Hq as <-. reflexivity.
  - exact IH.
Qed.

Lemma select_rendered (open : handler -> string -> outcome)
  (path : option (list string)) (id : string) (ps : list pane) (p : pane) :
  find_pane id ps = Some p -> p_unrendered p = false -> p_children p = [] ->
  exists ps',
    select open path id ps = (ps', [], Ok tt)
    /\ find_pane id ps'
       = Some (Pane (p_entry p) true "block" false (p_spec p) []).
Proof.
  unfold find_pane.
  induction ps as [|[e a d u s c] ps IH]; simpl; [discriminate|].
  destruct (String.eqb e id) eqn:E.
  - intros Hq Hu Hc. injection Hq as <-. simpl in Hu, Hc. subst u c. simpl.
    eexists. split; [reflexivity|]. simpl. rewrite E. reflexivity.
  - intros Hf Hu Hc. destruct (IH Hf Hu Hc) as (ps' & Hs & Hf').
    rewrite Hs. eexists. split; [reflexivity|]. simpl. rewrite E. exact Hf'.
Qed.



End TabOpenProps.

(** ** Tab handler: hexadecimal form of a string *)

Module HexProps.
Import TabHandlerMethods.

(** The value of a hexadecimal digit. *)
Definition hex_value (c : ascii) : option N :=
  let n := N.of_nat (nat_of_ascii c) in
  if ((48 <=? n) && (n <=? 57))%N then Some (n - 48)%N
  else if ((97 <=? n) && (n <=? 102))%N then Some (n - 87)%N
  else None.

(** Reading two digits per code unit. *)
Fixpoint read_pairs (fuel : nat) (s : string) : option (list N) :=
  match fuel, s with
  | _, EmptyString => Some []
  | S fuel', String c1 (String c2 s') =>
      match hex_value c1, hex_value c2, read_pairs fuel' s' with
      | Some a, Some b, Some l => Some ((16 * a + b)%N :: l)
      | _, _, _ => None
      end
  | _, _ => None
  end.

Definition latin1 (str : list N) : Prop := Forall (fun u => (u < 256)%N) str.

Definition two_digits (u : N) : bool :=
  match padStart2 (toString16 u) with
  | String c1 (String c2 EmptyString) =>
      match hex_value c1, hex_value c2 with
      | Some a, Some b => (16 * a + b =? u)%N
      | _, _ => false
      end
  | _ => false
  end.

Lemma two_digits_below_256 (u : N) : (u < 256)%N -> two_digits u = true.
Proof.
  intros Hu.
  assert (Hall : forallb two_digits (map N.of_nat (seq 0 256)) = true)
    by (vm_compute; reflexivity).
  rewrite forallb_forall in Hall. apply Hall.
  rewrite in_map_iff. exists (N.to_nat u). split; [apply N2Nat.id|].
  apply in_seq. lia.
Qed.

Lemma stringToHex_app (hex : string) (str : list N) :
  fold_left (fun hex charCode => (hex ++ padStart2 (toString16 charCode))%string)
    str hex
  = (hex ++ stringToHex str)%string.
Proof.
  unfold stringToHex. revert hex.
  induction str as [|u str IH]; intros hex; simpl.
  - clear. induction hex as [|c hex IH]; simpl; congruence.
  - rewrite IH, (IH (padStart2 (toString16 u))).
    clear. induction hex as [|c hex IH]; simpl; congruence.
Qed.

Lemma stringToHex_cons (u : N) (str : list N) :
  stringToHex (u :: str) = (padStart2 (toString16 u) ++ stringToHex str)%string.
Proof. unfold stringToHex at 1. simpl. apply stringToHex_app. Qed.

Lemma read_pairs_stringToHex (str : list N) (fuel : nat) :
  latin1 str -> (List.length str <= fuel)%nat ->
  read_pairs fuel (stringToHex str) = Some str.
Proof.
  intros Hl. revert fuel.
  induction Hl as [|u str Hu Hl IH]; intros fuel Hf.
  - destruct fuel; reflexivity.
  - destruct fuel as [|fuel]; [simpl in Hf; lia|].
    rewrite stringToHex_cons.
    pose proof (two_digits_below_256 u Hu) as Ht. unfold two_digits in Ht.
    destruct (padStart2 (toString16 u)) as [|c1 [|c2 [|c3 r]]];
      try discriminate.
    cbn [String.append read_pairs].
    destruct (hex_value c1) as [a|]; [|discriminate].
    destruct (hex_value c2) as [b|]; [|discriminate].
    apply N.eqb_eq in Ht.
    rewrite IH by (simpl in Hf; lia). rewrite Ht. reflexivity.
Qed.

(** X4.  For a string whose char codes are all below 256, [stringToHex]
    gives two hexadecimal digits per code unit, and the string can be read
    back from them: two such strings with the same hexadecimal form are
    equal.  Above 255 a code takes three or four digits and the form is
    ambiguous: the one unit 0x1000 and the two units 0x10, 0x00 both give
    [1000]. *)
Theorem stringToHex_latin1 :
  (forall str, latin1 str ->
     String.length (stringToHex str) = (2 * List.length str)%nat)
  /\ (forall s t, latin1 s -> latin1 t ->
        stringToHex s = stringToHex t -> s = t)
  /\ stringToHex [4096%N] = stringToHex [16%N; 0%N].
Proof.
  split; [|split].
  - intros str Hl. induction Hl as [|u str Hu Hl IH]; [reflexivity|].
    rewrite stringToHex_cons.
    pose proof (two_digits_below_256 u Hu) as Ht. unfold two_digits in Ht.
    destruct (padStart2 (toString16 u)) as [|c1 [|c2 [|c3 r]]];
      try discriminate.
    cbn [String.append String.length List.length]. rewrite IH. lia.
  - intros s t Hs Ht He.
    pose proof (read_pairs_stringToHex s (List.length s + List.length t) Hs
                  ltac:(lia)) as H1.
    pose proof (read_pairs_stringToHex t (List.length s + List.length t) Ht
                  ltac:(lia)) as H2.
    rewrite He in H1. congruence.
  - reflexivity.
Qed.

End HexProps.

(** ** Table maker: batch mode and the sort state *)

Section BatchProps.
Context {N : Num} {H : Host}.
Import TableMakerComponent.
Local Open Scope m_scope.

(** In batch mode the shadow root is not touched and batch mode goes on. *)
Definition deferred (st st' : component) : Prop :=
  batchMode st = true ->
  batchMode st' = true /\ shadow st' = shadow st.

Lemma deferred_refl st : deferred st st.
Proof. intros Hb. auto. Qed.

Lemma deferred_trans a b c : deferred a b -> deferred b c -> deferred a c.
Proof.
  intros Hab Hbc Hb. destruct (Hab Hb) as [Hb' Hs].
  destruct (Hbc Hb') as [Hb'' Hs']. split; congruence.
Qed.

(** The batch flag and the sort state stay. *)
Definition same_flags (st st' : component) : Prop :=
  batchMode st' = batchMode st /\ sortedColumn st' = sortedColumn st.

Lemma same_flags_refl st : same_flags st st.
Proof. split; reflexivity. Qed.

Lemma same_flags_trans a b c :
  same_flags a b -> same_flags b c -> same_flags a c.
Proof. intros [H1 H2] [H1' H2']. split; congruence. Qed.

Lemma write_style_deferred k x : keeps deferred (write_style k x).
Proof.
  intros st Hb. unfold write_style.
  destruct (set_member (style st) k x); simpl; auto.
Qed.

Lemma write_style_same_flags k x : keeps same_flags (write_style k x).
Proof.
  intros st. unfold write_style.
  destruct (set_member (style st) k x); simpl; split; reflexivity.
Qed.

(** The end of every setter: [if (!this.#batchMode) this.#render()]. *)
Lemma render_unless_batch_deferred (r : M unit) :
  keeps deferred (b <~ read batchMode ;; if b then ret tt else r).
Proof. intros st Hb. unfold bindM, read. rewrite Hb. simpl. auto. Qed.

End BatchProps.

#[local] Hint Resolve deferred_refl deferred_trans same_flags_refl
  same_flags_trans : frame.

Ltac frame_deferred :=
  repeat match goal with
         | |- keeps _ (bindM (read batchMode) _) =>
             apply render_unless_batch_deferred
         | |- keeps _ (write_style _ _) => apply write_style_deferred
         | |- keeps _ (modify _) => intros ? ?; simpl; auto
         | |- _ => frame_step
         end.

Ltac frame_same_flags :=
  repeat match goal with
         | |- keeps _ (write_style _ _) => apply write_style_same_flags
         | |- keeps _ (modify _) => intros ?; split; reflexivity
         | |- _ => frame_step
         end.

Section BatchClaims.
Context {N : Num} {H : Host}.
Import TableMakerComponent.
Local Open Scope m_scope.

Lemma bindM_ok {A B} (m : M A) (k : A -> M B) (st : component) (b : B) :
  snd (bindM m k st) = Ok b ->
  exists a, snd (m st) = Ok a /\ bindM m k st = k a (fst (m st))
            /\ snd (k a (fst (m st))) = Ok b.
Proof.
  unfold bindM. destruct (m st) as [st' [a|e]]; cbn [fst snd].
  - intros Hk. exists a. auto.
  - discriminate.
Qed.

Lemma render_same_flags assign_data : keeps same_flags (render assign_data).
Proof.
  unfold render, default_style, buildStandardTable, transposeTable,
    createAggregateColumnArray, set_shadow, set_aggregateColumns.
  frame_same_flags.
Qed.

Lemma set_data_deferred depth v : keeps deferred (set_data depth v).
Proof.
  unfold set_data, set_data_with, set_tableData, set_style, default_style,
    console_error.
  destruct v; try destruct (JSON_parse s); frame_deferred.
Qed.

Lemma set_styleConfig_deferred depth v :
  keeps deferred (set_styleConfig depth v).
Proof.
  unfold set_styleConfig, set_styleConfig_with, set_style, default_style,
    console_error.
  destruct v; try destruct (JSON_parse s); frame_deferred.
Qed.

Lemma set_transpose_deferred depth v : keeps deferred (set_transpose depth v).
Proof.
  unfold set_transpose, set_transpose_with, set_transpose_field.
  frame_deferred.
Qed.

(** X5.  Batch mode defers rendering.  After [beginBatch()] an assignment to
    [data], [styleConfig] or [transpose], whatever is assigned and whether
    or not the assignment throws, leaves the shadow root as it is and batch
    mode on; [refresh()] is a render with batch mode switched off first, and
    batch mode is off after it even when the render throws. *)
Theorem batch_mode_defers_rendering (depth : nat) (st : component) :
  (batchMode st = true ->
   forall v,
     (batchMode (fst (set_data depth v st)) = true
      /\ shadow (fst (set_data depth v st)) = shadow st)
     /\ (batchMode (fst (set_styleConfig depth v st)) = true
         /\ shadow (fst (set_styleConfig depth v st)) = shadow st)
     /\ (batchMode (fst (set_transpose depth v st)) = true
         /\ shadow (fst (set_transpose depth v st)) = shadow st))
  /\ batchMode (fst (beginBatch st)) = true
  /\ shadow (fst (beginBatch st)) = shadow st
  /\ refresh depth st = rerender depth (fst (set_batchMode false st))
  /\ batchMode (fst (refresh depth st)) = false.
Proof.
  split; [|split; [|split; [|split]]]; try reflexivity.
  - intros Hb v. split; [|split].
    + exact (set_data_deferred depth v st Hb).
    + exact (set_styleConfig_deferred depth v st Hb).
    + exact (set_transpose_deferred depth v st Hb).
  - change (refresh depth st)
      with (rerender depth (fst (set_batchMode false st))).
    destruct (render_same_flags (assign_nested depth)
                (fst (set_batchMode false st))) as [Hb _].
    exact Hb.
Qed.


Lemma set_data_same_flags depth v : keeps same_flags (set_data depth v).
Proof.
  unfold set_data, set_data_with, set_tableData, set_style, default_style,
    console_error.
  destruct v; try destruct (JSON_parse s);
    repeat match goal with
           | |- keeps _ (render _) => apply render_same_flags
           | |- keeps _ (write_style _ _) => apply write_style_same_flags
           | |- keeps _ (modify _) => intros ?; split; reflexivity
           | |- _ => frame_step
           end.
Qed.

Lemma set_styleConfig_same_flags depth v :
  keeps same_flags (set_styleConfig depth v).
Proof.
  unfold set_styleConfig, set_styleConfig_with, set_style, default_style,
    console_error.
  destruct v; try destruct (JSON_parse s);
    repeat match goal with
           | |- keeps _ (render _) => apply render_same_flags
           | |- keeps _ (write_style _ _) => apply write_style_same_flags
           | |- keeps _ (modify _) => intros ?; split; reflexivity
           | |- _ => frame_step
           end.
Qed.

Lemma set_transpose_same_flags depth v :
  keeps same_flags (set_transpose depth v).
Proof.
  unfold set_transpose, set_transpose_with, set_transpose_field.
  repeat match goal with
         | |- keeps _ (render _) => apply render_same_flags
         | |- keeps _ (modify _) => intros ?; split; reflexivity
         | |- _ => frame_step
         end.
Qed.

Lemma click_toggle_same_flags path i : keeps same_flags (click_toggle path i).
Proof. unfold click_toggle, set_shadow. frame_same_flags. Qed.

(** The rows [#sortBy] looks at: [this.#tableData?.rows]. *)
Definition rows_of (st : component) : value :=
  let d := tableData st in
  match d with
  | VUndef | VNull => VUndef
  | _ => member d "rows"
  end.

Lemma sortBy_guard (depth : nat) (columnKey : string) (asc : bool)
  (st : component) :
  sortBy depth columnKey asc st
  = (if negb (truthy (rows_of st)) then ret tt
     else
       rs <~ lift (as_array (rows_of st)) ;;
       (if (2 <=? List.length (filter (fun v => negb (is_undefined v)) rs))%nat
           && existsb is_null (filter (fun v => negb (is_undefined v)) rs)
        then lift (Throw TypeError)
        else ret tt) ;;;
       sort_rows columnKey asc ;;;
       set_sortedColumn (VStr columnKey, asc) ;;;
       rerender depth) st.
Proof. reflexivity. Qed.

(** X6.  The sort state is written by [#sortBy] and by nothing else.
    Renders, refreshes, toggles and assignments to [data], [styleConfig] and
    [transpose] leave it as it is, so the column stays marked when new data
    comes in.  [#sortBy] itself does nothing at all when the data has no
    rows; when it has and the call returns, the sort state is the column and
    the direction of the call. *)
Theorem sort_state_is_kept (depth : nat) (st : component) :
  (forall c, is_sort c = false ->
     sortedColumn (fst (run depth c st)) = sortedColumn st)
  /\ (forall v, sortedColumn (fst (set_data depth v st)) = sortedColumn st)
  /\ (forall columnKey asc,
        truthy (rows_of st) = false ->
        sortBy depth columnKey asc st = (st, Ok tt))
  /\ (forall columnKey asc,
        truthy (rows_of st) = true ->
        snd (sortBy depth columnKey asc st) = Ok tt ->
        sortedColumn (fst (sortBy depth columnKey asc st))
        = (VStr columnKey, asc)).
Proof.
  split; [|split; [|split]].
  - intros c Hc. destruct c; try discriminate; cbn [run].
    + exact (proj2 (render_same_flags (assign_nested depth) st)).
    + unfold refresh, refresh_with, set_batchMode.
      assert (Hk : keeps (fun a b => sortedColumn b = sortedColumn a)
                     (modify (fun st0 =>
                        {| tableData := tableData st0; style := style st0;
                           style_shared := style_shared st0;
                           aggregateColumns := aggregateColumns st0;
                           transpose := transpose st0; batchMode := false;
                           sortedColumn := sortedColumn st0;
                           shadow := shadow st0; console := console st0;
                           dispatched := dispatched st0 |}) ;;;
                      render (assign_nested depth))).
      { apply keeps_bind; [congruence | intros ?; reflexivity |].
        intros _ st0.
        exact (proj2 (render_same_flags (assign_nested depth) st0)). }
      exact (Hk st).
    + reflexivity.
    + exact (proj2 (set_transpose_same_flags depth v st)).
    + exact (proj2 (set_styleConfig_same_flags depth v st)).
    + exact (proj2 (click_toggle_same_flags path i st)).
  - intros v. exact (proj2 (set_data_same_flags depth v st)).
  - intros columnKey asc Hr. rewrite sortBy_guard, Hr. reflexivity.
  - intros columnKey asc Hr. rewrite sortBy_guard, Hr. cbn [negb].
    intros Hok.
    apply bindM_ok in Hok as (rs & _ & -> & Hok).
    apply bindM_ok in Hok as (? & _ & -> & Hok).
    apply bindM_ok in Hok as (? & _ & -> & Hok).
    apply bindM_ok in Hok as (? & _ & -> & Hok).
    exact (proj2 (render_same_flags (assign_nested depth) _)).
Qed.

(** X7.  Assigning [null] or [undefined] to [data] throws a [TypeError]
    (the setter reads [style] off the value), after the value has been
    stored and before anything is rendered: style and shadow root stay,
    reading [data] gives the value, and the next render clears the shadow
    root and shows nothing.  The JSON text of [null] assigned to [data]
    outside batch mode clears the shadow root at once and returns. *)
Theorem data_null (depth : nat) (st : component) :
  (forall v, v = VNull \/ v = VUndef ->
     snd (set_data depth v st) = Throw TypeError
     /\ get_data (fst (set_data depth v st)) = v
     /\ get_styleConfig (fst (set_data depth v st)) = get_styleConfig st
     /\ shadow (fst (set_data depth v st)) = shadow st
     /\ snd (rerender depth (fst (set_data depth v st))) = Ok tt
     /\ shadow (fst (rerender depth (fst (set_data depth v st)))) = [])
  /\ (forall s, JSON_parse s = Some VNull -> batchMode st = false ->
        snd (set_data depth (VStr s) st) = Ok tt
        /\ get_data (fst (set_data depth (VStr s) st)) = VNull
        /\ shadow (fst (set_data depth (VStr s) st)) = []).
Proof.
  split.
  - intros v [-> | ->]; repeat split; reflexivity.
  - intros s Hs Hb. unfold set_data, set_data_with. rewrite Hs.
    unfold bindM, set_tableData, modify, read. cbn. rewrite Hb.
    repeat split; reflexivity.
Qed.

End BatchClaims.

(** ** Table maker: the cells of a row *)

Section CellCountProps.
Context {N : Num} {H : Host}.
Import TableMakerComponent.

(** The number of cells of a row. *)
Definition cells (tr : node) : nat :=
  match tr with
  | Node _ _ _ ch => List.length ch
  end.

(** The header row inside [<thead>]. *)
Definition header_row (thead : node) : node :=
  match thead with
  | Node _ _ _ (tr :: _) => tr
  | _ => thead
  end.

Definition extra (b : bool) : nat := if b then 1%nat else 0%nat.

(** X8.  The header row and every subtotal or footer row have one cell per
    visible column, one more when some row of the data has details and one
    more when there are row buttons.  A data row has one cell per visible
    column, one more when this row has details and one more when there are
    row buttons; so it lines up with the header when it has details or no
    row has, and is one cell short when other rows have details and it has
    none. *)
Theorem cells_of_rows (st : component) (cols : list (string * value)) :
  let expandable := truthy (member (style st) "expandableRows") in
  let buttons := length_positive (member (style st) "row_buttons") in
  let width := (List.length cols + extra expandable + extra buttons)%nat in
  cells (header_row (buildHeader st cols)) = width
  /\ (forall groupRows groupLabel tr,
        subtotalRow st cols groupRows groupLabel = Ok tr -> cells tr = width)
  /\ (forall row tr,
        buildDataRow st row cols = Ok tr ->
        cells tr
        = (List.length cols + extra (has_details row) + extra buttons)%nat
        /\ (has_details row = expandable -> cells tr = width)
        /\ (has_details row = false -> expandable = true ->
            S (cells tr) = width)).
Proof.
  intros expandable buttons width. subst width.
  split; [|split].
  - unfold buildHeader. fold expandable. fold buttons.
    cbn [header_row el cells].
    destruct expandable, buttons; cbn [extra]; cbv beta iota;
      repeat first [rewrite length_app | rewrite length_map
                   | progress cbn [List.length]]; lia.
  - intros groupRows groupLabel tr. unfold subtotalRow.
    fold expandable. fold buttons.
    destruct (calcGroupAggregates _ groupRows) as [aggInfo|e];
      [|discriminate].
    cbn [bind]. intros Htr. injection Htr as <-. cbn [el cells].
    destruct expandable, buttons; cbn [extra]; cbv beta iota;
      repeat first [rewrite length_app | rewrite length_map
                   | progress cbn [List.length]]; lia.
  - intros row tr. unfold buildDataRow. fold buttons.
    destruct (prop row "") as [?|e]; [|discriminate]. cbn [bind].
    destruct (computeRowClasses st row) as [classes|e]; [|discriminate].
    cbn [bind].
    destruct buttons eqn:Eb.
    + destruct (buildRowButtons st row) as [bs|e]; [|discriminate].
      cbn [bind]. intros Htr. injection Htr as <-. cbn [el cells].
      destruct (has_details row), expandable; cbn [extra]; cbv beta iota;
        repeat first [rewrite length_app | rewrite length_map
                     | progress cbn [List.length]];
        repeat split; intros; try discriminate; lia.
    + cbn [bind]. intros Htr. injection Htr as <-. cbn [el cells].
      destruct (has_details row), expandable; cbn [extra]; cbv beta iota;
        repeat first [rewrite length_app | rewrite length_map
                     | progress cbn [List.length]];
        repeat split; intros; try discriminate; lia.
Qed.

End CellCountProps.

(** ** Table maker: expand and collapse *)

Section ToggleProps.
Context {N : Num} {H : Host}.
Import TableMakerComponent.

Lemma node_nested_ind (P : node -> Prop) :
  (forall tag props ls ch, Forall P ch -> P (Node tag props ls ch)) ->
  forall n, P n.
Proof.
  intros Hnode.
  fix IH 1. intros [tag props ls ch]. apply Hnode.
  induction ch as [|c ch IHch]; constructor; [apply IH | exact IHch].
Qed.

Lemma set_prop_twice (k : string) (x y : value)
  (props : list (string * value)) :
  set_prop k x (set_prop k y props) = set_prop k x props.
Proof.
  induction props as [|[k' z] props IH]; simpl.
  - rewrite String.eqb_refl. reflexivity.
  - destruct (String.eqb k' k) eqn:E; simpl; rewrite E; [reflexivity|].
    rewrite IH. reflexivity.
Qed.

Lemma get_set_prop (k : string) (x : value) (props : list (string * value)) :
  get (set_prop k x props) k = x.
Proof.
  unfold get.
  induction props as [|[k' z] props IH]; simpl.
  - rewrite String.eqb_refl. reflexivity.
  - destruct (String.eqb k' k) eqn:E; simpl; rewrite E; [reflexivity|].
    exact IH.
Qed.

Lemma node_set_twice (k : string) (x y : value) (n : node) :
  node_set k x (node_set k y n) = node_set k x n.
Proof. destruct n. simpl. rewrite set_prop_twice. reflexivity. Qed.

Lemma set_caret_twice (a b : string) (n : node) :
  set_caret a (set_caret b n) = set_caret a n.
Proof.
  induction n as [tag props ls ch IH] using node_nested_ind.
  cbn [set_caret].
  destruct (has_toggle (Node tag props ls ch)) eqn:E.
  - cbn [set_caret]. change (has_toggle (Node tag _ ls ch))
      with (has_toggle (Node tag props ls ch)). rewrite E.
    rewrite set_prop_twice. reflexivity.
  - cbn [set_caret]. change (has_toggle (Node tag props ls _))
      with (has_toggle (Node tag props ls ch)). rewrite E.
    f_equal. rewrite map_map. apply map_ext_in. intros c Hc.
    rewrite Forall_forall in IH. apply IH. exact Hc.
Qed.

Lemma display_node_set (s : string) (n : node) :
  display (node_set "style.display" (VStr s) n) = VStr s.
Proof.
  destruct n. unfold display. cbn [node_set node_prop].
  rewrite get_set_prop. reflexivity.
Qed.

(** X9.  Expanding and collapsing undo each other.  On a row as the
    component builds it (the caret of its toggle is [▶︎], the next row is
    hidden) a click on the toggle shows the next row, and a second click
    puts every node back exactly as it was. *)
Theorem toggle_twice_restores (siblings : list node) (i : nat)
  (tr detailTr : node) :
  nth_error siblings i = Some tr ->
  nth_error siblings (S i) = Some detailTr ->
  set_caret "▶︎" tr = tr ->
  node_set "style.display" (VStr "none") detailTr = detailTr ->
  exists shown,
    toggle_click siblings i = Ok shown
    /\ option_map display (nth_error shown (S i)) = Some (VStr "")
    /\ toggle_click shown i = Ok siblings.
Proof.
  revert i. induction siblings as [|n rest IH]; intros i Htr Hd Hc Hn.
  - destruct i; discriminate.
  - destruct i as [|i].
    + cbn [nth_error] in Htr, Hd. injection Htr as ->.
      destruct rest as [|d rest']; [discriminate|].
      cbn [nth_error] in Hd. injection Hd as ->.
      assert (Hdisp : display detailTr = VStr "none")
        by (rewrite <- Hn; apply display_node_set).
      cbn [toggle_click]. rewrite Hdisp.
      cbn [TableMaker.is_str String.eqb].
      eexists. split; [reflexivity|]. split.
      * cbn [nth_error option_map]. rewrite display_node_set. reflexivity.
      * cbn [toggle_click]. rewrite display_node_set.
        cbn [TableMaker.is_str String.eqb].
        rewrite set_caret_twice, node_set_twice, Hc, Hn. reflexivity.
    + cbn [nth_error] in Htr, Hd.
      destruct (IH i Htr Hd Hc Hn) as (shown & H1 & H2 & H3).
      exists (n :: shown).
      destruct rest as [|d rest']; [destruct i; discriminate|].
      cbn [toggle_click]. cbn [toggle_click] in H1.
      split; [|split].
      * change (toggle_click (n :: d :: rest') (S i))
          with (bind (toggle_click (d :: rest') i)
                  (fun ns => Ok (n :: ns))).
        rewrite H1. reflexivity.
      * exact H2.
      * destruct shown as [|s0 shown']; [destruct i; discriminate|].
        change (toggle_click (n :: s0 :: shown') (S i))
          with (bind (toggle_click (s0 :: shown') i)
                  (fun ns => Ok (n :: ns))).
        rewrite H3. reflexivity.
Qed.

End ToggleProps.

(** ** Table maker: sorting twice *)

Section SortAgainProps.
Context {N : Num} {H : Host} {L : Laws}.
Import TableMakerComponent.
Local Open Scope m_scope.

Lemma sort_by_sorted_id {A} (c : A -> A -> num) (l : list A) :
  Sorted (may_precede c) l -> sort_by c l = l.
Proof.
  intros Hs. induction Hs as [|x l Hs IH Hhd]; [reflexivity|].
  cbn [sort_by fold_right]. fold (sort_by c l). rewrite IH.
  destruct Hhd as [|y l' Hxy]; [reflexivity|].
  cbn [insert_sorted]. unfold may_precede in Hxy.
  apply Z.leb_le in Hxy. rewrite Hxy. reflexivity.
Qed.

Lemma sort_compare_antisymmetric (type columnKey : string) (asc : bool)
  (l : list value) :
  sign_antisymmetric (sort_compare type columnKey asc) l.
Proof.
  intros a b _ _. unfold sort_compare. destruct asc.
  - rewrite (comparator_swap type columnKey b a). lia.
  - rewrite !nsign_nneg, (comparator_swap type columnKey b a). lia.
Qed.

(** The data is an object and stays one. *)
Definition object_kept (st st' : component) : Prop :=
  (exists o, tableData st = VObj o) -> exists o', tableData st' = VObj o'.

Lemma object_kept_refl st : object_kept st st.
Proof. intros Ho. exact Ho. Qed.

Lemma object_kept_trans a b c :
  object_kept a b -> object_kept b c -> object_kept a c.
Proof. intros Hab Hbc Ho. auto. Qed.

Lemma write_style_object_kept k x : keeps object_kept (write_style k x).
Proof.
  intros st [o Ho]. unfold write_style.
  destruct (set_member (style st) k x); simpl; [|eauto].
  rewrite Ho. destruct (style_shared st); eauto.
Qed.

#[local] Hint Resolve object_kept_refl object_kept_trans : frame.

Lemma render_object_kept assign_data :
  keeps object_kept (render assign_data).
Proof.
  unfold render, default_style, buildStandardTable, transposeTable,
    createAggregateColumnArray, set_shadow, set_aggregateColumns.
  repeat match goal with
         | |- keeps _ (write_style _ _) => apply write_style_object_kept
         | |- keeps _ (modify _) => intros ? ?; assumption
         | |- _ => frame_step
         end.
Qed.


End SortAgainProps.

(** ** Table maker: the transposed table *)

Section TransposeProps.
Context {N : Num} {H : Host}.
Import TableMakerComponent.
Local Open Scope m_scope.

Lemma transposed_cells tag col rows tds :
  mapM (transposed_cell tag col) rows = Ok tds ->
  List.length tds = List.length rows.
Proof. apply mapM_idx_length. Qed.


End TransposeProps.

(** ** Table maker: summing a dual-currency column *)

Section Money2SumProps.
Context {N : Num} {H : Host}.
Import TableMakerComponent.

(** The numbers at index [i] of the arrays that have such an index, in the
    order of the arrays. *)
Definition slot (i : nat) (arrays : list (list value)) : list num :=
  flat_map (fun vals => match nth_error vals i with
                        | Some v => [ToNumber v]
                        | None => []
                        end) arrays.

(** The longest of the arrays. *)
Definition width (arrays : list (list value)) : nat :=
  list_max (map (@List.length value) arrays).

Definition slot_sums (arrays : list (list value)) : list value :=
  map (fun i => VNum (fold_left nadd (slot i arrays) (nofZ 0)))
    (seq 0 (width arrays)).

Lemma add_elementwise_length (acc vals : list value) :
  List.length (add_elementwise acc vals)
  = Nat.max (List.length acc) (List.length vals).
Proof.
  revert acc. induction vals as [|v vals IH]; intros acc; simpl.
  - lia.
  - destruct acc as [|a acc]; simpl; rewrite IH; simpl; lia.
Qed.

Lemma add_elementwise_nth (acc vals : list value) (i : nat) :
  nth i (add_elementwise acc vals) VUndef
  = match nth_error vals i with
    | Some v => js_add (nullish (nth i acc VUndef) (VNum (nofZ 0)))
                  (VNum (ToNumber v))
    | None => nth i acc VUndef
    end.
Proof.
  revert acc i. induction vals as [|v vals IH]; intros acc i.
  - destruct i; reflexivity.
  - destruct acc as [|a acc]; destruct i as [|i]; cbn [add_elementwise nth nth_error];
      try reflexivity.
    + rewrite IH. destruct i; reflexivity.
    + apply IH.
Qed.

Lemma slot_app (i : nat) (a b : list (list value)) :
  slot i (a ++ b) = slot i a ++ slot i b.
Proof. unfold slot. apply flat_map_app. Qed.

Lemma slot_single (i : nat) (vals : list value) :
  slot i [vals] = match nth_error vals i with
                  | Some v => [ToNumber v]
                  | None => []
                  end.
Proof. unfold slot. cbn [flat_map]. apply app_nil_r. Qed.

Lemma slot_beyond (i : nat) (arrays : list (list value)) :
  (width arrays <= i)%nat -> slot i arrays = [].
Proof.
  unfold width, slot, list_max.
  induction arrays as [|vals arrays IH]; [reflexivity|].
  cbn [map fold_right flat_map]. intros Hw.
  rewrite IH by lia.
  assert (Hn : nth_error vals i = None) by (apply nth_error_None; lia).
  rewrite Hn. reflexivity.
Qed.

Lemma width_app (a b : list (list value)) :
  width (a ++ b) = Nat.max (width a) (width b).
Proof. unfold width. rewrite map_app. apply list_max_app. Qed.

(** After the arrays in [done] the accumulator holds their slot sums. *)
Lemma add_elementwise_sums (done : list (list value)) (vals : list value) :
  add_elementwise (slot_sums done) vals = slot_sums (done ++ [vals]).
Proof.
  apply (nth_ext _ _ VUndef VUndef).
  - rewrite add_elementwise_length. unfold slot_sums.
    rewrite !length_map, !length_seq, width_app.
    unfold width at 3. cbn [map list_max fold_right]. lia.
  - intros i Hi. rewrite add_elementwise_length in Hi.
    rewrite add_elementwise_nth.
    assert (Hnth : forall arrays,
              nth i (slot_sums arrays) VUndef
              = if (i <? width arrays)%nat
                then VNum (fold_left nadd (slot i arrays) (nofZ 0))
                else VUndef).
    { intros arrays. unfold slot_sums.
      destruct (i <? width arrays)%nat eqn:E.
      - apply Nat.ltb_lt in E.
        rewrite (nth_indep _ VUndef
                   (VNum (fold_left nadd (slot (width arrays) arrays) (nofZ 0))))
          by (rewrite length_map, length_seq; lia).
        rewrite (map_nth (fun k => VNum (fold_left nadd (slot k arrays) (nofZ 0)))).
        rewrite seq_nth by lia. reflexivity.
      - apply Nat.ltb_ge in E. apply nth_overflow.
        rewrite length_map, length_seq. lia. }
    rewrite !Hnth.
    assert (Hw : width (done ++ [vals])
                 = Nat.max (width done) (List.length vals)).
    { rewrite width_app. unfold width at 2.
      cbn [map list_max fold_right]. lia. }
    unfold slot_sums in Hi. rewrite length_map, length_seq in Hi.
    assert (Hlt : (i <? width (done ++ [vals]))%nat = true)
      by (apply Nat.ltb_lt; lia).
    rewrite Hlt, slot_app, slot_single, fold_left_app.
    destruct (nth_error vals i) as [v|] eqn:Ev.
    + cbn [fold_left].
      destruct (i <? width done)%nat eqn:E; cbn [nullish js_add ToNumber].
      * reflexivity.
      * apply Nat.ltb_ge in E. rewrite (slot_beyond i done E). reflexivity.
    + cbn [fold_left].
      assert (Hv : (List.length vals <= i)%nat) by (apply nth_error_None; exact Ev).
      assert (E : (i <? width done)%nat = true) by (apply Nat.ltb_lt; lia).
      rewrite E. reflexivity.
Qed.

(** X12.  The [sum] of a [money_2] column adds the arrays slot by slot.  When
    the cell of every row holds an array, the aggregate is an array as long
    as the longest of them, and its entry at index [i] is the sum, taken in
    row order from 0, of the entries the rows have at index [i], each
    converted by [Number]; a row whose array is shorter adds nothing
    there. *)
Theorem money2_sum_by_slot (colInfo : value) (col : string)
  (rows : list value) (arrays : list (list value)) :
  member colInfo "col" = VStr col ->
  member colInfo "aggregate" = VStr "sum" ->
  member colInfo "type" = VStr COL_TYPES.MONEY2 ->
  Forall2 (fun row vals => member (member row col) "value" = VArr vals)
    rows arrays ->
  aggregate_value colInfo rows = Ok (VArr (slot_sums arrays))
  /\ List.length (slot_sums arrays) = width arrays
  /\ forall i, (i < width arrays)%nat ->
       nth i (slot_sums arrays) VUndef
       = VNum (fold_left nadd (slot i arrays) (nofZ 0)).
Proof.
  intros Hcol Hagg Hty Hrows.
  split; [|split].
  - unfold aggregate_value.
    destruct colInfo as [| | | | | |o]; try discriminate Hcol.
    cbn [prop bind]. rewrite Hcol, Hagg, Hty.
    cbn [ToString nullish TableMaker.is_str String.eqb Ascii.eqb Bool.eqb
         COL_TYPES.MONEY2].
    assert (Hgen : forall done,
              foldM (fun acc arr =>
                       bind (prop arr col) (fun cell =>
                       bind (prop cell "value") (fun v =>
                       bind (as_array v) (fun vals =>
                       Ok (add_elementwise acc vals)))))
                rows (slot_sums done)
              = Ok (slot_sums (done ++ arrays))).
    { induction Hrows as [|row vals rows arrays Hrow Hrows IH]; intros done.
      - rewrite app_nil_r. reflexivity.
      - cbn [foldM].
        assert (Hr : prop row col = Ok (member row col)).
        { destruct row; try reflexivity; discriminate Hrow. }
        assert (Hc : prop (member row col) "value"
                     = Ok (member (member row col) "value")).
        { destruct (member row col); try reflexivity; discriminate Hrow. }
        rewrite Hr. cbn [bind]. rewrite Hc. cbn [bind]. rewrite Hrow.
        cbn [as_array bind]. rewrite add_elementwise_sums, IH.
        rewrite <- app_assoc. reflexivity. }
    specialize (Hgen []). cbn [app] in Hgen.
    change (slot_sums []) with (@nil value) in Hgen.
    rewrite Hgen. reflexivity.
  - unfold slot_sums. rewrite length_map, length_seq. reflexivity.
  - intros i Hi. unfold slot_sums.
    rewrite (nth_indep _ VUndef
               (VNum (fold_left nadd (slot (width arrays) arrays) (nofZ 0))))
      by (rewrite length_map, length_seq; lia).
    rewrite (map_nth (fun k => VNum (fold_left nadd (slot k arrays) (nofZ 0)))).
    rewrite seq_nth by lia. reflexivity.
Qed.

End Money2SumProps.

(** ** The editor page: the tabs are never lost *)

Module EditorProps.
Import Editor.

Lemma decimal_inj (n m : nat) : decimal n = decimal m -> n = m.
Proof.
  unfold decimal. intros He.
  assert (Hnn : forall k, Nat.to_uint k <> Decimal.Nil).
  { intros k. rewrite <- (DecimalNat.Unsigned.of_to k) at 1.
    rewrite DecimalNat.Unsigned.to_of. apply DecimalFacts.unorm_nonnil. }
  apply (f_equal NilZero.uint_of_string) in He.
  rewrite !NilZero.usu in He by apply Hnn.
  injection He as He. apply DecimalNat.Unsigned.to_uint_inj. exact He.
Qed.

(** The id [createTab] gives when the counter has reached [k]. *)
Definition tab_id (k : nat) : string := ("tab-" ++ decimal k)%string.

Lemma tab_id_inj (n m : nat) : tab_id n = tab_id m -> n = m.
Proof.
  unfold tab_id. intros He. cbn [String.append] in He.
  injection He as He. apply decimal_inj. exact He.
Qed.

(** The strip [renderTabs] builds for these tabs. *)
Definition strip (ts : list tab) (active : option string) : list tabEl :=
  map (fun t =>
         {| className := ("tab" ++ (if is_active active (t_id t)
                                    then " active" else ""))%string;
            dataset_id := t_id t;
            title := t_name t;
            textContent := t_name t |}) ts.

(** Ids come from the counter and are not used twice; and when the active
    id is the id of a tab, the editor shows that tab's document. *)
Record sound (st : page) : Prop := {
  sound_ids : forall t, In t (tabs st) ->
                exists k, (1 <= k <= tabCounter st)%nat /\ t_id t = tab_id k;
  sound_nodup : NoDup (map t_id (tabs st));
  sound_doc : forall t, In t (tabs st) -> activeTabId st = Some (t_id t) ->
                editor_doc st = t_doc t;
  sound_active : forall a, activeTabId st = Some a ->
                   exists k, (k <= tabCounter st)%nat /\ a = tab_id k
}.

(** The page has a tab and shows it. *)
Record shown (st : page) : Prop := {
  shown_active : exists t, In t (tabs st) /\ activeTabId st = Some (t_id t);
  shown_strip : tabsEl st = strip (tabs st) (activeTabId st)
}.

Lemma find_tab_In (id : string) (ts : list tab) (t : tab) :
  find_tab id ts = Some t -> In t ts /\ t_id t = id.
Proof.
  unfold find_tab. intros Hf. apply find_some in Hf as [Hin He].
  apply String.eqb_eq in He. auto.
Qed.

Lemma find_tab_None (id : string) (ts : list tab) :
  find_tab id ts = None -> ~ In id (map t_id ts).
Proof.
  unfold find_tab. intros Hf Hin. apply in_map_iff in Hin as (t & He & Hin).
  pose proof (find_none _ _ Hf t Hin) as Hn. cbv beta in Hn.
  rewrite He, String.eqb_refl in Hn. discriminate.
Qed.

Lemma find_tab_Some (id : string) (ts : list tab) :
  In id (map t_id ts) -> exists t, find_tab id ts = Some t.
Proof.
  intros Hin. destruct (find_tab id ts) as [t|] eqn:E; [eauto|].
  destruct (find_tab_None _ _ E Hin).
Qed.

Lemma store_doc_ids (id : string) (d : nat) (ts : list tab) :
  map t_id (store_doc id d ts) = map t_id ts.
Proof.
  induction ts as [|x ts IH]; simpl; [reflexivity|].
  destruct (String.eqb (t_id x) id); simpl; [reflexivity|].
  rewrite IH. reflexivity.
Qed.

Lemma store_doc_same (t : tab) (ts : list tab) :
  In t ts -> NoDup (map t_id ts) ->
  store_doc (t_id t) (t_doc t) ts = ts.
Proof.
  induction ts as [|x ts IH]; intros Hin Hnd; [destruct Hin|].
  simpl in Hnd. inversion Hnd as [|? ? Hnotin Hnd']; subst.
  cbn [store_doc]. destruct (String.eqb (t_id x) (t_id t)) eqn:E.
  - apply String.eqb_eq in E. destruct Hin as [->|Hin].
    + destruct t; reflexivity.
    + exfalso. apply Hnotin. rewrite E. apply in_map. exact Hin.
  - destruct Hin as [->|Hin]; [rewrite String.eqb_refl in E; discriminate|].
    rewrite IH by assumption. reflexivity.
Qed.

Lemma store_doc_absent (id : string) (d : nat) (ts : list tab) :
  ~ In id (map t_id ts) -> store_doc id d ts = ts.
Proof.
  induction ts as [|x ts IH]; intros Hn; [reflexivity|].
  cbn [store_doc]. destruct (String.eqb (t_id x) id) eqn:E.
  - apply String.eqb_eq in E. exfalso. apply Hn. left. exact E.
  - rewrite IH; [reflexivity|]. intros Hin. apply Hn. right. exact Hin.
Qed.

(** Saving the editor's document into the active tab changes nothing. *)
Lemma saved_tabs (st : page) :
  sound st ->
  match activeTabId st with
  | Some a => if String.eqb a "" then tabs st
              else store_doc a (editor_doc st) (tabs st)
  | None => tabs st
  end = tabs st.
Proof.
  intros Hs. destruct (activeTabId st) as [a|] eqn:Ea; [|reflexivity].
  destruct (String.eqb a ""); [reflexivity|].
  destruct (in_dec string_dec a (map t_id (tabs st))) as [Hin|Hn].
  - apply in_map_iff in Hin as (t & He & Hin). subst a.
    rewrite (sound_doc st Hs t Hin Ea).
    apply store_doc_same; [exact Hin | apply (sound_nodup st Hs)].
  - apply store_doc_absent. exact Hn.
Qed.

Lemma same_id_same_tab (ts : list tab) (t t' : tab) :
  NoDup (map t_id ts) -> In t ts -> In t' ts -> t_id t = t_id t' -> t = t'.
Proof.
  induction ts as [|x ts IH]; intros Hnd Ht Ht' He; [destruct Ht|].
  simpl in Hnd. inversion Hnd as [|? ? Hnotin Hnd']; subst.
  destruct Ht as [->|Ht], Ht' as [->|Ht']; auto.
  - exfalso. apply Hnotin. rewrite He. apply in_map. exact Ht'.
  - exfalso. apply Hnotin. rewrite <- He. apply in_map. exact Ht.
Qed.

Lemma switchToTab_there (id : string) (st : page) :
  sound st -> In id (map t_id (tabs st)) ->
  let st' := switchToTab id st in
  sound st' /\ tabs st' = tabs st /\ tabCounter st' = tabCounter st
  /\ activeTabId st' = Some id
  /\ (shown st \/ is_active (activeTabId st) id = false -> shown st').
Proof.
  intros Hs Hin. cbv zeta. unfold switchToTab.
  destruct (is_active (activeTabId st) id) eqn:Eact.
  - unfold is_active in Eact. destruct (activeTabId st) as [a|] eqn:Ea;
      [|discriminate].
    apply String.eqb_eq in Eact. subst a.
    split; [exact Hs|]. split; [reflexivity|]. split; [reflexivity|].
    split; [reflexivity|]. intros [Hsh|Hf]; [exact Hsh | discriminate].
  - rewrite (saved_tabs st Hs).
    destruct (find_tab_Some id (tabs st) Hin) as [tab Hf]. rewrite Hf.
    destruct (find_tab_In _ _ _ Hf) as [Htin Hid].
    cbn [tabs activeTabId tabCounter editor_doc tabsEl renderTabs updateStatus].
    split; [|split; [reflexivity|split; [reflexivity|split; [reflexivity|]]]].
    + constructor; cbn [tabs activeTabId tabCounter editor_doc renderTabs
                        updateStatus].
      * apply (sound_ids st Hs).
      * apply (sound_nodup st Hs).
      * intros t Ht He. injection He as He.
        assert (t = tab); [|subst; reflexivity].
        apply (same_id_same_tab (tabs st)); try assumption.
        -- apply (sound_nodup st Hs).
        -- congruence.
      * intros a Ha. injection Ha as <-.
        destruct (sound_ids st Hs tab Htin) as (k & Hk & Hk').
        exists k. split; [lia | congruence].
    + intros _. constructor;
        cbn [tabs activeTabId tabsEl renderTabs updateStatus].
      * exists tab. split; [exact Htin | rewrite Hid; reflexivity].
      * reflexivity.
Qed.

Lemma switchToTab_absent (id : string) (st : page) :
  sound st -> ~ In id (map t_id (tabs st)) ->
  let st' := switchToTab id st in
  sound st' /\ tabs st' = tabs st /\ tabCounter st' = tabCounter st
  /\ activeTabId st' = activeTabId st /\ tabsEl st' = tabsEl st.
Proof.
  intros Hs Hn. cbv zeta. unfold switchToTab.
  destruct (is_active (activeTabId st) id) eqn:Eact.
  - split; [exact Hs|]. repeat split.
  - rewrite (saved_tabs st Hs).
    destruct (find_tab id (tabs st)) as [tab|] eqn:Hf.
    + destruct (find_tab_In _ _ _ Hf) as [Htin Hid]. exfalso. apply Hn.
      rewrite <- Hid. apply in_map. exact Htin.
    + cbn [tabs activeTabId tabCounter tabsEl].
      split; [|repeat split].
      destruct Hs as [H1 H2 H3 H4]. constructor; assumption.
Qed.

Lemma renderTabs_sound (st : page) : sound st -> sound (renderTabs st).
Proof. intros [H1 H2 H3 H4]. constructor; assumption. Qed.

Lemma createTab_sound (name : string) (mode : option string) (st : page) :
  sound st ->
  let st' := snd (createTab name mode st) in
  sound st' /\ shown st'
  /\ activeTabId st' = Some (tab_id (S (tabCounter st)))
  /\ tabCounter st' = S (tabCounter st)
  /\ map t_id (tabs st')
     = map t_id (tabs st) ++ [tab_id (S (tabCounter st))].
Proof.
  intros Hs. cbv zeta. unfold createTab. cbn [snd].
  fold (tab_id (S (tabCounter st))).
  set (new := {| t_id := tab_id (S (tabCounter st)); t_name := name;
                 t_doc := next_doc st; t_mode := or_null mode;
                 t_dirty := false |}).
  match goal with
  | |- context [switchToTab _ (renderTabs ?s)] => set (st1 := s)
  end.
  assert (Hfresh : ~ In (tab_id (S (tabCounter st))) (map t_id (tabs st))).
  { intros Hin. apply in_map_iff in Hin as (t & He & Hin).
    destruct (sound_ids st Hs t Hin) as (k & Hk & Hid).
    rewrite Hid in He. apply tab_id_inj in He. lia. }
  assert (Hnew : activeTabId st <> Some (tab_id (S (tabCounter st)))).
  { intros Ha. destruct (sound_active st Hs _ Ha) as (k & Hk & He).
    apply tab_id_inj in He. lia. }
  assert (Hs1 : sound (renderTabs st1)).
  { apply renderTabs_sound. constructor; cbn [tabs tabCounter activeTabId
                                               editor_doc st1].
    - intros t Hin. apply in_app_or in Hin as [Hin|[<-|[]]].
      + destruct (sound_ids st Hs t Hin) as (k & Hk & Hid).
        exists k. split; [lia | exact Hid].
      + exists (S (tabCounter st)). split; [lia | reflexivity].
    - rewrite map_app. cbn [map]. apply NoDup_app.
      + apply (sound_nodup st Hs).
      + repeat constructor. intros [].
      + intros x Hx [<-|[]]. exact (Hfresh Hx).
    - intros t Hin Ha. apply in_app_or in Hin as [Hin|[<-|[]]].
      + apply (sound_doc st Hs t Hin Ha).
      + destruct (Hnew Ha).
    - intros a Ha. destruct (sound_active st Hs a Ha) as (k & Hk & He).
      exists k. split; [lia | exact He]. }
  assert (Hin1 : In (tab_id (S (tabCounter st)))
                   (map t_id (tabs (renderTabs st1)))).
  { cbn [tabs renderTabs st1]. rewrite map_app. apply in_or_app.
    right. left. reflexivity. }
  destruct (switchToTab_there _ _ Hs1 Hin1) as (Hs2 & Ht & Hc & Ha & Hsh).
  split; [exact Hs2|]. split.
  - apply Hsh. right. cbn [activeTabId renderTabs st1].
    unfold is_active. destruct (activeTabId st) as [a|] eqn:Ea; [|reflexivity].
    apply String.eqb_neq. congruence.
  - split; [exact Ha|]. split; [exact Hc|].
    rewrite Ht. cbn [tabs renderTabs st1]. rewrite map_app. reflexivity.
Qed.

Lemma findTabIndex_Some (id : string) (ts : list tab) (idx : nat) :
  findTabIndex id ts = Some idx ->
  exists t, nth_error ts idx = Some t /\ t_id t = id.
Proof.
  revert idx. induction ts as [|x ts IH]; intros idx Hf; [discriminate|].
  cbn [findTabIndex] in Hf. destruct (String.eqb (t_id x) id) eqn:E.
  - injection Hf as <-. exists x. split; [reflexivity|].
    apply String.eqb_eq. exact E.
  - destruct (findTabIndex id ts) as [i|]; [|discriminate].
    injection Hf as <-. apply IH. reflexivity.
Qed.

Lemma splice1_In (idx : nat) (ts : list tab) (t : tab) :
  In t (splice1 idx ts) -> In t ts.
Proof.
  revert idx. induction ts as [|x ts IH]; intros idx Hin; [destruct idx; exact Hin|].
  destruct idx as [|i]; cbn [splice1] in Hin.
  - right. exact Hin.
  - destruct Hin as [->|Hin]; [left; reflexivity | right; eauto].
Qed.

Lemma splice1_keeps (idx : nat) (ts : list tab) (t t0 : tab) :
  nth_error ts idx = Some t0 -> In t ts -> t_id t <> t_id t0 ->
  In t (splice1 idx ts).
Proof.
  revert idx. induction ts as [|x ts IH]; intros idx Hn Hin Hne;
    [destruct Hin|].
  destruct idx as [|i]; cbn [splice1 nth_error] in *.
  - injection Hn as ->. destruct Hin as [->|Hin]; [congruence | exact Hin].
  - destruct Hin as [->|Hin]; [left; reflexivity | right; eauto].
Qed.

Lemma splice1_NoDup (idx : nat) (ts : list tab) :
  NoDup (map t_id ts) -> NoDup (map t_id (splice1 idx ts)).
Proof.
  revert idx. induction ts as [|x ts IH]; intros idx Hnd;
    [destruct idx; exact Hnd|].
  simpl in Hnd. inversion Hnd as [|? ? Hnotin Hnd']; subst.
  destruct idx as [|i]; cbn [splice1]; [exact Hnd'|].
  cbn [map]. constructor; [|apply IH; exact Hnd'].
  intros Hin. apply Hnotin. apply in_map_iff in Hin as (t & He & Hin).
  rewrite <- He. apply in_map. eapply splice1_In. exact Hin.
Qed.

Lemma with_tabs_sound (ts : list tab) (st : page) :
  sound st -> (forall t, In t ts -> In t (tabs st)) ->
  NoDup (map t_id ts) -> sound (with_tabs ts st).
Proof.
  intros [H1 H2 H3 H4] Hsub Hnd.
  constructor; cbn [tabs with_tabs tabCounter activeTabId editor_doc]; auto.
Qed.

Lemma closeTab_sound (id : string) (st : page) :
  sound st -> shown st ->
  sound (closeTab id st) /\ shown (closeTab id st).
Proof.
  intros Hs Hsh. unfold closeTab. cbv zeta.
  destruct (findTabIndex id (tabs st)) as [idx|] eqn:Ei; [|auto].
  destruct (findTabIndex_Some _ _ _ Ei) as (t0 & Hn0 & Hid0).
  assert (Hin0 : In t0 (tabs st)) by (eapply nth_error_In; exact Hn0).
  destruct (is_active (activeTabId st) id) eqn:Eact.
  - (* the active tab is closed *)
    assert (Hneighbour : forall n t,
              nth_error (tabs st) n = Some t -> n <> idx ->
              let st1 := switchToTab (t_id t) st in
              sound (renderTabs (with_tabs (splice1 idx (tabs st1)) st1))
              /\ shown (renderTabs (with_tabs (splice1 idx (tabs st1)) st1))
              /\ tabs (with_tabs (splice1 idx (tabs st1)) st1) <> []).
    { intros n t Hn Hne st1.
      assert (Hin : In t (tabs st)) by (eapply nth_error_In; exact Hn).
      assert (Hdiff : t_id t <> t_id t0).
      { intros He. apply Hne.
        pose proof (sound_nodup st Hs) as Hnd.
        apply (proj1 (NoDup_nth_error _) Hnd).
        - apply nth_error_Some. rewrite nth_error_map, Hn. discriminate.
        - rewrite !nth_error_map, Hn, Hn0. cbn. congruence. }
      destruct (switchToTab_there (t_id t) st Hs (in_map t_id _ _ Hin))
        as (Hs1 & Ht1 & Hc1 & Ha1 & _).
      fold st1 in Hs1, Ht1, Hc1, Ha1. rewrite Ht1.
      assert (Hkept : In t (splice1 idx (tabs st)))
        by (eapply splice1_keeps; eassumption).
      split; [|split].
      - apply renderTabs_sound. apply with_tabs_sound; [exact Hs1 | |].
        + intros x Hx. rewrite Ht1. eapply splice1_In. exact Hx.
        + apply splice1_NoDup. apply (sound_nodup st Hs).
      - constructor; [|reflexivity].
        cbn [tabs activeTabId renderTabs with_tabs]. exists t. auto.
      - cbn [tabs with_tabs]. intros He. rewrite He in Hkept. destruct Hkept. }
    destruct idx as [|i].
    + destruct (1 <? List.length (tabs st))%nat eqn:El.
      * apply Nat.ltb_lt in El.
        destruct (nth_error (tabs st) 1) as [t|] eqn:Hn;
          [|apply nth_error_None in Hn; lia].
        destruct (Hneighbour 1%nat t Hn ltac:(lia)) as (H1 & H2 & H3).
        destruct (tabs (with_tabs _ _)); [congruence | auto].
      * (* the only tab *)
        apply Nat.ltb_ge in El.
        assert (Hsp : splice1 0 (tabs st) = []).
        { destruct (tabs st) as [|x [|y r]];
            [reflexivity | reflexivity | simpl in El; lia]. }
        rewrite Hsp. cbn [with_tabs tabs].
        fold (with_tabs [] st). set (st2 := with_tabs [] st).
        assert (Hs2 : sound st2).
        { constructor; cbn [tabs st2 with_tabs tabCounter activeTabId].
          - intros ? [].
          - constructor.
          - intros ? [].
          - apply (sound_active st Hs). }
        destruct (createTab_sound "untitled.txt" None st2 Hs2)
          as (H1 & H2 & _).
        split; [apply renderTabs_sound; exact H1|].
        destruct H2 as [Hact Hstrip]. constructor; [exact Hact | reflexivity].
    + assert (Hi : exists t, nth_error (tabs st) i = Some t).
      { destruct (nth_error (tabs st) i) as [t|] eqn:Hn; [eauto|].
        apply nth_error_None in Hn.
        assert (S i < List.length (tabs st))%nat
          by (apply nth_error_Some; congruence).
        lia. }
      destruct Hi as [t Hn]. rewrite Hn.
      destruct (Hneighbour i t Hn ltac:(lia)) as (H1 & H2 & H3).
      destruct (tabs (with_tabs _ _)); [congruence | auto].
  - (* another tab is closed *)
    destruct Hsh as [(ta & Hta & Ha) Hstrip].
    assert (Hdiff : t_id ta <> t_id t0).
    { intros He. rewrite Ha in Eact. cbn [is_active] in Eact.
      rewrite <- Hid0, <- He, String.eqb_refl in Eact. discriminate. }
    assert (Hkept : In ta (splice1 idx (tabs st)))
      by (eapply splice1_keeps; eassumption).
    assert (Hs2 : sound (with_tabs (splice1 idx (tabs st)) st)).
    { apply with_tabs_sound; [exact Hs | |].
      - intros x Hx. eapply splice1_In. exact Hx.
      - apply splice1_NoDup. apply (sound_nodup st Hs). }
    destruct (tabs (with_tabs (splice1 idx (tabs st)) st)) as [|x r] eqn:Et.
    + cbn [tabs with_tabs] in Et. rewrite Et in Hkept. destruct Hkept.
    + split; [apply renderTabs_sound; exact Hs2|].
      constructor; [|reflexivity].
      cbn [tabs activeTabId renderTabs with_tabs]. exists ta. auto.
Qed.

Lemma act_sound (a : action) (st : page) :
  sound st -> shown st -> sound (act st a) /\ shown (act st a).
Proof.
  intros Hs Hsh. destruct a as [name mode|id|id]; cbn [act].
  - destruct (createTab_sound name mode st Hs) as (H1 & H2 & _). auto.
  - destruct (in_dec string_dec id (map t_id (tabs st))) as [Hin|Hn].
    + destruct (switchToTab_there id st Hs Hin) as (H1 & _ & _ & _ & H2).
      auto.
    + destruct (switchToTab_absent id st Hs Hn) as (H1 & Ht & _ & Ha & He).
      split; [exact H1|]. destruct Hsh as [Hact Hstrip].
      constructor; rewrite ?Ht, ?Ha, ?He; assumption.
  - apply closeTab_sound; assumption.
Qed.

Lemma start_sound : sound start /\ shown start.
Proof.
  assert (Hb : sound blank).
  { constructor; cbn [blank tabs activeTabId].
    - intros ? [].
    - constructor.
    - intros ? [].
    - intros a Ha. discriminate Ha. }
  destruct (createTab_sound "untitled.txt" None blank Hb) as (H1 & H2 & _).
  auto.
Qed.

Lemma one_active (ts : list tab) (t : tab) :
  NoDup (map t_id ts) -> In t ts ->
  List.length (filter (fun e => String.eqb (className e) "tab active")
                 (strip ts (Some (t_id t)))) = 1%nat.
Proof.
  assert (Hcls : forall b : bool,
            String.eqb ("tab" ++ (if b then " active" else "")) "tab active"
            = b) by (intros []; reflexivity).
  assert (Hnone : forall l, ~ In (t_id t) (map t_id l) ->
            filter (fun e => String.eqb (className e) "tab active")
              (strip l (Some (t_id t))) = []).
  { induction l as [|x l IH]; intros Hn; [reflexivity|].
    cbn [strip map filter className]. rewrite Hcls. cbn [is_active].
    destruct (String.eqb (t_id x) (t_id t)) eqn:E.
    - apply String.eqb_eq in E. exfalso. apply Hn. left. exact E.
    - apply IH. intros Hin. apply Hn. right. exact Hin. }
  induction ts as [|x ts IH]; intros Hnd Hin; [destruct Hin|].
  simpl in Hnd. inversion Hnd as [|? ? Hnotin Hnd']; subst.
  cbn [strip map filter className]. rewrite Hcls. cbn [is_active].
  destruct Hin as [->|Hin].
  - rewrite String.eqb_refl. cbn [List.length]. f_equal.
    change (map _ ts) with (strip ts (Some (t_id t))).
    rewrite Hnone by exact Hnotin. reflexivity.
  - destruct (String.eqb (t_id x) (t_id t)) eqn:E.
    + apply String.eqb_eq in E. exfalso. apply Hnotin. rewrite E.
      apply in_map. exact Hin.
    + apply IH; assumption.
Qed.

(** X13.  The tabs of the editor page are never lost.  Whatever tabs are
    created, switched to and closed, with whatever ids the calls are given:
    there is at least one tab (closing the last one opens a fresh
    [untitled.txt]), no two tabs have the same id, the active id is the id
    of one of the tabs, the editor shows that tab's document, and the strip
    shows the tabs in order with exactly that one marked active. *)
Theorem tabs_are_never_lost (actions : list action) :
  let st := fold_left act actions start in
  tabs st <> []
  /\ NoDup (map t_id (tabs st))
  /\ (exists t, In t (tabs st) /\ activeTabId st = Some (t_id t)
                /\ editor_doc st = t_doc t)
  /\ tabsEl st = strip (tabs st) (activeTabId st)
  /\ List.length (filter (fun e => String.eqb (className e) "tab active")
                    (tabsEl st)) = 1%nat.
Proof.
  cbv zeta.
  assert (Hinv : sound (fold_left act actions start)
                 /\ shown (fold_left act actions start)).
  { generalize start_sound. generalize start.
    induction actions as [|a actions IH]; intros st [Hs Hsh]; [auto|].
    cbn [fold_left]. apply IH. apply act_sound; assumption. }
  destruct Hinv as [Hs [(t & Hin & Ha) Hstrip]].
  split; [intros He; rewrite He in Hin; destruct Hin|].
  split; [apply (sound_nodup _ Hs)|].
  split; [exists t; split; [exact Hin|]; split;
            [exact Ha | apply (sound_doc _ Hs t Hin Ha)]|].
  split; [exact Hstrip|].
  rewrite Hstrip, Ha. apply one_active; [apply (sound_nodup _ Hs) | exact Hin].
Qed.

End EditorProps.

(** ** Tab handler: paths reach their panes *)

Module PathProps.
Import TabHandlerComponent TabProps TabHandlerPaths.

(** *** The ids of a shadow root do not collide *)

Lemma append_assoc (a b c : string) :
  ((a ++ b) ++ c)%string = (a ++ b ++ c)%string.
Proof. induction a as [|x a IH]; simpl; [reflexivity | rewrite IH; auto]. Qed.

Lemma append_cancel (a b c : string) :
  (a ++ b)%string = (a ++ c)%string -> b = c.
Proof.
  induction a as [|x a IH]; simpl; intros H; [exact H|].
  injection H as H. exact (IH H).
Qed.

(** When [p ++ h ++ x] and [h ++ z] are the same string, [z] starts with as
    many characters as [p] has, all of them characters of [p]. *)
Lemma shifted_prefix (h : string) :
  forall p x z : string,
    (p ++ h ++ x)%string = (h ++ z)%string ->
    exists w r : string,
      z = (w ++ r)%string
      /\ String.length w = String.length p
      /\ forall c, In c (list_ascii_of_string w) ->
                   In c (list_ascii_of_string p).
Proof.
  induction h as [|a h IH]; intros p x z H.
  - simpl in H. exists p, x. repeat split; auto.
  - destruct p as [|b p].
    + simpl in H. injection H as H. apply append_cancel in H.
      exists EmptyString, z. repeat split; auto.
    + simpl in H. injection H as Hb H. subst b.
      assert (H' : ((p ++ String a EmptyString) ++ h ++ x)%string
                   = (h ++ z)%string).
      { rewrite append_assoc. exact H. }
      destruct (IH _ _ _ H') as (w & r & Hz & Hl & Hin).
      exists w, r. split; [exact Hz|]. split.
      * rewrite Hl. clear. induction p as [|c p IHp]; simpl; auto.
      * intros c Hc. apply Hin in Hc. clear - Hc.
        induction p as [|d p IHp]; simpl in *.
        -- destruct Hc as [Hc|[]]. left. exact Hc.
        -- destruct Hc as [Hc|Hc]; [right; left; exact Hc|].
           destruct (IHp Hc) as [Hq|Hq]; [left; exact Hq | right; right; exact Hq].
Qed.

(** No button has the id of a nested handler. *)
Lemma button_is_no_handler (hid e leafId : string) :
  ("tab_" ++ hid ++ "_" ++ e)%string <> nested_id hid leafId.
Proof.
  unfold nested_id. intros H.
  destruct (shifted_prefix hid "tab_" ("_" ++ e) ("_nested_" ++ leafId) H)
    as (w & r & Hz & Hl & Hin).
  destruct w as [|c1 [|c2 [|c3 [|c4 [|c5 w]]]]]; try discriminate Hl.
  simpl in Hz. injection Hz as <- <- <- <- _.
  assert (Hs : In "s"%char (list_ascii_of_string "tab_")).
  { apply Hin. simpl. auto. }
  simpl in Hs. repeat (destruct Hs as [Hq|Hs]; [discriminate Hq|]).
  destruct Hs.
Qed.

(** No pane has the id of a nested handler. *)
Lemma pane_is_no_handler (hid e leafId : string) :
  ("tabcontent_" ++ hid ++ "_" ++ e)%string <> nested_id hid leafId.
Proof.
  unfold nested_id. intros H.
  destruct (shifted_prefix hid "tabcontent_" ("_" ++ e)
              ("_nested_" ++ leafId) H)
    as (w & r & Hz & Hl & Hin).
  destruct w as [|c1 [|c2 [|c3 [|c4 w]]]]; try discriminate Hl.
  simpl in Hz. injection Hz as <- <- <- <- _.
  assert (Hs : In "s"%char (list_ascii_of_string "tabcontent_")).
  { apply Hin. simpl. auto. }
  simpl in Hs. repeat (destruct Hs as [Hq|Hs]; [discriminate Hq|]).
  destruct Hs.
Qed.

(** *** Looking up nested handlers *)

(** The handlers appended to the panes, in document order. *)
Definition children (ps : list pane) : list handler :=
  flat_map p_children ps.

(** The first of them with the id [x]. *)
Definition find_child (x : string) (ps : list pane) : option handler :=
  find (fun c => String.eqb (h_id c) x) (children ps).

Lemma find_over_app {A : Type} (f : A -> bool) (l1 l2 : list A) :
  find f (l1 ++ l2)
  = match find f l1 with
    | Some x => Some x
    | None => find f l2
    end.
Proof.
  induction l1 as [|a l1 IH]; simpl; [reflexivity|].
  destruct (f a); [reflexivity | exact IH].
Qed.

(** For the id of a nested handler [getElementById] finds a nested handler
    or nothing. *)
Lemma getElementById_nested (h : handler) (leafId : string) :
  getElementById h (nested_id (h_id h) leafId)
  = option_map Nested (find_child (nested_id (h_id h) leafId) (h_panes h)).
Proof.
  destruct h as [hid path td panes]. unfold getElementById.
  cbn [h_id h_panes].
  assert (Hb : find (fun p => String.eqb (button_id hid p)
                                (nested_id hid leafId)) panes = None).
  { induction panes as [|p ps IH]; cbn [find]; [reflexivity|].
    destruct (String.eqb (button_id hid p) (nested_id hid leafId)) eqn:E;
      [|exact IH].
    apply String.eqb_eq in E. exfalso.
    exact (button_is_no_handler _ _ _ E). }
  rewrite Hb. clear Hb. unfold find_child, children.
  induction panes as [|p ps IH]; cbn [in_panes flat_map]; [reflexivity|].
  destruct (String.eqb (content_id hid p) (nested_id hid leafId)) eqn:E.
  - apply String.eqb_eq in E. exfalso. exact (pane_is_no_handler _ _ _ E).
  - rewrite find_over_app.
    destruct (find _ (p_children p)); [reflexivity | exact IH].
Qed.

Lemma getElementById_Nested_id (h : handler) (x : string) (c : handler) :
  getElementById h x = Some (Nested c) -> h_id c = x.
Proof.
  destruct h as [hid path td panes]. unfold getElementById.
  cbn [h_id h_panes]. destruct (find _ panes); [discriminate|].
  induction panes as [|p ps IH]; cbn [in_panes]; [discriminate|].
  destruct (String.eqb (content_id hid p) x); [discriminate|].
  destruct (find _ (p_children p)) as [c0|] eqn:Ef; [|exact IH].
  intros Hq. injection Hq as <-. apply find_some in Ef.
  apply String.eqb_eq. exact (proj2 Ef).
Qed.

Lemma find_put_child (x : string) (c' : handler) (cs : list handler) :
  h_id c' = x ->
  find (fun c => String.eqb (h_id c) x) cs <> None ->
  find (fun c => String.eqb (h_id c) x) (put_child x c' cs) = Some c'.
Proof.
  intros Hid. induction cs as [|c cs IH]; cbn [find put_child]; [tauto|].
  destruct (String.eqb (h_id c) x) eqn:E; cbn [find].
  - intros _. rewrite Hid, String.eqb_refl. reflexivity.
  - rewrite E. exact IH.
Qed.

Lemma existsb_find {A : Type} (f : A -> bool) (l : list A) :
  existsb f l = match find f l with Some _ => true | None => false end.
Proof.
  induction l as [|a l IH]; simpl; [reflexivity|].
  destruct (f a); [reflexivity | exact IH].
Qed.

(** The handler put back is the one found from then on. *)
Lemma getElementById_put (h : handler) (x : string) (c c' : handler) :
  getElementById h x = Some (Nested c) -> h_id c' = x ->
  getElementById
    (Handler (h_id h) (h_path h) (h_tabData h)
       (put_nested x c' (h_panes h))) x
  = Some (Nested c').
Proof.
  destruct h as [hid path td panes]. unfold getElementById.
  cbn [h_id h_panes h_path h_tabData]. intros Hg Hid.
  assert (Hb : forall ps,
            find (fun p => String.eqb (button_id hid p) x)
              (put_nested x c' ps)
            = None
            <-> find (fun p => String.eqb (button_id hid p) x) ps = None).
  { induction ps as [|[e a d u s cs] ps IH]; cbn [put_nested find];
      [tauto|].
    destruct (existsb _ cs); cbn [find]; unfold button_id at 1 3;
      cbn [p_entry];
      destruct (String.eqb ("tab_" ++ hid ++ "_" ++ e) x);
      first [exact IH | tauto | split; discriminate]. }
  destruct (find _ panes) eqn:Ef; [discriminate|].
  apply Hb in Ef. rewrite Ef. clear Hb Ef.
  induction panes as [|[e a d u s cs] ps IH];
    cbn [in_panes put_nested p_children] in *; [discriminate|].
  unfold content_id in Hg at 1. cbn [p_entry] in Hg.
  destruct (String.eqb ("tabcontent_" ++ hid ++ "_" ++ e) x) eqn:Ec;
    [discriminate|].
  rewrite existsb_find.
  destruct (find (fun c0 => String.eqb (h_id c0) x) cs) as [c0|] eqn:Ef.
  - cbn [in_panes p_children]. unfold content_id at 1. cbn [p_entry].
    rewrite Ec.
    rewrite (find_put_child x c' cs Hid); [reflexivity|].
    rewrite Ef. discriminate.
  - cbn [in_panes p_children]. unfold content_id at 1. cbn [p_entry].
    rewrite Ec, Ef. exact (IH Hg).
Qed.

(** *** The pane a path leads to *)

(** The pane that [setTabContent(path, tabID, _)] fills, found as the call
    finds it. *)
Fixpoint target (path : list string) (tabID : string) (h : handler)
  {struct path} : option pane :=
  match path with
  | [] => None
  | first :: rest =>
      if negb (String.eqb first (h_id h)) then None
      else
        match rest with
        | second :: _ =>
            match getElementById h second with
            | Some (Nested nested) => target rest tabID nested
            | _ => None
            end
        | [] => find_pane tabID (h_panes h)
        end
  end.

(** A pane after content went into it. *)
Definition filled (p : pane) : pane :=
  Pane (p_entry p) (p_active p) (p_display p) false (p_spec p) [].

Lemma find_pane_filled (id : string) (ps : list pane) (p : pane) :
  find_pane id ps = Some p ->
  find_pane id (clear_unrendered id ps) = Some (filled p).
Proof.
  unfold find_pane.
  induction ps as [|[e a d u s c] ps IH]; simpl; [discriminate|].
  destruct (String.eqb e id) eqn:E; simpl; rewrite E.
  - intros Hq. injection Hq as <-. reflexivity.
  - exact IH.
Qed.

Lemma setTabContentPath_sig (path : list string) (tabID : string) :
  forall h, sig (fst (setTabContentPath path tabID h)) = sig h.
Proof.
  induction path as [|first rest IH]; intros h; [reflexivity|].
  cbn [setTabContentPath].
  destruct (negb (String.eqb first (h_id h))); [reflexivity|].
  destruct rest as [|second rest'].
  - destruct (existsb _ (h_panes h)); [|reflexivity].
    destruct h; reflexivity.
  - destruct (getElementById h second) as [[p|p|nested]|]; try reflexivity.
    destruct (setTabContentPath (second :: rest') tabID nested).
    destruct h; reflexivity.
Qed.

(** Filling the pane a path leads to returns, and the path leads to the
    filled pane afterwards. *)
Lemma fill_target (path : list string) (tabID : string) :
  forall (h : handler) (p : pane),
    target path tabID h = Some p ->
    exists h2,
      setTabContentPath path tabID h = (h2, Ok tt)
      /\ target path tabID h2 = Some (filled p).
Proof.
  induction path as [|first rest IH]; intros h p Ht; [discriminate|].
  cbn [target] in Ht. cbn [setTabContentPath].
  destruct (negb (String.eqb first (h_id h))) eqn:E1; [discriminate|].
  destruct rest as [|second rest'].
  - unfold find_pane in Ht. rewrite existsb_find, Ht.
    eexists. split; [reflexivity|].
    destruct h as [hid pth td panes]. cbn [setTabContent target h_id] in *.
    rewrite E1. cbn [h_panes]. apply find_pane_filled. exact Ht.
  - destruct (getElementById h second) as [[p0|p0|nested]|] eqn:Eg;
      try discriminate.
    destruct (IH nested p Ht) as (n2 & Hs & Ht2).
    rewrite Hs. eexists. split; [reflexivity|].
    cbn [target h_id]. rewrite E1.
    assert (Hid : h_id n2 = second).
    { pose proof (setTabContentPath_sig (second :: rest') tabID nested) as Hsig.
      rewrite Hs in Hsig. unfold sig in Hsig. simpl in Hsig.
      injection Hsig as Hi _ _. rewrite Hi.
      exact (getElementById_Nested_id _ _ _ Eg). }
    pose proof (getElementById_put h second nested n2 Eg Hid) as Hp.
    rewrite Hp. exact Ht2.
Qed.

Lemma target_leaf (first tabID : string) (h : handler) :
  target [first] tabID h
  = if negb (String.eqb first (h_id h)) then None
    else find_pane tabID (h_panes h).
Proof. reflexivity. Qed.

Lemma target_step (first second : string) (rest : list string)
  (tabID : string) (h : handler) :
  target (first :: second :: rest) tabID h
  = if negb (String.eqb first (h_id h)) then None
    else match getElementById h second with
         | Some (Nested nested) => target (second :: rest) tabID nested
         | _ => None
         end.
Proof. reflexivity. Qed.

(** *** Handlers as rendering links them *)

(** The handlers nested in the panes of a handler have ids of their own,
    made from the id of the handler, and the path of each is the path of
    the handler with that id after it; and so all the way down. *)
Inductive linked : handler -> Prop :=
  | Linked (hid : string) (pth : list string) (td : list tabSpec)
           (panes : list pane) :
      NoDup (map h_id (children panes)) ->
      (forall c, In c (children panes) ->
         (exists leafId, h_id c = nested_id hid leafId)
         /\ h_path c = Some (pth ++ [h_id c])
         /\ linked c) ->
      linked (Handler hid (Some pth) td panes).

Lemma sig_child_ids (ps1 ps2 : list pane) :
  map pane_sig ps1 = map pane_sig ps2 ->
  map sig (children ps1) = map sig (children ps2).
Proof.
  revert ps2. induction ps1 as [|p1 ps1 IH]; intros [|p2 ps2] Hm;
    try discriminate; [reflexivity|].
  cbn [map] in Hm. injection Hm as _ _ Hc Hm.
  unfold children in *. cbn [flat_map]. rewrite !map_app, Hc, (IH _ Hm).
  reflexivity.
Qed.

Lemma sig_ids (l1 l2 : list handler) :
  map sig l1 = map sig l2 -> map h_id l1 = map h_id l2.
Proof.
  intros Hm. apply (f_equal (map (fun x : string * option (list string)
                                            * list tabSpec =>
                                    fst (fst x)))) in Hm.
  rewrite !map_map in Hm. exact Hm.
Qed.

Lemma select_child_sigs (path : option (list string)) (id : string)
  (ps : list pane) :
  map sig (children (fst (fst (select openTab path id ps))))
  = map sig (children ps).
Proof. apply sig_child_ids. apply select_pane_sig. Qed.

(** *** The detail of an event leads to the pane that sent it *)

(** The path of the event is the path of the handler with some ids after
    it, and these ids lead from the handler to a pane that is shown and
    holds the specification of the event. *)
Definition reaches (pre : list string) (h : handler) (e : event) : Prop :=
  exists suffix p,
    ev_path e = pre ++ h_id h :: suffix
    /\ target (h_id h :: suffix) (ev_tabID e) h = Some p
    /\ p_spec p = ev_tabSpec e
    /\ p_display p = "block"
    /\ p_unrendered p = false.

Lemma select_reaches (pth : list string) (id : string) (ps : list pane) :
  (forall c, In c (children ps) ->
     forall id0 c' evs r e,
       openTab c id0 = (c', evs, r) -> In e evs -> reaches pth c' e) ->
  NoDup (map h_id (children ps)) ->
  forall ps' evs r e,
    select openTab (Some pth) id ps = (ps', evs, r) -> In e evs ->
    (ev_path e = pth /\ ev_tabID e = id
     /\ exists p, find_pane id ps' = Some p
                  /\ p_spec p = ev_tabSpec e
                  /\ p_display p = "block"
                  /\ p_unrendered p = false)
    \/ (exists c', find_child (h_id c') ps' = Some c' /\ reaches pth c' e).
Proof.
  induction ps as [|[e0 a d u s c] ps IH]; intros Hch Hnd ps' evs r e Hs Hin.
  - cbn [select] in Hs. injection Hs as _ <- _. destruct Hin.
  - cbn [select] in Hs. destruct (String.eqb e0 id) eqn:E.
    + destruct c as [|nested c'].
      * unfold populate in Hs. destruct u; cbn [negb] in Hs.
        -- injection Hs as <- <- _. destruct Hin as [<-|[]].
           left. cbn [ev_path ev_tabID ev_tabSpec].
           split; [reflexivity|]. split; [reflexivity|].
           eexists. unfold find_pane. cbn [find p_entry]. rewrite E.
           split; [reflexivity|]. repeat split.
        -- injection Hs as _ <- _. destruct Hin.
      * destruct (h_tabData nested) as [|firstSpec rest].
        -- injection Hs as _ <- _. destruct Hin.
        -- destruct (openTab nested (leaf_id firstSpec))
             as [[nested' evs0] r0] eqn:Eo.
           injection Hs as <- <- _.
           right. exists nested'. split.
           ++ unfold find_child, children. cbn [flat_map p_children app find].
              rewrite String.eqb_refl. reflexivity.
           ++ apply (Hch nested) with (id0 := leaf_id firstSpec) (evs := evs0)
                (r := r0); [|exact Eo | exact Hin].
              unfold children. cbn [flat_map p_children]. left. reflexivity.
    + pose proof (select_child_sigs (Some pth) id ps) as Hsig.
      destruct (select openTab (Some pth) id ps) as [[ps'' evs0] r0] eqn:Es.
      injection Hs as <- <- <-. cbn [fst] in Hsig. apply sig_ids in Hsig.
      unfold children in Hnd. cbn [flat_map p_children] in Hnd.
      rewrite map_app in Hnd.
      destruct (IH (fun c0 Hc0 => Hch c0 (in_or_app _ _ _ (or_intror Hc0)))
                  (NoDup_app_remove_l _ _ Hnd) ps'' evs0 r0 e eq_refl Hin)
        as [(Hp & Ht & p & Hf & Hrest)|(c' & Hf & Hr)].
      * left. split; [exact Hp|]. split; [exact Ht|]. exists p.
        split; [|exact Hrest]. unfold find_pane in *. cbn [find hide p_entry].
        rewrite E. exact Hf.
      * right. exists c'. split; [|exact Hr].
        unfold find_child, children in *. cbn [flat_map hide p_children].
        rewrite find_over_app.
        destruct (find (fun c0 => String.eqb (h_id c0) (h_id c')) c)
          as [c0|] eqn:Ec; [|exact Hf].
        exfalso. apply find_some in Ec. destruct Ec as [Hin0 Heq].
        apply String.eqb_eq in Heq. apply find_some in Hf.
        destruct Hf as [Hin1 _].
        assert (H1 : In (h_id c') (map h_id c))
          by (rewrite <- Heq; apply in_map; exact Hin0).
        assert (H2 : In (h_id c') (map h_id (flat_map p_children ps)))
          by (unfold children in Hsig; rewrite <- Hsig; apply in_map;
              exact Hin1).
        clear - Hnd H1 H2.
        induction (map h_id c) as [|x l IHl]; [destruct H1|].
        cbn [app] in Hnd. inversion Hnd as [|? ? Hnot Hnd']; subst.
        destruct H1 as [->|H1]; [|exact (IHl Hnd' H1)].
        apply Hnot. apply in_or_app. right. exact H2.
Qed.

Lemma openTab_reaches (h : handler) :
  linked h ->
  forall pre, h_path h = Some (pre ++ [h_id h]) ->
  forall id h' evs r e,
    openTab h id = (h', evs, r) -> In e evs -> reaches pre h' e.
Proof.
  induction h as [hid path td panes IH] using handler_nested_ind.
  intros Hl pre Hp id h' evs r e Ho Hin.
  inversion Hl as [hid0 pth td0 panes0 Hnd Hch]. subst.
  cbn [h_path h_id] in Hp. injection Hp as ->.
  cbn [openTab] in Ho.
  pose proof (select_child_sigs (Some (pre ++ [hid])) id panes) as Hsig.
  destruct (select openTab (Some (pre ++ [hid])) id panes)
    as [[ps' evs0] r0] eqn:Es.
  injection Ho as <- <- <-. cbn [fst] in Hsig. apply sig_ids in Hsig.
  destruct (select_reaches (pre ++ [hid]) id panes) with (ps' := ps')
    (evs := evs0) (r := r0) (e := e)
    as [(Hpath & Htab & p & Hf & Hrest)|(c' & Hf & suffix & p & Hpath & Ht & Hrest)];
    try assumption.
  { intros c Hc. apply in_flat_map in Hc. destruct Hc as (p & Hp & Hc).
    destruct (Hch c) as (_ & Hcp & Hcl).
    { apply in_flat_map. exists p. split; assumption. }
    intros id0 c' evs r e0. apply (IH p c Hp Hc Hcl). exact Hcp. }
  - exists [], p. cbn [h_id]. split; [exact Hpath|].
    split; [|exact Hrest].
    rewrite target_leaf. cbn [h_id h_panes]. rewrite String.eqb_refl.
    cbn [negb]. rewrite Htab. exact Hf.
  - exists (h_id c' :: suffix), p. cbn [h_id].
    split; [rewrite Hpath, <- app_assoc; reflexivity|].
    split; [|exact Hrest].
    rewrite target_step. cbn [h_id]. rewrite String.eqb_refl. cbn [negb].
    assert (Hshape : exists leafId, h_id c' = nested_id hid leafId).
    { pose proof (find_some _ _ Hf) as [Hin' _].
      apply (in_map h_id) in Hin'. rewrite Hsig in Hin'.
      apply in_map_iff in Hin'. destruct Hin' as (c0 & Hq & Hin0).
      destruct (Hch c0 Hin0) as ((leafId & Hs) & _).
      exists leafId. congruence. }
    destruct Hshape as (leafId & Hs).
    pose proof (getElementById_nested
                  (Handler hid (Some (pre ++ [hid])) td ps') leafId) as Hg.
    cbn [h_id h_panes] in Hg. rewrite <- Hs, Hf in Hg. rewrite Hg.
    exact Ht.
Qed.

(** *** The links stay *)

Lemma NoDup_app_inv {A : Type} (l1 l2 : list A) :
  NoDup (l1 ++ l2) ->
  NoDup l1 /\ NoDup l2 /\ forall a, In a l1 -> ~ In a l2.
Proof.
  induction l1 as [|x l1 IH]; cbn [app]; intros Hnd.
  - split; [constructor|]. split; [exact Hnd|]. intros a [].
  - inversion Hnd as [|? ? Hnot Hnd']; subst.
    destruct (IH Hnd') as (H1 & H2 & H3).
    split; [constructor; [|exact H1]|].
    + intros Hin. apply Hnot. apply in_or_app. left. exact Hin.
    + split; [exact H2|]. intros a [->|Hin]; [|exact (H3 a Hin)].
      intros Hin. apply Hnot. apply in_or_app. right. exact Hin.
Qed.

Lemma children_hide (ps : list pane) : children (map hide ps) = children ps.
Proof.
  unfold children. induction ps as [|[e a d u s c] ps IH]; [reflexivity|].
  cbn [map flat_map hide p_children]. rewrite IH. reflexivity.
Qed.

(** A handler in a pane after [openTab] was there before, or is one that
    was there before with a tab opened. *)
Lemma select_children (path : option (list string)) (id : string)
  (ps : list pane) (c' : handler) :
  In c' (children (fst (fst (select openTab path id ps)))) ->
  In c' (children ps)
  \/ exists c id0, In c (children ps) /\ c' = fst (fst (openTab c id0)).
Proof.
  induction ps as [|[e a d u s c] ps IH]; cbn [select]; [intros []|].
  destruct (String.eqb e id).
  - destruct c as [|nested c0].
    + destruct (populate path id (Pane e true "block" u s []))
        as [[p' evs] r] eqn:Ep.
      unfold populate in Ep.
      assert (Hc : p_children p' = []).
      { destruct u; cbn [negb] in Ep; [destruct path|];
          injection Ep as <- _ _; reflexivity. }
      cbn [fst]. unfold children. cbn [flat_map]. rewrite Hc. cbn [app].
      fold (children (map hide ps)). rewrite children_hide.
      intros Hin. left. exact Hin.
    + destruct (h_tabData nested) as [|firstSpec rest].
      * cbn [fst]. unfold children. cbn [flat_map p_children].
        fold (children (map hide ps)). rewrite children_hide.
        intros Hin. left. exact Hin.
      * destruct (openTab nested (leaf_id firstSpec))
          as [[nested' evs] r] eqn:Eo.
        cbn [fst]. unfold children. cbn [flat_map p_children app].
        fold (children (map hide ps)). rewrite children_hide.
        intros [<-|Hin].
        -- right. exists nested, (leaf_id firstSpec). rewrite Eo.
           split; [left|]; reflexivity.
        -- left. right. exact Hin.
  - destruct (select openTab path id ps) as [[ps' evs] r].
    cbn [fst] in *. unfold children in *. cbn [flat_map hide p_children].
    intros Hin. apply in_app_or in Hin.
    destruct Hin as [Hin|Hin].
    + left. apply in_or_app. left. exact Hin.
    + destruct (IH Hin) as [H1|(c1 & id0 & H1 & H2)].
      * left. apply in_or_app. right. exact H1.
      * right. exists c1, id0. split; [|exact H2].
        apply in_or_app. right. exact H1.
Qed.

Lemma openTab_linked (h : handler) (id : string) :
  linked h -> linked (fst (fst (openTab h id))).
Proof.
  revert id. induction h as [hid path td panes IH] using handler_nested_ind.
  intros id Hl. inversion Hl as [hid0 pth td0 panes0 Hnd Hch]. subst.
  cbn [openTab].
  pose proof (select_child_sigs (Some pth) id panes) as Hsig.
  pose proof (select_children (Some pth) id panes) as Hsel.
  destruct (select openTab (Some pth) id panes) as [[ps' evs] r].
  cbn [fst] in *. constructor.
  - rewrite (sig_ids _ _ Hsig). exact Hnd.
  - intros c' Hin. destruct (Hsel c' Hin) as [H1|(c & id0 & H1 & ->)].
    + exact (Hch c' H1).
    + destruct (Hch c H1) as (Hs & Hp & Hlc).
      pose proof (openTab_sig c id0) as Hq. unfold sig in Hq.
      injection Hq as Hi Hp' _. rewrite Hi, Hp'.
      split; [exact Hs|]. split; [exact Hp|].
      apply in_flat_map in H1. destruct H1 as (p & Hpin & Hcin).
      exact (IH p c Hpin Hcin id0 Hlc).
Qed.

Lemma getElementById_Nested_in (h : handler) (x : string) (c : handler) :
  getElementById h x = Some (Nested c) -> In c (children (h_panes h)).
Proof.
  destruct h as [hid path td panes]. unfold getElementById.
  cbn [h_id h_panes]. destruct (find _ panes); [discriminate|].
  unfold children.
  induction panes as [|p ps IH]; cbn [in_panes flat_map]; [discriminate|].
  destruct (String.eqb (content_id hid p) x); [discriminate|].
  destruct (find _ (p_children p)) as [c0|] eqn:Ef.
  - intros Hq. injection Hq as <-. apply find_some in Ef.
    apply in_or_app. left. exact (proj1 Ef).
  - intros Hg. apply in_or_app. right. exact (IH Hg).
Qed.

Lemma put_child_In (x : string) (c' c0 : handler) (cs : list handler) :
  In c0 (put_child x c' cs) -> c0 = c' \/ In c0 cs.
Proof.
  induction cs as [|c cs IH]; cbn [put_child]; [intros []|].
  destruct (String.eqb (h_id c) x).
  - intros [<-|Hin]; [left; reflexivity | right; right; exact Hin].
  - intros [<-|Hin]; [right; left; reflexivity|].
    destruct (IH Hin) as [H1|H1]; [left; exact H1 | right; right; exact H1].
Qed.

Lemma put_child_ids (x : string) (c' : handler) (cs : list handler) :
  h_id c' = x -> map h_id (put_child x c' cs) = map h_id cs.
Proof.
  intros Hid. induction cs as [|c cs IH]; cbn [put_child]; [reflexivity|].
  destruct (String.eqb (h_id c) x) eqn:E; cbn [map].
  - apply String.eqb_eq in E. rewrite Hid, E. reflexivity.
  - rewrite IH. reflexivity.
Qed.

Lemma put_nested_In (x : string) (c' c0 : handler) (ps : list pane) :
  In c0 (children (put_nested x c' ps)) -> c0 = c' \/ In c0 (children ps).
Proof.
  unfold children.
  induction ps as [|[e a d u s cs] ps IH]; cbn [put_nested]; [intros []|].
  destruct (existsb _ cs); cbn [flat_map p_children]; intros Hin;
    apply in_app_or in Hin; destruct Hin as [Hin|Hin].
  - destruct (put_child_In _ _ _ _ Hin) as [H1|H1]; [left; exact H1|].
    right. apply in_or_app. left. exact H1.
  - right. apply in_or_app. right. exact Hin.
  - right. apply in_or_app. left. exact Hin.
  - destruct (IH Hin) as [H1|H1]; [left; exact H1|].
    right. apply in_or_app. right. exact H1.
Qed.

Lemma put_nested_ids (x : string) (c' : handler) (ps : list pane) :
  h_id c' = x ->
  map h_id (children (put_nested x c' ps)) = map h_id (children ps).
Proof.
  intros Hid. unfold children.
  induction ps as [|[e a d u s cs] ps IH]; cbn [put_nested]; [reflexivity|].
  destruct (existsb _ cs); cbn [flat_map p_children]; rewrite !map_app.
  - rewrite (put_child_ids x c' cs Hid). reflexivity.
  - rewrite IH. reflexivity.
Qed.

Lemma clear_unrendered_In (id : string) (c0 : handler) (ps : list pane) :
  In c0 (children (clear_unrendered id ps)) -> In c0 (children ps).
Proof.
  unfold children.
  induction ps as [|[e a d u s cs] ps IH]; cbn [clear_unrendered];
    [intros []|].
  destruct (String.eqb e id); cbn [flat_map p_children app]; intros Hin.
  - apply in_or_app. right. exact Hin.
  - apply in_app_or in Hin. apply in_or_app.
    destruct Hin as [Hin|Hin]; [left; exact Hin | right; exact (IH Hin)].
Qed.

Lemma clear_unrendered_NoDup (id : string) (ps : list pane) :
  NoDup (map h_id (children ps)) ->
  NoDup (map h_id (children (clear_unrendered id ps))).
Proof.
  unfold children.
  induction ps as [|[e a d u s cs] ps IH]; cbn [clear_unrendered];
    [intros H; exact H|].
  destruct (String.eqb e id); cbn [flat_map p_children app];
    rewrite ?map_app; intros Hnd.
  - exact (NoDup_app_remove_l _ _ Hnd).
  - destruct (NoDup_app_inv _ _ Hnd) as (H1 & H2 & H3).
    apply NoDup_app; [exact H1 | exact (IH H2) |].
    intros x Hx Hin. apply (H3 x Hx).
    apply in_map_iff in Hin. destruct Hin as (c0 & <- & Hin).
    apply in_map. exact (clear_unrendered_In id c0 ps Hin).
Qed.

Lemma setTabContentPath_linked (path : list string) (tabID : string) :
  forall h, linked h -> linked (fst (setTabContentPath path tabID h)).
Proof.
  induction path as [|first rest IH]; intros h Hl; [exact Hl|].
  cbn [setTabContentPath].
  destruct (negb (String.eqb first (h_id h))); [exact Hl|].
  destruct rest as [|second rest'].
  - destruct (existsb _ (h_panes h)); [|exact Hl].
    inversion Hl as [hid pth td panes Hnd Hch]. subst.
    cbn [setTabContent fst]. constructor.
    + apply clear_unrendered_NoDup. exact Hnd.
    + intros c Hin. apply Hch. exact (clear_unrendered_In _ _ _ Hin).
  - destruct (getElementById h second) as [[p|p|nested]|] eqn:Eg;
      try exact Hl.
    pose proof (setTabContentPath_sig (second :: rest') tabID nested) as Hsig.
    specialize (IH nested).
    destruct (setTabContentPath (second :: rest') tabID nested)
      as [nested' r].
    cbn [fst] in *.
    pose proof (getElementById_Nested_id _ _ _ Eg) as Hid.
    pose proof (getElementById_Nested_in _ _ _ Eg) as Hin.
    inversion Hl as [hid pth td panes Hnd Hch]. subst h.
    cbn [h_id h_path h_tabData h_panes] in *.
    unfold sig in Hsig. injection Hsig as Hi Hp _.
    destruct (Hch nested Hin) as (Hs & Hpath & Hln).
    constructor.
    + rewrite put_nested_ids; [exact Hnd | congruence].
    + intros c Hc. destruct (put_nested_In _ _ _ _ Hc) as [->|Hc'].
      * rewrite Hi, Hp. split; [exact Hs|]. split; [exact Hpath|].
        exact (IH Hln).
      * exact (Hch c Hc').
Qed.

(** *** Rendering links the handlers *)

Fixpoint nodupb (l : list string) : bool :=
  match l with
  | [] => true
  | x :: l' => negb (existsb (String.eqb x) l') && nodupb l'
  end.

(** The entries of every level under a specification have ids of their
    own. *)
Fixpoint distinct (t : tabSpec) : bool :=
  match t with
  | TabSpec _ _ (Some l) => nodupb (map entry_of l) && forallb distinct l
  | TabSpec _ _ None => true
  end.

(** Tab data whose explicit ids are CSS-safe and whose entries have, on
    every level, ids of their own. *)
Definition well_formed (tabData : list tabSpec) : bool :=
  forallb safe tabData && nodupb (map entry_of tabData)
  && forallb distinct tabData.

Lemma nodupb_NoDup (l : list string) : nodupb l = true -> NoDup l.
Proof.
  induction l as [|x l IH]; cbn [nodupb]; intros H; [constructor|].
  apply andb_prop in H. destruct H as [Hx Hl].
  constructor; [|exact (IH Hl)].
  intros Hin. apply negb_true_iff in Hx.
  assert (He : existsb (String.eqb x) l = true).
  { apply existsb_exists. exists x. split; [exact Hin|].
    apply String.eqb_refl. }
  congruence.
Qed.

Lemma well_formed_tabs (t : tabSpec) :
  safe t = true -> distinct t = true ->
  well_formed (child_tabs t) = true.
Proof.
  destruct t as [id title [l|]]; unfold well_formed, child_tabs;
    cbn [spec_tabs safe distinct]; intros Hs Hd; [|reflexivity].
  apply andb_prop in Hs. destruct Hs as [_ Hs].
  apply andb_prop in Hd. destruct Hd as [Hn Hd].
  fold safe in Hs. fold distinct in Hd. rewrite Hs, Hn, Hd. reflexivity.
Qed.

Lemma well_formed_In (td : list tabSpec) (t : tabSpec) :
  well_formed td = true -> In t td -> safe t = true /\ distinct t = true.
Proof.
  unfold well_formed. intros H Hin.
  apply andb_prop in H. destruct H as [H Hd].
  apply andb_prop in H. destruct H as [Hs _].
  rewrite forallb_forall in Hs, Hd. split; auto.
Qed.

(** The nested handlers of a level get ids of their own. *)
Lemma leaf_ids_NoDup (td : list tabSpec) :
  well_formed td = true -> NoDup (map leaf_id (filter has_tabs td)).
Proof.
  unfold well_formed. intros H.
  apply andb_prop in H. destruct H as [H _].
  apply andb_prop in H. destruct H as [Hs Hn].
  apply nodupb_NoDup in Hn.
  induction td as [|t td IH]; cbn [filter]; [constructor|].
  cbn [forallb] in Hs. apply andb_prop in Hs. destruct Hs as [Ht Hs].
  cbn [map] in Hn. inversion Hn as [|? ? Hnot Hn']; subst.
  destruct (has_tabs t); [|exact (IH Hs Hn')].
  cbn [map]. constructor; [|exact (IH Hs Hn')].
  intros Hin. apply Hnot. apply in_map_iff in Hin.
  destruct Hin as (t' & Hq & Hin). apply filter_In in Hin.
  destruct Hin as [Hin _].
  rewrite forallb_forall in Hs.
  rewrite (safe_leaf_entry t Ht) in Hq.
  rewrite (safe_leaf_entry t' (Hs t' Hin)) in Hq.
  rewrite <- Hq. apply in_map. exact Hin.
Qed.

Lemma nested_id_inj (hid a b : string) :
  nested_id hid a = nested_id hid b -> a = b.
Proof.
  unfold nested_id. intros H. apply append_cancel in H.
  exact (append_cancel "_nested_" a b H).
Qed.

Lemma append_child_In (e : string) (nested c0 : handler) (ps : list pane) :
  In c0 (children (append_child e nested ps)) ->
  c0 = nested \/ In c0 (children ps).
Proof.
  unfold children.
  induction ps as [|[e' a d u s c] ps IH]; cbn [append_child]; [intros []|].
  destruct (String.eqb e' e); cbn [flat_map p_children]; intros Hin;
    apply in_app_or in Hin; destruct Hin as [Hin|Hin].
  - apply in_app_or in Hin. destruct Hin as [Hin|[<-|[]]].
    + right. apply in_or_app. left. exact Hin.
    + left. reflexivity.
  - right. apply in_or_app. right. exact Hin.
  - right. apply in_or_app. left. exact Hin.
  - destruct (IH Hin) as [H1|H1]; [left; exact H1|].
    right. apply in_or_app. right. exact H1.
Qed.

Lemma append_child_NoDup (e : string) (nested : handler) (ps : list pane) :
  NoDup (map h_id (children ps)) ->
  ~ In (h_id nested) (map h_id (children ps)) ->
  NoDup (map h_id (children (append_child e nested ps))).
Proof.
  unfold children.
  induction ps as [|[e' a d u s c] ps IH]; cbn [append_child];
    [intros H _; exact H|].
  destruct (String.eqb e' e); cbn [flat_map p_children];
    rewrite !map_app; intros Hnd Hnot.
  - cbn [map]. rewrite <- app_assoc. cbn [app].
    destruct (NoDup_app_inv _ _ Hnd) as (H1 & H2 & H3).
    apply NoDup_app; [exact H1 | |].
    + constructor; [|exact H2].
      intros Hin. apply Hnot. apply in_or_app. right. exact Hin.
    + intros x Hx [<-|Hin]; [|exact (H3 x Hx Hin)].
      apply Hnot. apply in_or_app. left. exact Hx.
  - destruct (NoDup_app_inv _ _ Hnd) as (H1 & H2 & H3).
    apply NoDup_app; [exact H1 | |].
    + apply IH; [exact H2|]. intros Hin. apply Hnot.
      apply in_or_app. right. exact Hin.
    + intros x Hx Hin. apply in_map_iff in Hin.
      destruct Hin as (c0 & <- & Hin).
      destruct (append_child_In e nested c0 ps Hin) as [->|Hin'].
      * apply Hnot. apply in_or_app. left. exact Hx.
      * apply (H3 _ Hx). apply in_map. exact Hin'.
Qed.

(** What the handlers in the panes of a handler with this id and path have
    to be like. *)
Definition children_linked (hid : string) (pth : list string)
  (ps : list pane) : Prop :=
  NoDup (map h_id (children ps))
  /\ forall c, In c (children ps) ->
       (exists leafId, h_id c = nested_id hid leafId)
       /\ h_path c = Some (pth ++ [h_id c])
       /\ linked c.

Definition creates_linked (t : tabSpec) : Prop :=
  forall pid acc nested evs r,
    createNestedHandlers pid acc t = Some (nested, evs, r) -> linked nested.

Lemma nest_linked (hid : string) (pth : list string)
  (specs : list tabSpec) :
  (forall t, In t specs -> creates_linked t) ->
  NoDup (map leaf_id (filter has_tabs specs)) ->
  forall panes,
    children_linked hid pth panes ->
    (forall t, In t specs -> has_tabs t = true ->
       ~ In (nested_id hid (leaf_id t)) (map h_id (children panes))) ->
    children_linked hid pth
      (fst (fst (nest createNestedHandlers hid (Some pth) specs panes))).
Proof.
  induction specs as [|spec specs IH]; intros Hc Hnd panes Hl Hnew;
    [exact Hl|].
  assert (IH' : forall panes0,
            has_tabs spec = false ->
            children_linked hid pth panes0 ->
            (forall t, In t (spec :: specs) -> has_tabs t = true ->
               ~ In (nested_id hid (leaf_id t))
                    (map h_id (children panes0))) ->
            children_linked hid pth
              (fst (fst (nest createNestedHandlers hid (Some pth) specs
                           panes0)))).
  { intros panes0 Ht Hl0 Hnew0. apply IH.
    - intros t Hin. apply Hc. right. exact Hin.
    - cbn [filter] in Hnd. rewrite Ht in Hnd. exact Hnd.
    - exact Hl0.
    - intros t Hin. apply Hnew0. right. exact Hin. }
  cbn [nest].
  destruct (spec_tabs spec) as [[|t0 l]|] eqn:Et;
    try (apply IH'; [unfold has_tabs; rewrite Et; reflexivity
                    | exact Hl | exact Hnew]).
  assert (Ht : has_tabs spec = true)
    by (unfold has_tabs; rewrite Et; reflexivity).
  destruct (createNestedHandlers hid pth spec) as [[[nested evs] r]|] eqn:Ec;
    [|rewrite (createNestedHandlers_some _ _ _ Ht) in Ec; discriminate].
  pose proof (createNestedHandlers_sig _ _ _ _ _ _ Ht Ec) as Hsig.
  unfold sig, expected_sig in Hsig. injection Hsig as Hi Hp _.
  fold (nested_id hid (leaf_id spec)) in Hi, Hp.
  destruct r as [[]|err]; [|exact Hl].
  pose proof (IH (fun t Hin => Hc t (or_intror Hin))) as IH2.
  cbn [filter] in Hnd. rewrite Ht in Hnd. cbn [map] in Hnd.
  inversion Hnd as [|? ? Hfresh Hnd']; subst.
  specialize (IH2 Hnd'
                (append_child (cssSafe (entry_id spec)) nested panes)).
  destruct (nest createNestedHandlers hid (Some pth) specs
              (append_child (cssSafe (entry_id spec)) nested panes))
    as [[panes' evs'] r'].
  cbn [fst] in *. apply IH2.
  - destruct Hl as [Hl1 Hl2]. split.
    + apply append_child_NoDup; [exact Hl1|]. rewrite Hi.
      apply (Hnew spec); [left; reflexivity | exact Ht].
    + intros c Hin. destruct (append_child_In _ _ _ _ Hin) as [->|Hin'].
      * split; [exists (leaf_id spec); exact Hi|].
        split; [rewrite Hp, Hi; reflexivity|].
        exact (Hc spec (or_introl eq_refl) _ _ _ _ _ Ec).
      * exact (Hl2 c Hin').
  - intros t Hin Htt Hin2. apply in_map_iff in Hin2.
    destruct Hin2 as (c0 & Hq & Hin2).
    destruct (append_child_In _ _ _ _ Hin2) as [->|Hin'].
    + rewrite Hi in Hq. apply nested_id_inj in Hq.
      apply Hfresh. rewrite Hq. apply in_map. apply filter_In.
      split; assumption.
    + apply (Hnew t (or_intror Hin) Htt). rewrite <- Hq. apply in_map.
      exact Hin'.
Qed.

Lemma children_new_pane (td : list tabSpec) : children (map new_pane td) = [].
Proof.
  unfold children. induction td as [|t td IH]; [reflexivity|].
  cbn [map flat_map new_pane p_children app]. exact IH.
Qed.

Lemma renderTabs_linked (hid : string) (pth : list string)
  (td : list tabSpec) :
  (forall t, In t td -> creates_linked t) ->
  NoDup (map leaf_id (filter has_tabs td)) ->
  linked (fst (fst (renderTabs hid (Some pth) td))).
Proof.
  intros Hc Hnd. unfold renderTabs, renderTabs_with.
  pose proof (nest_linked hid pth td Hc Hnd (map new_pane td)) as Hn.
  rewrite children_new_pane in Hn. unfold children_linked at 1 in Hn.
  rewrite children_new_pane in Hn.
  assert (Hl : children_linked hid pth
                 (fst (fst (nest createNestedHandlers hid (Some pth) td
                              (map new_pane td))))).
  { apply Hn.
    - split; [constructor | intros c []].
    - intros t _ _ []. }
  clear Hn.
  destruct (nest createNestedHandlers hid (Some pth) td (map new_pane td))
    as [[panes evs] r].
  cbn [fst] in Hl. destruct Hl as [Hl1 Hl2].
  assert (Hh : linked (Handler hid (Some pth) td panes))
    by (constructor; assumption).
  destruct r as [[]|err]; [|exact Hh].
  destruct td as [|first rest]; [exact Hh|].
  pose proof (openTab_linked (Handler hid (Some pth) (first :: rest) panes)
                (cssSafe (entry_id first)) Hh) as Ho.
  destruct (openTab _ _) as [[h evs'] r']. exact Ho.
Qed.

Lemma every_spec_creates_linked (t : tabSpec) :
  safe t = true -> distinct t = true -> creates_linked t.
Proof.
  induction t as [id title tabs IH] using tabSpec_nested_ind.
  intros Hs Hd pid acc nested evs r Hc.
  destruct (has_tabs (TabSpec id title tabs)) eqn:Ht.
  - rewrite (createNestedHandlers_some _ _ _ Ht) in Hc.
    pose proof (well_formed_tabs _ Hs Hd) as Hw.
    set (nid := (pid ++ "_nested_" ++ leaf_id (TabSpec id title tabs))%string)
      in *.
    assert (Heq : renderTabs nid (Some (acc ++ [nid]))
                    (child_tabs (TabSpec id title tabs))
                  = (nested, evs, r)) by congruence.
    pose proof (renderTabs_linked nid (acc ++ [nid])
                  (child_tabs (TabSpec id title tabs))) as Hr.
    rewrite Heq in Hr. apply Hr.
    + intros t Hin.
      destruct (well_formed_In _ t Hw Hin) as [Hst Hdt].
      destruct tabs as [l|]; [|destruct Hin].
      exact (IH l t eq_refl Hin Hst Hdt).
    + apply leaf_ids_NoDup. exact Hw.
  - destruct tabs as [[|t0 l]|]; cbn in Hc, Ht; discriminate.
Qed.

(** Rendering well-formed tab data links the handlers. *)
Lemma render_linked (hid : string) (pth : list string) (td : list tabSpec) :
  well_formed td = true ->
  linked (fst (fst (renderTabs hid (Some pth) td))).
Proof.
  intros Hw. apply renderTabs_linked.
  - intros t Hin. destruct (well_formed_In _ t Hw Hin) as [Hs Hd].
    exact (every_spec_creates_linked t Hs Hd).
  - apply leaf_ids_NoDup. exact Hw.
Qed.

(** *** Clicks anywhere in the tree *)

Lemma click_sig (path : list string) (id : string) :
  forall h, sig (fst (fst (click path id h))) = sig h.
Proof.
  induction path as [|first rest IH]; intros h; [reflexivity|].
  cbn [click].
  destruct (negb (String.eqb first (h_id h))); [reflexivity|].
  destruct rest as [|second rest'].
  - apply openTab_sig.
  - destruct (getElementById h second) as [[p|p|nested]|]; try reflexivity.
    destruct (click (second :: rest') id nested) as [[nested' evs] r].
    destruct h; reflexivity.
Qed.

Lemma click_linked (path : list string) (id : string) :
  forall h, linked h -> linked (fst (fst (click path id h))).
Proof.
  induction path as [|first rest IH]; intros h Hl; [exact Hl|].
  cbn [click].
  destruct (negb (String.eqb first (h_id h))); [exact Hl|].
  destruct rest as [|second rest'].
  - apply openTab_linked. exact Hl.
  - destruct (getElementById h second) as [[p|p|nested]|] eqn:Eg;
      try exact Hl.
    pose proof (click_sig (second :: rest') id nested) as Hsig.
    specialize (IH nested).
    destruct (click (second :: rest') id nested) as [[nested' evs] r].
    cbn [fst] in *.
    pose proof (getElementById_Nested_id _ _ _ Eg) as Hid.
    pose proof (getElementById_Nested_in _ _ _ Eg) as Hin.
    inversion Hl as [hid pth td panes Hnd Hch]. subst h.
    cbn [h_id h_path h_tabData h_panes] in *.
    unfold sig in Hsig. injection Hsig as Hi Hp _.
    destruct (Hch nested Hin) as (Hs & Hpath & Hln).
    constructor.
    + rewrite put_nested_ids; [exact Hnd | congruence].
    + intros c Hc. destruct (put_nested_In _ _ _ _ Hc) as [->|Hc'].
      * rewrite Hi, Hp. split; [exact Hs|]. split; [exact Hpath|].
        exact (IH Hln).
      * exact (Hch c Hc').
Qed.

Lemma click_reaches (path : list string) (id : string) :
  forall h, linked h ->
  forall pre, h_path h = Some (pre ++ [h_id h]) ->
  forall h' evs r e,
    click path id h = (h', evs, r) -> In e evs -> reaches pre h' e.
Proof.
  induction path as [|first rest IH]; intros h Hl pre Hp h' evs r e Hc Hin.
  - injection Hc as _ <- _. destruct Hin.
  - cbn [click] in Hc.
    destruct (negb (String.eqb first (h_id h)));
      [injection Hc as _ <- _; destruct Hin|].
    destruct rest as [|second rest'].
    + exact (openTab_reaches h Hl pre Hp id h' evs r e Hc Hin).
    + destruct (getElementById h second) as [[p0|p0|nested]|] eqn:Eg;
        try (injection Hc as _ <- _; destruct Hin).
      pose proof (click_sig (second :: rest') id nested) as Hsig.
      specialize (IH nested).
      destruct (click (second :: rest') id nested) as [[nested' evs0] r0]
        eqn:Ec.
      injection Hc as <- <- <-. cbn [fst] in Hsig.
      pose proof (getElementById_Nested_id _ _ _ Eg) as Hid.
      pose proof (getElementById_Nested_in _ _ _ Eg) as Hin0.
      inversion Hl as [hid pth td panes Hnd Hch]. subst h.
      cbn [h_id h_path h_tabData h_panes] in *.
      injection Hp as ->.
      unfold sig in Hsig. injection Hsig as Hi _ _.
      destruct (Hch nested Hin0) as (_ & Hpath & Hln).
      destruct (IH Hln (pre ++ [hid]) Hpath nested' evs0 r0 e eq_refl Hin)
        as (suffix & p & Hq & Ht & Hrest).
      exists (h_id nested' :: suffix), p. cbn [h_id].
      split; [rewrite Hq, <- app_assoc; reflexivity|].
      split; [|exact Hrest].
      rewrite target_step. cbn [h_id]. rewrite String.eqb_refl. cbn [negb].
      assert (Hid' : h_id nested' = second) by congruence.
      pose proof (getElementById_put
                    (Handler hid (Some (pre ++ [hid])) td panes) second
                    nested nested' Eg Hid') as Hg.
      cbn [h_id h_path h_tabData h_panes] in Hg.
      rewrite Hid'. rewrite Hg. rewrite <- Hid'. exact Ht.
Qed.

(** *** Every event can be answered *)

(** What is done to the root handler after it was rendered: buttons are
    clicked, and panes are filled. *)
Inductive tab_call : Type :=
  | Click (path : list string) (id : string)
  | SetTabContent (path : list string) (tabID : string).

Definition perform (h : handler) (c : tab_call) : handler :=
  match c with
  | Click path id => fst (fst (click path id h))
  | SetTabContent path tabID => fst (setTabContentPath path tabID h)
  end.

Lemma perform_linked (calls : list tab_call) :
  forall h, linked h ->
    linked (fold_left perform calls h)
    /\ sig (fold_left perform calls h) = sig h.
Proof.
  induction calls as [|c calls IH]; intros h Hl; [split; auto|].
  cbn [fold_left].
  assert (Hs : linked (perform h c) /\ sig (perform h c) = sig h).
  { destruct c as [path id|path tabID]; cbn [perform].
    - split; [apply click_linked; exact Hl | apply click_sig].
    - split; [apply setTabContentPath_linked; exact Hl
             | apply setTabContentPath_sig]. }
  destruct Hs as [Hl' Hs]. destruct (IH _ Hl') as [H1 H2].
  split; [exact H1 | congruence].
Qed.


(** Tab [A] with the nested tabs [A1] and [A2], and tab [B]. *)
Definition nested_tabs : list tabSpec :=
  [TabSpec None "A"
     (Some [TabSpec None "A1" None; TabSpec None "A2" None]);
   TabSpec None "B" None].


(** *** Handlers as rendering builds them *)

(** A handler has one pane per entry of its tab data, under the id of the
    entry; the pane of an entry with child tabs holds one nested handler
    for them, a pane of an entry without holds none; and so all the way
    down. *)
Inductive fresh : handler -> Prop :=
  | Fresh (hid : string) (pth : list string) (td : list tabSpec)
          (panes : list pane) :
      map p_spec panes = td ->
      (forall p, In p panes ->
         p_entry p = entry_of (p_spec p)
         /\ map sig (p_children p)
            = if has_tabs (p_spec p)
              then [expected_sig hid pth (p_spec p)]
              else []) ->
      (forall c, In c (children panes) -> fresh c) ->
      fresh (Handler hid (Some pth) td panes).

Lemma pane_sig_specs (ps' ps : list pane) :
  map pane_sig ps' = map pane_sig ps -> map p_spec ps' = map p_spec ps.
Proof.
  intros Hm.
  apply (f_equal (map (fun x : string * tabSpec
                                * list (string * option (list string)
                                        * list tabSpec) =>
                         snd (fst x)))) in Hm.
  rewrite !map_map in Hm. exact Hm.
Qed.

Lemma pane_sig_In (ps' ps : list pane) (p' : pane) :
  map pane_sig ps' = map pane_sig ps -> In p' ps' ->
  exists p, In p ps /\ pane_sig p' = pane_sig p.
Proof.
  intros Hm Hin. apply (in_map pane_sig) in Hin. rewrite Hm in Hin.
  apply in_map_iff in Hin. destruct Hin as (p & Hq & Hin).
  exists p. split; [exact Hin | symmetry; exact Hq].
Qed.

(** What [fresh] asks of the panes goes by their entries, specifications
    and the identity of their handlers. *)
Lemma fresh_panes (hid : string) (pth : list string) (td : list tabSpec)
  (ps ps' : list pane) :
  map pane_sig ps' = map pane_sig ps ->
  fresh (Handler hid (Some pth) td ps) ->
  (forall c, In c (children ps') -> fresh c) ->
  fresh (Handler hid (Some pth) td ps').
Proof.
  intros Hm Hf Hc. inversion Hf as [? ? ? ? H1 H2 H3]. subst.
  constructor; [|  |exact Hc].
  - rewrite (pane_sig_specs _ _ Hm). reflexivity.
  - intros p' Hin. destruct (pane_sig_In _ _ _ Hm Hin) as (p & Hp & Hq).
    unfold pane_sig in Hq. injection Hq as He Hs Hcs.
    rewrite He, Hs, Hcs. exact (H2 p Hp).
Qed.

Lemma openTab_fresh (h : handler) (id : string) :
  fresh h -> fresh (fst (fst (openTab h id))).
Proof.
  revert id. induction h as [hid path td panes IH] using handler_nested_ind.
  intros id Hf. inversion Hf as [? pth ? ? H1 H2 H3]. subst.
  cbn [openTab].
  pose proof (select_pane_sig (Some pth) id panes) as Hsig.
  pose proof (select_children (Some pth) id panes) as Hsel.
  destruct (select openTab (Some pth) id panes) as [[ps' evs] r].
  cbn [fst] in *. apply (fresh_panes _ _ _ panes ps' Hsig Hf).
  intros c' Hin. destruct (Hsel c' Hin) as [Hc|(c & id0 & Hc & ->)].
  - exact (H3 c' Hc).
  - pose proof (H3 c Hc) as Hfc.
    apply in_flat_map in Hc. destruct Hc as (p & Hp & Hc).
    exact (IH p c Hp Hc id0 Hfc).
Qed.

Lemma put_child_sigs (x : string) (c c' : handler) (cs : list handler) :
  find (fun c0 => String.eqb (h_id c0) x) cs = Some c -> sig c' = sig c ->
  map sig (put_child x c' cs) = map sig cs.
Proof.
  intros Hf Hs. induction cs as [|c0 cs IH]; [discriminate|].
  cbn [find put_child] in *. destruct (String.eqb (h_id c0) x).
  - injection Hf as ->. cbn [map]. rewrite Hs. reflexivity.
  - cbn [map]. rewrite (IH Hf). reflexivity.
Qed.

Lemma put_nested_pane_sig (h : handler) (x : string) (c c' : handler) :
  getElementById h x = Some (Nested c) -> sig c' = sig c ->
  map pane_sig (put_nested x c' (h_panes h)) = map pane_sig (h_panes h).
Proof.
  destruct h as [hid path td panes]. unfold getElementById.
  cbn [h_id h_panes]. destruct (find _ panes); [discriminate|].
  intros Hg Hs.
  induction panes as [|[e a d u s cs] ps IH];
    cbn [in_panes put_nested p_children] in *; [reflexivity|].
  destruct (String.eqb (content_id hid (Pane e a d u s cs)) x);
    [discriminate|].
  rewrite existsb_find.
  destruct (find (fun c0 => String.eqb (h_id c0) x) cs) as [c0|] eqn:Ef.
  - injection Hg as ->. cbn [map]. unfold pane_sig at 1 3.
    cbn [p_entry p_spec p_children].
    rewrite (put_child_sigs x c c' cs Ef Hs). reflexivity.
  - cbn [map]. rewrite (IH Hg). reflexivity.
Qed.

Lemma click_fresh (path : list string) (id : string) :
  forall h, fresh h -> fresh (fst (fst (click path id h))).
Proof.
  induction path as [|first rest IH]; intros h Hf; [exact Hf|].
  cbn [click].
  destruct (negb (String.eqb first (h_id h))); [exact Hf|].
  destruct rest as [|second rest'].
  - apply openTab_fresh. exact Hf.
  - destruct (getElementById h second) as [[p|p|nested]|] eqn:Eg;
      try exact Hf.
    pose proof (click_sig (second :: rest') id nested) as Hsig.
    specialize (IH nested).
    destruct (click (second :: rest') id nested) as [[nested' evs] r].
    cbn [fst] in *.
    pose proof (getElementById_Nested_in _ _ _ Eg) as Hin.
    pose proof (put_nested_pane_sig h second nested nested' Eg Hsig) as Hm.
    inversion Hf as [hid pth td panes H1 H2 H3]. subst h.
    cbn [h_id h_path h_tabData h_panes] in *.
    apply (fresh_panes _ _ _ panes _ Hm Hf).
    intros c Hc. destruct (put_nested_In _ _ _ _ Hc) as [->|Hc'].
    + exact (IH (H3 nested Hin)).
    + exact (H3 c Hc').
Qed.

Definition entry_spec (p : pane) : string * tabSpec := (p_entry p, p_spec p).

Lemma append_child_entry_spec (e : string) (nested : handler)
  (ps : list pane) :
  map entry_spec (append_child e nested ps) = map entry_spec ps.
Proof.
  induction ps as [|[e' a d u s c] ps IH]; cbn [append_child];
    [reflexivity|].
  destruct (String.eqb e' e); cbn [map]; [reflexivity|].
  rewrite IH. reflexivity.
Qed.

Lemma nest_entry_spec create (hid : string) (path : option (list string))
  (specs : list tabSpec) :
  forall panes,
    map entry_spec (fst (fst (nest create hid path specs panes)))
    = map entry_spec panes.
Proof.
  induction specs as [|spec specs IH]; intros panes; [reflexivity|].
  cbn [nest]. destruct (spec_tabs spec) as [[|t0 l]|]; try apply IH.
  destruct path as [acc|]; [|reflexivity].
  destruct (create hid acc spec) as [[[nested evs] [[]|err]]|];
    try reflexivity; [|apply IH].
  specialize (IH (append_child (cssSafe (entry_id spec)) nested panes)).
  destruct (nest create hid (Some acc) specs
              (append_child (cssSafe (entry_id spec)) nested panes))
    as [[panes' evs'] r'].
  cbn [fst] in *. rewrite IH. apply append_child_entry_spec.
Qed.

Lemma nest_children_all (Q : handler -> Prop) (hid : string)
  (pth : list string) (specs : list tabSpec) :
  (forall t nested evs r,
     In t specs ->
     createNestedHandlers hid pth t = Some (nested, evs, r) -> Q nested) ->
  forall panes,
    (forall c, In c (children panes) -> Q c) ->
    forall c,
      In c (children
              (fst (fst (nest createNestedHandlers hid (Some pth) specs
                           panes)))) ->
      Q c.
Proof.
  induction specs as [|spec specs IH]; intros Hc panes Hq; [exact Hq|].
  assert (IH' : forall panes0,
            (forall c, In c (children panes0) -> Q c) ->
            forall c,
              In c (children
                      (fst (fst (nest createNestedHandlers hid (Some pth)
                                   specs panes0)))) ->
              Q c).
  { apply IH. intros t nested evs r Hin. apply Hc. right. exact Hin. }
  cbn [nest]. destruct (spec_tabs spec) as [[|t0 l]|];
    try (apply IH'; exact Hq).
  destruct (createNestedHandlers hid pth spec) as [[[nested evs] r]|] eqn:Ec;
    [|apply IH'; exact Hq].
  destruct r as [[]|err]; [|exact Hq].
  specialize (IH' (append_child (cssSafe (entry_id spec)) nested panes)).
  destruct (nest createNestedHandlers hid (Some pth) specs
              (append_child (cssSafe (entry_id spec)) nested panes))
    as [[panes' evs'] r'].
  cbn [fst] in *. apply IH'.
  intros c Hin. destruct (append_child_In _ _ _ _ Hin) as [->|Hin'].
  - exact (Hc spec nested evs (Ok tt) (or_introl eq_refl) Ec).
  - exact (Hq c Hin').
Qed.

Lemma find_pane_unique (ps : list pane) (p : pane) :
  NoDup (map p_entry ps) -> In p ps -> find_pane (p_entry p) ps = Some p.
Proof.
  unfold find_pane.
  induction ps as [|q ps IH]; intros Hnd Hin; [destruct Hin|].
  cbn [map] in Hnd. inversion Hnd as [|? ? Hnot Hnd']; subst.
  cbn [find]. destruct Hin as [->|Hin].
  - rewrite String.eqb_refl. reflexivity.
  - destruct (String.eqb (p_entry q) (p_entry p)) eqn:E; [|exact (IH Hnd' Hin)].
    apply String.eqb_eq in E. exfalso. apply Hnot. rewrite E.
    apply in_map. exact Hin.
Qed.

Lemma filter_entry_none (td : list tabSpec) (spec : tabSpec) :
  NoDup (map entry_of td) -> In spec td -> has_tabs spec = false ->
  filter (fun t => has_tabs t && String.eqb (entry_of t) (entry_of spec)) td
  = [].
Proof.
  induction td as [|t td IH]; intros Hnd Hin Ht; [reflexivity|].
  cbn [map] in Hnd. inversion Hnd as [|? ? Hnot Hnd']; subst.
  cbn [filter].
  assert (Hnone : forall l,
            ~ In (entry_of spec) (map entry_of l) ->
            filter (fun t => has_tabs t
                             && String.eqb (entry_of t) (entry_of spec)) l
            = []).
  { induction l as [|x l IHl]; cbn [filter map]; intros Hn; [reflexivity|].
    destruct (String.eqb (entry_of x) (entry_of spec)) eqn:E.
    - apply String.eqb_eq in E. exfalso. apply Hn. left. exact E.
    - rewrite andb_false_r. apply IHl. intros H. apply Hn. right. exact H. }
  destruct Hin as [->|Hin].
  - rewrite Ht. cbn [andb]. apply Hnone. exact Hnot.
  - destruct (String.eqb (entry_of t) (entry_of spec)) eqn:E.
    + apply String.eqb_eq in E. exfalso. apply Hnot. rewrite E.
      apply in_map. exact Hin.
    + rewrite andb_false_r. apply IH; assumption.
Qed.

Definition creates_fresh (t : tabSpec) : Prop :=
  safe t = true -> distinct t = true ->
  forall pid acc nested evs r,
    createNestedHandlers pid acc t = Some (nested, evs, r) -> fresh nested.

Lemma well_formed_parts (td : list tabSpec) :
  well_formed td = true ->
  forallb safe td = true /\ NoDup (map entry_of td).
Proof.
  unfold well_formed. intros H.
  apply andb_prop in H. destruct H as [H _].
  apply andb_prop in H. destruct H as [Hs Hn].
  split; [exact Hs | exact (nodupb_NoDup _ Hn)].
Qed.

Lemma renderTabs_fresh (hid : string) (pth : list string)
  (td : list tabSpec) :
  (forall t, In t td -> creates_fresh t) ->
  well_formed td = true ->
  fresh (fst (fst (renderTabs hid (Some pth) td))).
Proof.
  intros Hc Hw. destruct (well_formed_parts td Hw) as [Hsafe Hnd].
  unfold renderTabs, renderTabs_with.
  destruct (nest_ok hid pth td
              (fun t _ => every_spec_creates_openable t) Hsafe
              (map new_pane td)) as (panes & evs & Hnest & _ & Hent).
  { apply Forall_map. apply Forall_forall. intros t _. constructor. }
  pose proof (nest_entry_spec createNestedHandlers hid (Some pth) td
                (map new_pane td)) as Hes.
  pose proof (nest_children_all fresh hid pth td) as Hall.
  specialize (Hall (fun t nested evs0 r Hin Hcr =>
                      Hc t Hin (proj1 (well_formed_In td t Hw Hin))
                        (proj2 (well_formed_In td t Hw Hin))
                        hid pth nested evs0 r Hcr)
                (map new_pane td)).
  rewrite children_new_pane in Hall. specialize (Hall (fun c (H : False) =>
                                                         match H with end)).
  rewrite Hnest in Hes, Hall |- *. cbn [fst] in Hes, Hall.
  rewrite map_map in Hes.
  assert (Hentries : map p_entry panes = map entry_of td).
  { rewrite Hent, map_map. reflexivity. }
  assert (Hf : fresh (Handler hid (Some pth) td panes)).
  { constructor; [| |exact Hall].
    - apply (f_equal (map snd)) in Hes. rewrite !map_map in Hes.
      cbn in Hes. rewrite map_id in Hes. exact Hes.
    - intros p Hin.
      assert (Hp : In (entry_spec p) (map entry_spec panes))
        by (apply in_map; exact Hin).
      rewrite Hes in Hp. apply in_map_iff in Hp.
      destruct Hp as (t & Hq & Ht). unfold entry_spec in Hq.
      cbn [new_pane p_entry p_spec] in Hq. injection Hq as He Hs.
      fold (entry_of t) in He.
      split; [rewrite <- Hs, <- He; reflexivity|].
      assert (Hfp : find_pane (p_entry p) panes = Some p).
      { apply find_pane_unique; [|exact Hin]. rewrite Hentries. exact Hnd. }
      destruct (nest_find hid pth td _ _ _ Hnest (p_entry p) p Hfp)
        as (p0 & Hf0 & _ & _ & Hc0).
      assert (Hch0 : p_children p0 = []).
      { apply find_some in Hf0. destruct Hf0 as [Hf0 _].
        apply in_map_iff in Hf0. destruct Hf0 as (t0 & <- & _).
        reflexivity. }
      rewrite Hch0 in Hc0. cbn [map app] in Hc0. rewrite Hc0.
      rewrite <- Hs, <- He.
      destruct (has_tabs t) eqn:Eh.
      + rewrite (filter_entry_unique td t Hnd Ht Eh). reflexivity.
      + rewrite (filter_entry_none td t Hnd Ht Eh). reflexivity. }
  destruct td as [|first rest]; [exact Hf|].
  pose proof (openTab_fresh (Handler hid (Some pth) (first :: rest) panes)
                (cssSafe (entry_id first)) Hf) as Ho.
  destruct (openTab _ _) as [[h evs'] r']. exact Ho.
Qed.

Lemma every_spec_creates_fresh (t : tabSpec) : creates_fresh t.
Proof.
  induction t as [id title tabs IH] using tabSpec_nested_ind.
  intros Hs Hd pid acc nested evs r Hc.
  destruct (has_tabs (TabSpec id title tabs)) eqn:Ht.
  - rewrite (createNestedHandlers_some _ _ _ Ht) in Hc.
    pose proof (well_formed_tabs _ Hs Hd) as Hw.
    set (nid := (pid ++ "_nested_" ++ leaf_id (TabSpec id title tabs))%string)
      in *.
    assert (Heq : renderTabs nid (Some (acc ++ [nid]))
                    (child_tabs (TabSpec id title tabs))
                  = (nested, evs, r)) by congruence.
    pose proof (renderTabs_fresh nid (acc ++ [nid])
                  (child_tabs (TabSpec id title tabs))) as Hr.
    rewrite Heq in Hr. apply Hr; [|exact Hw].
    intros t Hin. destruct tabs as [l|]; [|destruct Hin].
    exact (IH l t eq_refl Hin).
  - destruct tabs as [[|t0 l]|]; cbn in Hc, Ht; discriminate.
Qed.

(** Rendering well-formed tab data gives such a handler. *)
Lemma render_fresh (hid : string) (pth : list string) (td : list tabSpec) :
  well_formed td = true ->
  fresh (fst (fst (renderTabs hid (Some pth) td))).
Proof.
  intros Hw. apply renderTabs_fresh; [|exact Hw].
  intros t _. apply every_spec_creates_fresh.
Qed.

(** *** Titles lead to their pane *)

Lemma fresh_find (hid : string) (pth : list string) (td : list tabSpec)
  (panes : list pane) (entry : tabSpec) :
  fresh (Handler hid (Some pth) td panes) ->
  NoDup (map entry_of td) -> In entry td ->
  exists p,
    In p panes /\ find_pane (entry_of entry) panes = Some p
    /\ p_spec p = entry.
Proof.
  intros Hf Hnd Hin. inversion Hf as [? ? ? ? H1 H2 H3]. subst.
  apply in_map_iff in Hin. destruct Hin as (p & Hs & Hin).
  exists p. split; [exact Hin|]. split; [|exact Hs].
  rewrite <- Hs, <- (proj1 (H2 p Hin)).
  apply find_pane_unique; [|exact Hin].
  assert (He : map p_entry panes = map entry_of (map p_spec panes)).
  { rewrite map_map. apply map_ext_in. intros q Hq. exact (proj1 (H2 q Hq)). }
  rewrite He. exact Hnd.
Qed.

Lemma find_child_unique (ps : list pane) (c : handler) :
  NoDup (map h_id (children ps)) -> In c (children ps) ->
  find_child (h_id c) ps = Some c.
Proof.
  unfold find_child. generalize (children ps) as l.
  induction l as [|c0 l IH]; intros Hnd Hin; [destruct Hin|].
  cbn [map] in Hnd. inversion Hnd as [|? ? Hnot Hnd']; subst.
  cbn [find]. destruct Hin as [->|Hin].
  - rewrite String.eqb_refl. reflexivity.
  - destruct (String.eqb (h_id c0) (h_id c)) eqn:E; [|exact (IH Hnd' Hin)].
    apply String.eqb_eq in E. exfalso. apply Hnot. rewrite E.
    apply in_map. exact Hin.
Qed.

Lemma resolve_target (titles : list string) :
  forall (h : handler) (pathacc : list string) (t : event),
    linked h -> fresh h -> well_formed (h_tabData h) = true ->
    resolve (h_id h) pathacc (h_tabData h) titles = Some t ->
    exists suffix p,
      ev_path t = pathacc ++ suffix
      /\ target (h_id h :: suffix) (ev_tabID t) h = Some p
      /\ p_spec p = ev_tabSpec t.
Proof.
  induction titles as [|title rest IH]; intros h pathacc t Hl Hf Hw Hr;
    [discriminate|].
  cbn [resolve] in Hr.
  destruct (find_title title (h_tabData h)) as [entry|] eqn:Et;
    [|discriminate].
  unfold find_title in Et. apply find_some in Et. destruct Et as [Hin _].
  destruct h as [hid path td panes]. cbn [h_id h_tabData] in *.
  destruct (well_formed_parts td Hw) as [_ Hnd].
  destruct (well_formed_In td entry Hw Hin) as [Hse Hde].
  inversion Hl as [? pth ? ? Hndc Hch]. subst.
  destruct (fresh_find _ _ _ _ entry Hf Hnd Hin) as (p & Hp & Hfp & Hsp).
  destruct rest as [|t2 rest'].
  - injection Hr as <-. cbn [ev_path ev_tabID ev_tabSpec].
    exists [], p. split; [rewrite app_nil_r; reflexivity|].
    split; [|exact Hsp].
    rewrite target_leaf. cbn [h_id h_panes]. rewrite String.eqb_refl.
    cbn [negb]. rewrite (safe_leaf_entry entry Hse). exact Hfp.
  - cbv zeta in Hr.
    destruct (spec_tabs entry) as [tabs|] eqn:Etabs; [|discriminate].
    assert (Hne : has_tabs entry = true).
    { unfold has_tabs. rewrite Etabs. destruct tabs; [discriminate|].
      reflexivity. }
    inversion Hf as [? ? ? ? H1 H2 H3]. subst.
    destruct (H2 p Hp) as [_ Hcs]. rewrite Hne in Hcs.
    destruct (p_children p) as [|c [|c2 cs]] eqn:Ech; try discriminate.
    cbn [map] in Hcs. unfold sig, expected_sig in Hcs.
    injection Hcs as Hi _ Htd.
    assert (Hi' : h_id c = nested_id hid (leaf_id (p_spec p))) by exact Hi.
    clear Hi. rename Hi' into Hi.
    assert (Hcin : In c (children panes)).
    { apply in_flat_map. exists p. split; [exact Hp|]. rewrite Ech.
      left. reflexivity. }
    destruct (Hch c Hcin) as (_ & _ & Hlc).
    assert (Htabs : child_tabs (p_spec p) = tabs)
      by (unfold child_tabs; rewrite Etabs; reflexivity).
    destruct (IH c (pathacc ++ [nested_id hid (leaf_id (p_spec p))]) t Hlc
                (H3 c Hcin)) as (suffix & p' & Hq & Ht & Hs').
    + rewrite Htd. apply well_formed_tabs; assumption.
    + rewrite Hi, Htd, Htabs. exact Hr.
    + exists (h_id c :: suffix), p'.
      split; [rewrite Hq, <- app_assoc, Hi; reflexivity|].
      split; [|exact Hs'].
      rewrite target_step. cbn [h_id]. rewrite String.eqb_refl. cbn [negb].
      pose proof (getElementById_nested
                    (Handler hid (Some pth) (map p_spec panes) panes)
                    (leaf_id (p_spec p))) as Hg.
      cbn [h_id h_panes] in Hg. rewrite <- Hi in Hg.
      rewrite (find_child_unique panes c Hndc Hcin) in Hg.
      rewrite Hg. exact Ht.
Qed.

(** A click on the button of a pane without nested handler sends the event
    of that pane, when the marker is there. *)
Lemma click_leaf (path : list string) (tabID : string) :
  forall (h : handler) (pre : list string) (p : pane),
    linked h -> h_path h = Some (pre ++ [h_id h]) ->
    target path tabID h = Some p -> p_children p = [] ->
    exists h',
      click path tabID h
      = (h',
         if p_unrendered p
         then [{| ev_path := pre ++ path; ev_tabID := tabID;
                  ev_tabSpec := p_spec p |}]
         else [],
         Ok tt).
Proof.
  induction path as [|first rest IH]; intros h pre p Hl Hp Ht Hc;
    [discriminate|].
  cbn [target] in Ht. cbn [click].
  destruct (String.eqb first (h_id h)) eqn:E1; [|discriminate].
  apply String.eqb_eq in E1. subst first. cbn [negb] in *.
  destruct rest as [|second rest'].
  - destruct h as [hid path td panes]. cbn [h_id h_path h_panes] in *.
    subst path. cbn [openTab].
    destruct (select_leaf openTab (pre ++ [hid]) tabID panes p Ht Hc)
      as (ps' & Hs & _).
    rewrite Hs. eexists. reflexivity.
  - destruct (getElementById h second) as [[p0|p0|nested]|] eqn:Eg;
      try discriminate.
    pose proof (getElementById_Nested_in _ _ _ Eg) as Hin.
    inversion Hl as [hid pth td panes Hnd Hch]. subst h.
    cbn [h_id h_path h_tabData h_panes] in *. injection Hp as ->.
    destruct (Hch nested Hin) as (_ & Hpath & Hln).
    destruct (IH nested (pre ++ [hid]) p Hln Hpath Ht Hc) as (n' & Hcl).
    rewrite Hcl. rewrite <- app_assoc. eexists. reflexivity.
Qed.

Definition clicked (h : handler) (c : list string * string) : handler :=
  fst (fst (click (fst c) (snd c) h)).

Lemma clicked_kept (clicks : list (list string * string)) :
  forall h, linked h -> fresh h ->
    linked (fold_left clicked clicks h)
    /\ fresh (fold_left clicked clicks h)
    /\ sig (fold_left clicked clicks h) = sig h.
Proof.
  induction clicks as [|c clicks IH]; intros h Hl Hf; [auto|].
  cbn [fold_left].
  destruct (IH (clicked h c)) as (H1 & H2 & H3).
  - apply click_linked. exact Hl.
  - apply click_fresh. exact Hf.
  - split; [exact H1|]. split; [exact H2|]. rewrite H3. apply click_sig.
Qed.



End PathProps.

(** ** The further properties on concrete inputs *)

Section MoreExamples.
Import Demo TableMakerComponent TabHandlerComponent TabProps.
Import TabHandlerMethods HexProps TabOpenProps.
#[local] Existing Instance DemoLaws.

(** [hi] in hexadecimal. *)
Lemma stringToHex_latin1_witness :
  latin1 [104%N; 105%N]
  /\ String.length (stringToHex [104%N; 105%N]) = 4%nat.
Proof.
  assert (Hl : latin1 [104%N; 105%N]) by (repeat constructor).
  split; [exact Hl|]. exact (proj1 stringToHex_latin1 _ Hl).
Defined.

(** Data assigned after [beginBatch()] is not rendered. *)
Lemma batch_mode_defers_rendering_witness :
  let st := fst (beginBatch initial) in
  batchMode st = true
  /\ shadow (fst (set_data 1 (VObj unsorted_data) st)) = shadow st.
Proof.
  intros st.
  assert (Hb : batchMode st = true) by reflexivity.
  split; [exact Hb|].
  exact (proj2 (proj1 (proj1 (batch_mode_defers_rendering 1 st) Hb
                         (VObj unsorted_data)))).
Defined.

(** A render leaves the sort state alone. *)
Lemma sort_state_is_kept_witness :
  is_sort Rerender = false
  /\ sortedColumn (fst (run 1 Rerender (holding unsorted_data)))
     = sortedColumn (holding unsorted_data).
Proof.
  assert (Hs : is_sort Rerender = false) by reflexivity.
  split; [exact Hs|].
  exact (proj1 (sort_state_is_kept 1 (holding unsorted_data)) Rerender Hs).
Defined.

(** [null] assigned to [data] of a fresh element. *)
Lemma data_null_witness :
  (VNull = VNull \/ VNull = VUndef)
  /\ snd (set_data 1 VNull initial) = Throw TypeError
  /\ JSON_parse "null" = Some VNull
  /\ shadow (fst (set_data 1 (VStr "null") (holding unsorted_data))) = [].
Proof.
  assert (Hv : VNull = VNull \/ VNull = VUndef) by (left; reflexivity).
  assert (Hp : JSON_parse "null" = Some VNull) by reflexivity.
  split; [exact Hv|].
  split; [exact (proj1 (proj1 (data_null 1 initial) VNull Hv))|].
  split; [exact Hp|].
  exact (proj2 (proj2 (proj2 (data_null 1 (holding unsorted_data)) "null" Hp
                               eq_refl))).
Defined.

(** A row without details in a table without detail rows. *)
Lemma cells_of_rows_witness :
  let st := fst (set_style (VObj [("row_buttons", VArr []);
                                  ("row_styles", VArr [])]) false initial) in
  let cols := [("X", VObj [("type", VStr "number")])] in
  let row := VObj [("X", TableMaker.mk_cell (VStr "number") (VNum (DInt 2))
                           (VNum (DInt 2)))] in
  let tr := el "tr" [("className", VStr "")]
              [el "td" [("dataset.type", VStr "number");
                        ("dataset.value", VNum (DInt 2));
                        ("innerHTML", VNum (DInt 2))] []] in
  buildDataRow st row cols = Ok tr
  /\ has_details row = truthy (member (style st) "expandableRows")
  /\ cells tr = cells (header_row (buildHeader st cols)).
Proof.
  intros st cols row tr.
  assert (E : buildDataRow st row cols = Ok tr) by reflexivity.
  assert (Hd : has_details row = truthy (member (style st) "expandableRows"))
    by reflexivity.
  split; [exact E|]. split; [exact Hd|].
  destruct (cells_of_rows st cols) as (Hh & _ & Hr).
  rewrite Hh. exact (proj1 (proj2 (Hr row tr E)) Hd).
Defined.

(** The row and the detail row of [detail_data]. *)
Lemma toggle_twice_restores_witness :
  let tr := el "tr" [("className", VStr "")]
              [el "td" [] [add_listener ToggleHandler (makeToggleCell false)]] in
  let siblings := [tr; detail_tr "none"] in
  nth_error siblings 0 = Some tr
  /\ nth_error siblings 1 = Some (detail_tr "none")
  /\ set_caret "▶︎" tr = tr
  /\ node_set "style.display" (VStr "none") (detail_tr "none")
     = detail_tr "none"
  /\ exists shown,
       toggle_click siblings 0 = Ok shown
       /\ toggle_click shown 0 = Ok siblings.
Proof.
  intros tr siblings.
  destruct (toggle_twice_restores siblings 0 tr (detail_tr "none")
              eq_refl eq_refl eq_refl eq_refl) as (shown & H1 & _ & H2).
  repeat (split; [reflexivity|]).
  exists shown. split; [exact H1 | exact H2].
Defined.


(** Two rows of text, transposed: the columns [X] and [Y]. *)
Definition text_data : list (string * value) :=
  [("cols", VObj [("X", VObj []); ("Y", VObj [])]);
   ("rows", VArr [VObj [("X", VStr "p"); ("Y", VStr "a")];
                  VObj [("X", VStr "q"); ("Y", VStr "b")]])].

Definition text_prepared : TableMaker.df :=
  match prepare (holding text_data) with
  | Ok d => d
  | Throw _ => {| TableMaker.df_rows := []; TableMaker.df_cols := [] |}
  end.

Definition text_transposed : node :=
  el "table" [("style", VStr "")]
    [el "thead" []
       [el "tr" [("class", VStr "")]
          [el "th" [("data-type", VStr "text"); ("textContent", VStr "X")] [];
           el "th" [("data-type", VStr "text"); ("textContent", VStr "p")] [];
           el "th" [("data-type", VStr "text"); ("textContent", VStr "q")] []]];
     el "tbody" []
       [el "tr" [("class", VStr "")]
          [el "th" [("data-type", VStr "text"); ("textContent", VStr "Y")] [];
           el "td" [("data-type", VStr "text"); ("textContent", VStr "a")] [];
           el "td" [("data-type", VStr "text"); ("textContent", VStr "b")] []]]].


(** Two rows with amounts in rupees and dollars; the second has no dollar
    amount. *)
Lemma money2_sum_by_slot_witness :
  let colInfo := VObj [("col", VStr "p"); ("type", VStr COL_TYPES.MONEY2);
                       ("precision", VNum (DInt 0));
                       ("aggregate", VStr "sum")] in
  let cell (vals : list value) :=
    TableMaker.mk_cell (VStr COL_TYPES.MONEY2) (VArr vals) (VStr "") in
  let a1 := [VNum (DInt 100); VNum (DInt 2)] in
  let a2 := [VNum (DInt 50)] in
  let rows := [VObj [("p", cell a1)]; VObj [("p", cell a2)]] in
  member colInfo "col" = VStr "p"
  /\ member colInfo "aggregate" = VStr "sum"
  /\ member colInfo "type" = VStr COL_TYPES.MONEY2
  /\ Forall2 (fun row vals => member (member row "p") "value" = VArr vals)
       rows [a1; a2]
  /\ aggregate_value colInfo rows
     = Ok (VArr [VNum (DInt 150); VNum (DInt 2)]).
Proof.
  intros colInfo cell a1 a2 rows.
  assert (Hf : Forall2 (fun row vals =>
                          member (member row "p") "value" = VArr vals)
                 rows [a1; a2]) by (repeat constructor).
  repeat (split; [first [reflexivity | exact Hf]|]).
  etransitivity;
    [exact (proj1 (money2_sum_by_slot colInfo "p" rows [a1; a2]
                     eq_refl eq_refl eq_refl Hf))|].
  reflexivity.
Defined.

End MoreExamples.
